(** * MeetingSummary: a shallow embedding of the recording and
      post-processing core (ring buffer, chunk segmenter, recording engine,
      transcript merger, processing pipeline) and the properties stated for
      it.

    Conventions of the embedding.
    - Python [int] is [Z]; [bytes] is [list byte]; [len] is [Z.of_nat ∘ length].
    - Python [float] quantities (seconds, similarity ratios) are exact
      rationals [Q], so the rounding of doubles is not modelled; equalities
      between them are stated with [==].
    - [str] values that the code inspects character by character
      (transcript text) are lists of Unicode code points; strings that are
      only stored or passed on are [string].
    - A method that mutates [self] becomes a function from the old object
      to the new one (and the returned value, when there is one).
    - A Python exception is a value [Raised e] of type [outcome]. *)

From Stdlib Require Import ZArith QArith Qround Lqa Lia List Bool String Ascii.
From Stdlib Require Import DecimalString.
From Stdlib Require Import Strings.Byte Sorting.Sorted Sorting.Permutation.
From stdpp Require Import base gmap list strings.

Local Open Scope Z_scope.

(** ** Python primitives *)

Module Py.

Definition bytes := list Byte.byte.

Definition len {A} (l : list A) : Z := Z.of_nat (length l).

(** [l[k:]] for a possibly negative [k]. *)
Definition slice_from {A} (k : Z) (l : list A) : list A :=
  if k <? 0 then skipn (Z.to_nat (Z.max 0 (len l + k))) l
  else skipn (Z.to_nat k) l.

(** [l[:k]] for a possibly negative [k]. *)
Definition slice_to {A} (k : Z) (l : list A) : list A :=
  if k <? 0 then firstn (Z.to_nat (Z.max 0 (len l + k))) l
  else firstn (Z.to_nat k) l.

(** [int(x)] on a real number: truncation towards zero. *)
Definition int (q : Q) : Z := Z.quot (Qnum q) (Z.pos (Qden q)).

Definition Qltb (a b : Q) : bool := negb (Qle_bool b a).

(** [max(a, b)] and [min(a, b)]: the second argument wins only when it is
    strictly larger (resp. smaller). *)
Definition max (a b : Q) : Q := if Qltb a b then b else a.
Definition min (a b : Q) : Q := if Qltb b a then b else a.

Inductive exn : Type :=
| ZeroDivisionError
| ValueError (msg : string)
| RuntimeError (msg : string)
| ProviderError (msg : string)
| IntegrityError              (* sqlalchemy.exc: a constraint of the database failed *)
| DetachedInstanceError.      (* sqlalchemy.orm.exc: a row read outside its session *)

Inductive outcome (A : Type) : Type :=
| Returned (a : A)
| Raised (e : exn).
Arguments Returned {A} a.
Arguments Raised {A} e.

(** [a / b] on integers (true division). *)
Definition truediv (a b : Z) : outcome Q :=
  if b =? 0 then Raised ZeroDivisionError
  else Returned (inject_Z a / inject_Z b)%Q.

(** [str(n)] for an integer. *)
Definition str_Z (n : Z) : string := NilZero.string_of_int (Z.to_int n).

(** [x or d] where [x] is an optional number: [None] and zero are falsy. *)
Definition or_Z (x : option Z) (d : Z) : Z :=
  match x with
  | Some v => if v =? 0 then d else v
  | None => d
  end.

Definition or_Q (x : option Q) (d : Q) : Q :=
  match x with
  | Some v => if Qeq_bool v 0 then d else v
  | None => d
  end.

End Py.

Export Py(bytes, outcome, Returned, Raised).

(** ** audio/audio_buffer.py *)

Module AudioBuffer.

Record t : Type := mk {
  sample_rate : Z;
  channels : Z;
  bytes_per_sample : Z;
  bytes_per_second : Z;
  max_bytes : Z;
  _buffer : list bytes;          (* the deque, oldest block first *)
  _total_bytes : Z;
  _total_received_bytes : Z
}.

(** [AudioBuffer.__init__] *)
Definition init (max_seconds : Q) (sample_rate channels : Z) : t :=
  let bytes_per_sample := 2 in
  let bytes_per_second := sample_rate * channels * bytes_per_sample in
  {| sample_rate := sample_rate;
     channels := channels;
     bytes_per_sample := bytes_per_sample;
     bytes_per_second := bytes_per_second;
     max_bytes := Py.int (max_seconds * inject_Z bytes_per_second)%Q;
     _buffer := [];
     _total_bytes := 0;
     _total_received_bytes := 0 |}.

Definition with_data (b : t) (buf : list bytes) (total : Z) : t :=
  {| sample_rate := sample_rate b;
     channels := channels b;
     bytes_per_sample := bytes_per_sample b;
     bytes_per_second := bytes_per_second b;
     max_bytes := max_bytes b;
     _buffer := buf;
     _total_bytes := total;
     _total_received_bytes := _total_received_bytes b |}.

Definition with_received (b : t) (n : Z) : t :=
  {| sample_rate := sample_rate b;
     channels := channels b;
     bytes_per_sample := bytes_per_sample b;
     bytes_per_second := bytes_per_second b;
     max_bytes := max_bytes b;
     _buffer := _buffer b;
     _total_bytes := _total_bytes b;
     _total_received_bytes := n |}.

(** The eviction loop of [write]:
    [while self._total_bytes > self.max_bytes and self._buffer: popleft]. *)
Fixpoint evict (max : Z) (buf : list bytes) (total : Z) : list bytes * Z :=
  match buf with
  | [] => ([], total)
  | old_data :: rest =>
      if total >? max then evict max rest (total - Py.len old_data)
      else (buf, total)
  end.

Definition write (data : bytes) (b : t) : t :=
  let buf := _buffer b ++ [data] in
  let total := _total_bytes b + Py.len data in
  let received := _total_received_bytes b + Py.len data in
  let '(buf', total') := evict (max_bytes b) buf total in
  with_received (with_data b buf' total') received.

(** The loop of [read] for a given byte count:
    [while remaining > 0 and self._buffer]. The result accumulates the
    pieces in order. *)
Fixpoint read_loop (buf : list bytes) (remaining total : Z) (result : list bytes)
  : list bytes * Z * list bytes :=
  match buf with
  | [] => ([], total, result)
  | chunk :: rest =>
      if remaining >? 0 then
        if Py.len chunk <=? remaining then
          read_loop rest (remaining - Py.len chunk) (total - Py.len chunk)
                    (result ++ [chunk])
        else
          (Py.slice_from remaining chunk :: rest, total - remaining,
           result ++ [Py.slice_to remaining chunk])
      else (buf, total, result)
  end.

Definition read (num_bytes : option Z) (b : t) : t * bytes :=
  match _buffer b with
  | [] => (b, [])
  | _ =>
      match num_bytes with
      | None => (with_data b [] 0, concat (_buffer b))
      | Some n =>
          let '(buf', total', result) := read_loop (_buffer b) n (_total_bytes b) [] in
          (with_data b buf' total', concat result)
      end
  end.

Definition peek (num_bytes : option Z) (b : t) : bytes :=
  match _buffer b with
  | [] => []
  | _ =>
      let data := concat (_buffer b) in
      match num_bytes with
      | None => data
      | Some n => Py.slice_to n data
      end
  end.

Definition read_seconds (seconds : Q) (b : t) : t * bytes :=
  let num_bytes := Py.int (seconds * inject_Z (bytes_per_second b))%Q in
  read (Some num_bytes) b.

Definition available_bytes (b : t) : Z := _total_bytes b.

Definition available_seconds (b : t) : outcome Q :=
  Py.truediv (available_bytes b) (bytes_per_second b).

Definition total_received_seconds (b : t) : outcome Q :=
  Py.truediv (_total_received_bytes b) (bytes_per_second b).

Definition clear (b : t) : t := with_data b [] 0.

Definition reset (b : t) : t := with_received (with_data b [] 0) 0.

(** The calls a client can make, and a run of them. *)
Inductive call : Type :=
| Write (data : bytes)
| Read (num_bytes : option Z)
| Peek (num_bytes : option Z)
| ReadSeconds (seconds : Q)
| Clear
| Reset.

Definition exec (c : call) (b : t) : t :=
  match c with
  | Write data => write data b
  | Read n => fst (read n b)
  | Peek _ => b
  | ReadSeconds s => fst (read_seconds s b)
  | Clear => clear b
  | Reset => reset b
  end.

Definition run (cs : list call) (b : t) : t :=
  fold_left (fun b c => exec c b) cs b.

Definition write_all (blocks : list bytes) (b : t) : t :=
  fold_left (fun b d => write d b) blocks b.

(** The byte counter agrees with the blocks held. *)
Definition consistent (b : t) : Prop :=
  _total_bytes b = Py.len (concat (_buffer b)).

(** A run of [read] calls and everything they returned, in order. *)
Fixpoint read_many (ns : list (option Z)) (b : t) : t * bytes :=
  match ns with
  | [] => (b, [])
  | n :: ns' =>
      let '(b1, d1) := read n b in
      let '(b2, d2) := read_many ns' b1 in
      (b2, d1 ++ d2)
  end.

(** The bytes held, oldest first. *)
Definition content (b : t) : bytes := concat (_buffer b).

(** The number of bytes written by the calls of a run after its last
    [reset()]. *)
Definition written_since_reset (cs : list call) : Z :=
  fold_left (fun acc c =>
               match c with
               | Write data => acc + Py.len data
               | Reset => 0
               | _ => acc
               end) cs 0.

End AudioBuffer.

(** ** config.py: the audio section of the configuration *)

Module Config.

Record AudioConfig : Type := {
  sample_rate : Z;
  channels : Z;
  chunk_duration : Z;
  overlap_duration : Q;
  buffer_size : Z
}.

(** The field defaults of [AudioConfig]. *)
Definition default : AudioConfig :=
  {| sample_rate := 16000;
     channels := 1;
     chunk_duration := 60;
     overlap_duration := 1 # 2;
     buffer_size := 1024 |}.

End Config.

(** Files of the chunk directory tree:
    [chunks_dir / str(meeting_id)] and, inside it, [chunk_{index:04d}.wav]. *)
Inductive Path : Type :=
| ChunksDir (meeting_id : Z)
| ChunkFile (meeting_id : Z) (index : Z).

(** ** audio/chunk_writer.py *)

Module ChunkWriter.

Record ChunkInfo : Type := {
  index : Z;
  file_path : Path;
  start_time : Q;              (* seconds from the start of the recording *)
  end_time : Q;
  start_datetime : option Q;   (* wall-clock instant of [start()] *)
  duration : Q
}.

(** [ChunkInfo.__init__] *)
Definition mkChunkInfo (index : Z) (file_path : Path) (start_time end_time : Q)
    (start_datetime : option Q) : ChunkInfo :=
  {| index := index;
     file_path := file_path;
     start_time := start_time;
     end_time := end_time;
     start_datetime := start_datetime;
     duration := (end_time - start_time)%Q |}.

(** One emitted segment: the frames handed to [_save_wav] and the
    [ChunkInfo] built for them (and passed to [on_chunk_ready] when a
    callback is registered). *)
Record emission : Type := {
  info : ChunkInfo;
  frames : bytes
}.

Record t : Type := mk {
  meeting_id : Z;
  sample_rate : Z;
  channels : Z;
  chunk_duration : Q;
  overlap_duration : Q;
  output_dir : Path;
  _buffer : AudioBuffer.t;
  _chunk_index : Z;
  _start_datetime : option Q;
  _is_running : bool;
  _overlap_data : bytes;
  bytes_per_second : Z
}.

(** [ChunkWriter.__init__]; an argument left out is [None]. *)
Definition init (config : Config.AudioConfig) (meeting_id : Z)
    (sample_rate channels : option Z) (chunk_duration overlap_duration : option Q) : t :=
  let sample_rate := Py.or_Z sample_rate (Config.sample_rate config) in
  let channels := Py.or_Z channels (Config.channels config) in
  let chunk_duration := Py.or_Q chunk_duration (inject_Z (Config.chunk_duration config)) in
  let overlap_duration := Py.or_Q overlap_duration (Config.overlap_duration config) in
  {| meeting_id := meeting_id;
     sample_rate := sample_rate;
     channels := channels;
     chunk_duration := chunk_duration;
     overlap_duration := overlap_duration;
     output_dir := ChunksDir meeting_id;
     _buffer := AudioBuffer.init (chunk_duration * 2)%Q sample_rate channels;
     _chunk_index := 0;
     _start_datetime := None;
     _is_running := false;
     _overlap_data := [];
     bytes_per_second := sample_rate * channels * 2 |}.

Definition with_buffer (w : t) (b : AudioBuffer.t) : t :=
  {| meeting_id := meeting_id w; sample_rate := sample_rate w;
     channels := channels w; chunk_duration := chunk_duration w;
     overlap_duration := overlap_duration w; output_dir := output_dir w;
     _buffer := b;
     _chunk_index := _chunk_index w; _start_datetime := _start_datetime w;
     _is_running := _is_running w; _overlap_data := _overlap_data w;
     bytes_per_second := bytes_per_second w |}.

Definition with_overlap_data (w : t) (d : bytes) : t :=
  {| meeting_id := meeting_id w; sample_rate := sample_rate w;
     channels := channels w; chunk_duration := chunk_duration w;
     overlap_duration := overlap_duration w; output_dir := output_dir w;
     _buffer := _buffer w;
     _chunk_index := _chunk_index w; _start_datetime := _start_datetime w;
     _is_running := _is_running w; _overlap_data := d;
     bytes_per_second := bytes_per_second w |}.

Definition with_chunk_index (w : t) (i : Z) : t :=
  {| meeting_id := meeting_id w; sample_rate := sample_rate w;
     channels := channels w; chunk_duration := chunk_duration w;
     overlap_duration := overlap_duration w; output_dir := output_dir w;
     _buffer := _buffer w;
     _chunk_index := i; _start_datetime := _start_datetime w;
     _is_running := _is_running w; _overlap_data := _overlap_data w;
     bytes_per_second := bytes_per_second w |}.

Definition with_is_running (w : t) (r : bool) : t :=
  {| meeting_id := meeting_id w; sample_rate := sample_rate w;
     channels := channels w; chunk_duration := chunk_duration w;
     overlap_duration := overlap_duration w; output_dir := output_dir w;
     _buffer := _buffer w;
     _chunk_index := _chunk_index w; _start_datetime := _start_datetime w;
     _is_running := r; _overlap_data := _overlap_data w;
     bytes_per_second := bytes_per_second w |}.

(** [ChunkWriter.start]; [now] is the reading of [datetime.now()]. *)
Definition start (now : Q) (w : t) : t :=
  {| meeting_id := meeting_id w; sample_rate := sample_rate w;
     channels := channels w; chunk_duration := chunk_duration w;
     overlap_duration := overlap_duration w; output_dir := output_dir w;
     _buffer := AudioBuffer.reset (_buffer w);
     _chunk_index := 0; _start_datetime := Some now;
     _is_running := true; _overlap_data := [];
     bytes_per_second := bytes_per_second w |}.

(** The time stamps shared by [_save_chunk] and [stop]: the start time
    before clamping, and the end time computed from it. *)
Definition raw_start_time (w : t) : Q :=
  let start_time := (inject_Z (_chunk_index w) * chunk_duration w)%Q in
  if _chunk_index w >? 0 then (start_time - overlap_duration w)%Q else start_time.

Definition build_chunk (w : t) (data : bytes) : outcome emission :=
  let start_time := raw_start_time w in
  match Py.truediv (Py.len data) (bytes_per_second w) with
  | Raised e => Raised e
  | Returned secs =>
      let end_time := (start_time + secs)%Q in
      let file_path := ChunkFile (meeting_id w) (_chunk_index w) in
      Returned {| info := mkChunkInfo (_chunk_index w) file_path
                            (Py.max 0 start_time) end_time (_start_datetime w);
                  frames := data |}
  end.

(** [ChunkWriter._save_chunk]. The file write of [_save_wav] is taken to
    succeed; an exception of the callback is caught by the method, so the
    callback cannot change the outcome. *)
Definition _save_chunk (w : t) : t * outcome (option emission) :=
  if negb (_is_running w) then (w, Returned None)
  else
    let chunk_bytes := Py.int (chunk_duration w * inject_Z (bytes_per_second w))%Q in
    let '(buf, data) := AudioBuffer.read (Some chunk_bytes) (_buffer w) in
    let w := with_buffer w buf in
    match data with
    | [] => (w, Returned None)
    | _ =>
        let data := match _overlap_data w with
                    | [] => data
                    | _ => _overlap_data w ++ data
                    end in
        let overlap_bytes :=
          Py.int (overlap_duration w * inject_Z (bytes_per_second w))%Q in
        let w := if Py.len data >? overlap_bytes
                 then with_overlap_data w (Py.slice_from (- overlap_bytes) data)
                 else with_overlap_data w data in
        match build_chunk w data with
        | Raised e => (w, Raised e)
        | Returned em =>
            (with_chunk_index w (_chunk_index w + 1), Returned (Some em))
        end
    end.

(** [ChunkWriter.write] *)
Definition write (data : bytes) (w : t) : t * outcome (option emission) :=
  if negb (_is_running w) then (w, Returned None)
  else
    let w := with_buffer w (AudioBuffer.write data (_buffer w)) in
    match AudioBuffer.available_seconds (_buffer w) with
    | Raised e => (w, Raised e)
    | Returned secs =>
        if Qle_bool (chunk_duration w) secs then _save_chunk w
        else (w, Returned None)
    end.

(** [ChunkWriter.stop]; the value returned by the method is the [info]
    of the emission. *)
Definition stop (w : t) : t * outcome (option emission) :=
  if negb (_is_running w) then (w, Returned None)
  else
    let w := with_is_running w false in
    let '(buf, remaining_data) := AudioBuffer.read None (_buffer w) in
    let w := with_buffer w buf in
    match remaining_data with
    | [] => (w, Returned None)
    | _ =>
        let remaining_data := match _overlap_data w with
                              | [] => remaining_data
                              | _ => _overlap_data w ++ remaining_data
                              end in
        match build_chunk w remaining_data with
        | Raised e => (w, Raised e)
        | Returned em => (w, Returned (Some em))
        end
    end.

Definition get_chunk_count (w : t) : Z := _chunk_index w.

Definition get_total_duration (w : t) : outcome Q :=
  AudioBuffer.total_received_seconds (_buffer w).

Definition get_output_dir (w : t) : Path := output_dir w.

(** Runs of client calls, with the log of what each call did. *)
Inductive call : Type :=
| Start (now : Q)
| Write (data : bytes)
| Stop.

Inductive event : Type :=
| Segment (e : emission)        (* emitted by [write] *)
| FinalSegment (e : emission)   (* emitted by [stop] *)
| Exception (e : Py.exn).

Definition log_of (final : bool) (r : outcome (option emission)) : list event :=
  match r with
  | Returned None => []
  | Returned (Some e) => [if final then FinalSegment e else Segment e]
  | Raised e => [Exception e]
  end.

Definition exec (c : call) (w : t) : t * list event :=
  match c with
  | Start now => (start now w, [])
  | Write data => let '(w', r) := write data w in (w', log_of false r)
  | Stop => let '(w', r) := stop w in (w', log_of true r)
  end.

Fixpoint run (cs : list call) (w : t) : t * list event :=
  match cs with
  | [] => (w, [])
  | c :: cs' =>
      let '(w1, l1) := exec c w in
      let '(w2, l2) := run cs' w1 in
      (w2, l1 ++ l2)
  end.

Definition is_segment (e : event) : bool :=
  match e with Segment _ => true | _ => false end.

Definition is_exception (e : event) : bool :=
  match e with Exception _ => true | _ => false end.

Definition emission_of (e : event) : option emission :=
  match e with
  | Segment em | FinalSegment em => Some em
  | Exception _ => None
  end.

(** The time stamps a segment with index [i] is meant to carry under
    segment duration [D], overlap [O] and byte rate [rate]: the start is
    [i * D - O] clamped below at 0, the end is the start plus the length
    of the frames in seconds. *)
Definition well_timed (D O : Q) (rate : Z) (em : emission) : Prop :=
  let i := index (info em) in
  0 <= i
  /\ (start_time (info em) == Py.max 0 (inject_Z i * D - O))%Q
  /\ (i = 0 -> (start_time (info em) == 0)%Q)
  /\ rate <> 0
  /\ (end_time (info em)
      == start_time (info em) + inject_Z (Py.len (frames em)) / inject_Z rate)%Q.

(** The fields that only [__init__] sets. *)
Definition same_settings (w w' : t) : Prop :=
  chunk_duration w' = chunk_duration w
  /\ overlap_duration w' = overlap_duration w
  /\ bytes_per_second w' = bytes_per_second w
  /\ meeting_id w' = meeting_id w.

(** What one method call guarantees about the segment it may emit. *)
Definition step_ok (w w' : t) (r : outcome (option emission)) : Prop :=
  same_settings w w'
  /\ 0 <= _chunk_index w'
  /\ forall em, r = Returned (Some em) ->
       well_timed (chunk_duration w) (overlap_duration w) (bytes_per_second w) em.

(** Every segment in a log carries the time stamps of its index. *)
Definition log_ok (w : t) (log : list event) : Prop :=
  forall ev em, In ev log -> emission_of ev = Some em ->
    well_timed (chunk_duration w) (overlap_duration w) (bytes_per_second w) em.

(** A running segmenter for a segment duration of [d] whole seconds and
    a byte rate [B], with [avail] bytes waiting in its buffer and [idx]
    segments emitted. *)
Definition running (d B avail idx : Z) (w : t) : Prop :=
  _is_running w = true
  /\ chunk_duration w = inject_Z d
  /\ bytes_per_second w = B
  /\ AudioBuffer.bytes_per_second (_buffer w) = B
  /\ AudioBuffer.max_bytes (_buffer w) = 2 * (d * B)
  /\ AudioBuffer.consistent (_buffer w)
  /\ AudioBuffer._total_bytes (_buffer w) = avail
  /\ _chunk_index w = idx.

(** The state of a running segmenter that has received [L] bytes in
    blocks of at most one segment each: fewer than a segment's worth of
    bytes wait in the buffer, and the whole segments have been emitted. *)
Definition streaming (d B L : Z) (w : t) : Prop :=
  running d B (L mod (d * B)) (L / (d * B)) w.

(** No call of the run raised. *)
Definition no_exception (log : list event) : bool :=
  forallb (fun e => negb (is_exception e)) log.

(** The number of segments that were not produced by [stop]. *)
Definition non_final_count (l : list event) : Z :=
  Py.len (List.filter is_segment l).

(** [int(self.overlap_duration * self.bytes_per_second)] *)
Definition overlap_bytes (w : t) : Z :=
  Py.int (overlap_duration w * inject_Z (bytes_per_second w))%Q.

(** What [_save_chunk] keeps of the frames it has just emitted, to be put
    in front of the next segment. *)
Definition carried_overlap (ob : Z) (frames : bytes) : bytes :=
  if Py.len frames >? ob then Py.slice_from (- ob) frames else frames.

Definition not_start (c : call) : bool :=
  match c with Start _ => false | _ => true end.

(** The segments of a log, in the order emitted. *)
Definition emissions (log : list event) : list emission := omap emission_of log.

(** The buffer of the segmenter agrees with the segmenter on the byte rate
    and counts its bytes correctly. *)
Definition coherent (w : t) : Prop :=
  AudioBuffer.bytes_per_second (_buffer w) = bytes_per_second w
  /\ AudioBuffer.consistent (_buffer w).

(** Segment [em] was cut in state [w]: it carries the index of [w] and its
    frames are the overlap carried by [w] followed by the bytes [fresh]
    taken from the buffer. *)
Definition cut_from (w : t) (em : emission) (fresh : bytes) : Prop :=
  fresh <> []
  /\ frames em = _overlap_data w ++ fresh
  /\ index (info em) = _chunk_index w
  /\ file_path (info em) = ChunkFile (meeting_id w) (_chunk_index w).

(** Each segment of the sequence starts with the overlap carried from the
    one before it ([carried] for the first) and goes on with new bytes. *)
Fixpoint chained (ob : Z) (carried : bytes) (ems : list emission) : Prop :=
  match ems with
  | [] => True
  | em :: rest =>
      (exists fresh, fresh <> [] /\ frames em = carried ++ fresh)
      /\ chained ob (carried_overlap ob (frames em)) rest
  end.

(** The new bytes of each segment: its frames without the carried overlap. *)
Fixpoint payloads (ob : Z) (carried : bytes) (ems : list emission) : list bytes :=
  match ems with
  | [] => []
  | em :: rest =>
      skipn (length carried) (frames em)
      :: payloads ob (carried_overlap ob (frames em)) rest
  end.

(** The overlap carried after a sequence of segments, [carried] being the
    one carried before it. *)
Definition last_carried (ob : Z) (carried : bytes) (ems : list emission) : bytes :=
  fold_left (fun _ em => carried_overlap ob (frames em)) ems carried.

(** The indices [i, i + 1, ..., i + n - 1]. *)
Definition indices_from (i : Z) (n : nat) : list Z :=
  List.map (fun k => i + Z.of_nat k) (seq 0 n).

End ChunkWriter.

(** ** asr/base.py: transcript data *)

Module Asr.

(** A character of a [str]: its Unicode code point. *)
Definition char := N.
Definition text := list char.

(** The [str] of an ASCII literal. *)
Definition text_of (s : string) : text :=
  List.map N_of_ascii (list_ascii_of_string s).

Record TranscriptSegment : Type := {
  start_time : Q;
  end_time : Q;
  text_ : text;
  speaker_id : option string;
  confidence : option Q
}.

Record TranscriptResult : Type := {
  segments : list TranscriptSegment;
  full_text : text;
  duration : Q;
  language : option string
}.

(** [TranscriptSegment(start, end, text)] with the optional fields left out. *)
Definition span (s e : Q) (t : string) : TranscriptSegment :=
  {| start_time := s; end_time := e; text_ := text_of t;
     speaker_id := None; confidence := None |}.

End Asr.

(** ** asr/transcript_merger.py *)

Module TranscriptMerger.

Import Asr.

Record t : Type := mk {
  overlap_threshold : Q;
  _segments : list TranscriptSegment
}.

(** [TranscriptMerger.__init__]; the default threshold is 0.5. *)
Definition default_overlap_threshold : Q := 1 # 2.

Definition init (overlap_threshold : Q) : t :=
  {| overlap_threshold := overlap_threshold; _segments := [] |}.

Definition _calculate_time_overlap (seg1 seg2 : TranscriptSegment) : Q :=
  let overlap_start := Py.max (start_time seg1) (start_time seg2) in
  let overlap_end := Py.min (end_time seg1) (end_time seg2) in
  Py.max 0 (overlap_end - overlap_start)%Q.

(** [s.replace(" ", "").replace("\n", "")] *)
Definition strip_blanks (s : text) : text :=
  List.filter (fun c => negb (c =? 10)%N)
    (List.filter (fun c => negb (c =? 32)%N) s).

Definition is_empty {A} (l : list A) : bool :=
  match l with [] => true | _ => false end.

Definition _calculate_text_similarity (text1 text2 : text) : Q :=
  if is_empty text1 || is_empty text2 then 0%Q
  else
    let text1 := strip_blanks text1 in
    let text2 := strip_blanks text2 in
    if is_empty text1 || is_empty text2 then 0%Q
    else
      let set1 : gset N := list_to_set text1 in
      let set2 : gset N := list_to_set text2 in
      let intersection := Z.of_nat (size (set1 ∩ set2)) in
      let union := Z.of_nat (size (set1 ∪ set2)) in
      if union =? 0 then 0%Q
      else (inject_Z intersection / inject_Z union)%Q.

(** The look-back loop of [_add_segment]: [candidates] are the existing
    segments in the order the loop visits them (newest first); the loop
    breaks at the first duplicate. *)
Fixpoint is_duplicate_of (threshold : Q) (candidates : list TranscriptSegment)
    (new_segment : TranscriptSegment) : bool :=
  match candidates with
  | [] => false
  | existing :: rest =>
      let time_overlap := _calculate_time_overlap existing new_segment in
      if Py.Qltb threshold time_overlap then
        let text_similarity :=
          _calculate_text_similarity (text_ existing) (text_ new_segment) in
        if Py.Qltb (7 # 10) text_similarity then true
        else is_duplicate_of threshold rest new_segment
      else is_duplicate_of threshold rest new_segment
  end.

(** [self._segments[-(i + 1)] for i in range(min(5, len(self._segments)))] *)
Definition lookback (segs : list TranscriptSegment) : list TranscriptSegment :=
  firstn 5 (rev segs).

Definition _add_segment (new_segment : TranscriptSegment) (m : t) : t :=
  match _segments m with
  | [] => {| overlap_threshold := overlap_threshold m;
             _segments := [new_segment] |}
  | _ =>
      let is_duplicate :=
        is_duplicate_of (overlap_threshold m) (lookback (_segments m)) new_segment in
      if negb is_duplicate then
        {| overlap_threshold := overlap_threshold m;
           _segments := _segments m ++ [new_segment] |}
      else m
  end.

Definition add_result (result : TranscriptResult) (m : t) : t :=
  fold_left (fun m s => _add_segment s m) (segments result) m.

(** [sorted(xs, key=lambda s: s.start_time)]: a stable sort. An element
    is placed in front of the already sorted rest of the list unless an
    element of the rest has a strictly smaller key. *)
Fixpoint insert_by_start (x : TranscriptSegment) (l : list TranscriptSegment)
  : list TranscriptSegment :=
  match l with
  | [] => [x]
  | y :: l' =>
      if Py.Qltb (start_time y) (start_time x) then y :: insert_by_start x l'
      else x :: l
  end.

Fixpoint sorted_by_start (l : list TranscriptSegment) : list TranscriptSegment :=
  match l with
  | [] => []
  | x :: l' => insert_by_start x (sorted_by_start l')
  end.

(** [sorted_segments[-1].end_time - sorted_segments[0].start_time] *)
Definition span_of (sorted_segments : list TranscriptSegment) : Q :=
  match sorted_segments, List.last (List.map Some sorted_segments) None with
  | first :: _, Some last_ => (end_time last_ - start_time first)%Q
  | _, _ => 0%Q
  end.

Definition get_merged_result (m : t) : TranscriptResult :=
  let sorted_segments := sorted_by_start (_segments m) in
  let full_text_parts := List.map text_ sorted_segments in
  let full_text := concat full_text_parts in
  let duration := span_of sorted_segments in
  {| segments := sorted_segments;
     full_text := full_text;
     duration := duration;
     language := Some "zh-CN"%string |}.

Definition get_segments (m : t) : list TranscriptSegment :=
  sorted_by_start (_segments m).

Definition clear (m : t) : t :=
  {| overlap_threshold := overlap_threshold m; _segments := [] |}.

Definition segment_count (m : t) : Z := Py.len (_segments m).

(** The result of a recognition call that found one span. *)
Definition single (s : TranscriptSegment) : TranscriptResult :=
  {| segments := [s]; full_text := text_ s;
     duration := (end_time s - start_time s)%Q; language := None |}.

(** Order of the start times, and the test for a given start time. *)
Definition by_start (a b : TranscriptSegment) : Prop :=
  (start_time a <= start_time b)%Q.

Definition starts_at (k : Q) (s : TranscriptSegment) : bool :=
  Qeq_bool (start_time s) k.

(** [merge_transcripts] *)
Definition merge_transcripts (results : list TranscriptResult) (overlap_threshold : Q)
  : TranscriptResult :=
  get_merged_result
    (fold_left (fun m r => add_result r m) results (init overlap_threshold)).


(** [segment.speaker_id or "Unknown"]: [None] and the empty string are
    falsy. *)
Definition speaker_or_unknown (s : TranscriptSegment) : string :=
  match speaker_id s with
  | None => "Unknown"
  | Some EmptyString => "Unknown"
  | Some speaker => speaker
  end.

(** The first loop of [get_segments_by_speaker]: each segment is appended
    to the list of its speaker, which is created when the speaker is new. *)
Definition group_by_speaker (segs : list TranscriptSegment)
  : gmap string (list TranscriptSegment) :=
  fold_left
    (fun result segment =>
       let speaker := speaker_or_unknown segment in
       let result := match result !! speaker with
                     | None => <[speaker := []]> result
                     | Some _ => result
                     end in
       <[speaker := default [] (result !! speaker) ++ [segment]]> result)
    segs ∅.

(** [get_segments_by_speaker]; [list.sort] is the same stable sort as
    [sorted]. *)
Definition get_segments_by_speaker (m : t) : gmap string (list TranscriptSegment) :=
  sorted_by_start <$> group_by_speaker (_segments m).

(** The test of the look-back loop for one stored segment. *)
Definition duplicates (threshold : Q) (existing new_segment : TranscriptSegment) : Prop :=
  (threshold < _calculate_time_overlap existing new_segment)%Q
  /\ (7 # 10 < _calculate_text_similarity (text_ existing) (text_ new_segment))%Q.

(** The segments whose speaker key is [speaker], in stored order. *)
Definition spoken_by (speaker : string) (segs : list TranscriptSegment)
  : list TranscriptSegment :=
  List.filter (fun s => String.eqb (speaker_or_unknown s) speaker) segs.

End TranscriptMerger.


(** ** db/models.py and db/repositories.py

    The tables are kept in memory. The clock columns ([created_at],
    [updated_at], [started_at], [ended_at]) and the generated row
    identifiers of the list-like tables are left out.

    The engine is opened with [PRAGMA foreign_keys=ON] and the columns
    [meeting_id] of the three list-like tables are foreign keys to
    [meetings.id]: an insert for a meeting that has no row raises, and the
    session is rolled back. *)

Module Db.

Record Meeting : Type := {
  id : Z;
  title : string;
  status : string;
  user_perspective : string;
  custom_perspective : option string;
  output_style : string;
  participants : option string;
  audio_path : option Path;
  m_duration : option Q;
  summary : option string;
  decisions_json : option string;
  action_items_json : option string;
  topics_json : option string
}.

Record Transcript : Type := {
  t_meeting_id : Z;
  t_start_time : Q;
  t_end_time : Q;
  t_speaker_id : option string;
  t_text : Asr.text;
  t_confidence : option Q;
  t_chunk_index : option Z
}.

Record Note : Type := {
  n_meeting_id : Z;
  time_offset : Q;
  content : string;
  tag : string
}.

Record AudioChunk : Type := {
  c_meeting_id : Z;
  chunk_index : Z;
  c_file_path : Path;
  c_start_time : Q;
  c_end_time : Q;
  c_status : string
}.

Record t : Type := {
  meetings : gmap Z Meeting;
  transcripts : list Transcript;
  notes : list Note;
  audio_chunks : list AudioChunk
}.

Definition with_meetings (d : t) (ms : gmap Z Meeting) : t :=
  {| meetings := ms; transcripts := transcripts d;
     notes := notes d; audio_chunks := audio_chunks d |}.

Definition with_transcripts (d : t) (ts : list Transcript) : t :=
  {| meetings := meetings d; transcripts := ts;
     notes := notes d; audio_chunks := audio_chunks d |}.

Definition with_audio_chunks (d : t) (cs : list AudioChunk) : t :=
  {| meetings := meetings d; transcripts := transcripts d;
     notes := notes d; audio_chunks := cs |}.

(** [MeetingRepository.get_by_id] *)
Definition get_by_id (meeting_id : Z) (d : t) : option Meeting :=
  meetings d !! meeting_id.

(** [MeetingRepository.update]: the row is changed only if it exists. *)
Definition update (meeting_id : Z) (f : Meeting -> Meeting) (d : t) : t :=
  with_meetings d (alter f meeting_id (meetings d)).

Definition set_status (s : string) (m : Meeting) : Meeting :=
  {| id := id m; title := title m; status := s;
     user_perspective := user_perspective m;
     custom_perspective := custom_perspective m;
     output_style := output_style m; participants := participants m;
     audio_path := audio_path m; m_duration := m_duration m;
     summary := summary m; decisions_json := decisions_json m;
     action_items_json := action_items_json m; topics_json := topics_json m |}.

Definition set_audio_path (p : Path) (m : Meeting) : Meeting :=
  {| id := id m; title := title m; status := status m;
     user_perspective := user_perspective m;
     custom_perspective := custom_perspective m;
     output_style := output_style m; participants := participants m;
     audio_path := Some p; m_duration := m_duration m;
     summary := summary m; decisions_json := decisions_json m;
     action_items_json := action_items_json m; topics_json := topics_json m |}.

Definition set_duration (q : Q) (m : Meeting) : Meeting :=
  {| id := id m; title := title m; status := status m;
     user_perspective := user_perspective m;
     custom_perspective := custom_perspective m;
     output_style := output_style m; participants := participants m;
     audio_path := audio_path m; m_duration := Some q;
     summary := summary m; decisions_json := decisions_json m;
     action_items_json := action_items_json m; topics_json := topics_json m |}.

Definition set_minutes (s d a tp : string) (m : Meeting) : Meeting :=
  {| id := id m; title := title m; status := status m;
     user_perspective := user_perspective m;
     custom_perspective := custom_perspective m;
     output_style := output_style m; participants := participants m;
     audio_path := audio_path m; m_duration := m_duration m;
     summary := Some s; decisions_json := Some d;
     action_items_json := Some a; topics_json := Some tp |}.

(** [MeetingRepository.update_status] *)
Definition update_status (meeting_id : Z) (s : string) (d : t) : t :=
  update meeting_id (set_status s) d.

(** [MeetingRepository.start_recording] *)
Definition start_recording (meeting_id : Z) (p : Path) (d : t) : t :=
  update meeting_id (fun m => set_audio_path p (set_status "recording" m)) d.

(** [MeetingRepository.stop_recording] *)
Definition stop_recording (meeting_id : Z) (q : Q) (d : t) : t :=
  update meeting_id (fun m => set_duration q (set_status "processing" m)) d.

(** [MeetingRepository.save_minutes] *)
Definition save_minutes (meeting_id : Z) (s dj aj tj : string) (d : t) : t :=
  update meeting_id (fun m => set_minutes s dj aj tj (set_status "done" m)) d.

(** [AudioChunkRepository.create] *)
Definition create_chunk (meeting_id index : Z) (p : Path) (s e : Q) (d : t)
  : outcome t :=
  match meetings d !! meeting_id with
  | Some _ =>
      Returned
        (with_audio_chunks d
           (audio_chunks d ++
            [{| c_meeting_id := meeting_id; chunk_index := index; c_file_path := p;
                c_start_time := s; c_end_time := e; c_status := "pending" |}]))
  | None => Raised Py.IntegrityError
  end.

(** [AudioChunkRepository.get_by_meeting], as a selection; the callers
    modelled here look only at whether it is empty. *)
Definition chunks_by_meeting (meeting_id : Z) (d : t) : list AudioChunk :=
  List.filter (fun c => c_meeting_id c =? meeting_id) (audio_chunks d).

(** [NoteRepository.get_by_meeting], as a selection. *)
Definition notes_by_meeting (meeting_id : Z) (d : t) : list Note :=
  List.filter (fun n => n_meeting_id n =? meeting_id) (notes d).

(** [TranscriptRepository.delete_by_meeting] *)
Definition delete_transcripts (meeting_id : Z) (d : t) : t :=
  with_transcripts d
    (List.filter (fun r => negb (t_meeting_id r =? meeting_id)) (transcripts d)).

(** The meeting that a transcript row refers to has a row. *)
Definition refers_to_a_meeting (d : t) (r : Transcript) : bool :=
  match meetings d !! t_meeting_id r with
  | Some _ => true
  | None => false
  end.

(** [TranscriptRepository.create_batch]: all the rows are added in one
    session, so either all of them are stored or none. *)
Definition create_batch (rows : list Transcript) (d : t) : outcome t :=
  if forallb (refers_to_a_meeting d) rows
  then Returned (with_transcripts d (transcripts d ++ rows))
  else Raised Py.IntegrityError.

End Db.

(** ** core/recording_engine.py *)

Module RecordingEngine.

Inductive RecordingState : Type :=
| IDLE | STARTING | RECORDING | STOPPING | STOPPED.

Definition state_eqb (a b : RecordingState) : bool :=
  match a, b with
  | IDLE, IDLE | STARTING, STARTING | RECORDING, RECORDING
  | STOPPING, STOPPING | STOPPED, STOPPED => true
  | _, _ => false
  end.

(** The capture source, as far as the engine sees it. *)
Record Capture : Type := { is_running : bool }.

Record t : Type := mk {
  _state : RecordingState;
  _capture : option Capture;
  _chunk_writer : option ChunkWriter.t;
  _meeting_id : option Z;
  _start_time : option Q
}.

(** What the engine does to the outside: the database, and the calls of
    the registered callbacks, oldest first. *)
Inductive event : Type :=
| StateChanged (s : RecordingState)
| ChunkReady (c : ChunkWriter.ChunkInfo)
| Error (e : Py.exn).

Record world : Type := {
  db : Db.t;
  events : list event
}.

Definition emit (ev : event) (w : world) : world :=
  {| db := db w; events := events w ++ [ev] |}.

Definition on_db (f : Db.t -> Db.t) (w : world) : world :=
  {| db := f (db w); events := events w |}.

(** [RecordingEngine.__init__] *)
Definition init : t :=
  {| _state := IDLE; _capture := None; _chunk_writer := None;
     _meeting_id := None; _start_time := None |}.

Definition state (e : t) : RecordingState := _state e.
Definition is_recording (e : t) : bool := state_eqb (_state e) RECORDING.

Definition _set_state (s : RecordingState) (e : t) (w : world) : t * world :=
  ({| _state := s; _capture := _capture e; _chunk_writer := _chunk_writer e;
      _meeting_id := _meeting_id e; _start_time := _start_time e |},
   emit (StateChanged s) w).

(** [if self._meeting_id:] is false for [None] and for [0]. *)
Definition truthy_id (m : option Z) : option Z :=
  match m with
  | Some i => if i =? 0 then None else Some i
  | None => None
  end.

(** [RecordingEngine._handle_chunk_ready]. The insert is not guarded: when
    it raises, the external callback is not called and the exception
    leaves the method. *)
Definition _handle_chunk_ready (c : ChunkWriter.ChunkInfo) (e : t) (w : world)
  : world * outcome unit :=
  match truthy_id (_meeting_id e) with
  | Some mid =>
      match Db.create_chunk mid (ChunkWriter.index c)
              (ChunkWriter.file_path c) (ChunkWriter.start_time c)
              (ChunkWriter.end_time c) (db w) with
      | Returned d =>
          (emit (ChunkReady c) {| db := d; events := events w |}, Returned tt)
      | Raised x => (w, Raised x)
      end
  | None => (emit (ChunkReady c) w, Returned tt)
  end.

(** The segmenter calls [_handle_chunk_ready] with each segment it emits,
    inside a [try] that catches (and logs) whatever the call raises. *)
Definition deliver (r : outcome (option ChunkWriter.emission)) (e : t) (w : world) : world :=
  match r with
  | Returned (Some em) => fst (_handle_chunk_ready (ChunkWriter.info em) e w)
  | _ => w
  end.

Definition with_chunk_writer (e : t) (cw : option ChunkWriter.t) : t :=
  {| _state := _state e; _capture := _capture e; _chunk_writer := cw;
     _meeting_id := _meeting_id e; _start_time := _start_time e |}.

(** [RecordingEngine._handle_audio_data] *)
Definition _handle_audio_data (data : bytes) (e : t) (w : world)
  : t * world * outcome unit :=
  match _chunk_writer e with
  | Some cw =>
      if state_eqb (_state e) RECORDING then
        let '(cw', r) := ChunkWriter.write data cw in
        let e' := with_chunk_writer e (Some cw') in
        (e', deliver r e' w,
         match r with Raised x => Raised x | Returned _ => Returned tt end)
      else (e, w, Returned tt)
  | None => (e, w, Returned tt)
  end.

(** [RecordingEngine._cleanup] *)
Definition _cleanup (e : t) : t :=
  {| _state := _state e; _capture := None; _chunk_writer := None;
     _meeting_id := _meeting_id e; _start_time := _start_time e |}.

(** [RecordingEngine.start]. [capture_ok] is what the capture source's
    [start()] returns; [now_writer] and [now] are the two clock readings. *)
Definition start (config : Config.AudioConfig) (capture_ok : bool)
    (now_writer now : Q) (meeting_id : Z) (e : t) (w : world) : t * world * bool :=
  if negb (state_eqb (_state e) IDLE) then (e, w, false)
  else
    let '(e, w) := _set_state STARTING e w in
    let e := {| _state := _state e; _capture := _capture e;
                _chunk_writer := _chunk_writer e;
                _meeting_id := Some meeting_id; _start_time := _start_time e |} in
    let cw := ChunkWriter.start now_writer
                (ChunkWriter.init config meeting_id None None None None) in
    let e := with_chunk_writer e (Some cw) in
    let e := {| _state := _state e; _capture := Some {| is_running := capture_ok |};
                _chunk_writer := _chunk_writer e;
                _meeting_id := _meeting_id e; _start_time := _start_time e |} in
    if capture_ok then
      let e := {| _state := _state e; _capture := _capture e;
                  _chunk_writer := _chunk_writer e;
                  _meeting_id := _meeting_id e; _start_time := Some now |} in
      let w := on_db (Db.start_recording meeting_id (ChunkWriter.get_output_dir cw)) w in
      let '(e, w) := _set_state RECORDING e w in
      (e, w, true)
    else
      let e := _cleanup e in
      let '(e, w) := _set_state IDLE e w in
      (e, emit (Error (Py.RuntimeError "无法启动音频采集")) w, false).

(** The [try] block of [stop]: the duration found so far, and the
    exception if one was raised. *)
Definition stop_body (e : t) (w : world) : t * world * Q * option Py.exn :=
  let e := match _capture e with
           | Some _ => {| _state := _state e;
                          _capture := Some {| is_running := false |};
                          _chunk_writer := _chunk_writer e;
                          _meeting_id := _meeting_id e;
                          _start_time := _start_time e |}
           | None => e
           end in
  match _chunk_writer e with
  | Some cw =>
      let '(cw', r) := ChunkWriter.stop cw in
      let e := with_chunk_writer e (Some cw') in
      let w := deliver r e w in
      match r with
      | Raised x => (e, w, 0%Q, Some x)
      | Returned _ =>
          match ChunkWriter.get_total_duration cw' with
          | Raised x => (e, w, 0%Q, Some x)
          | Returned duration =>
              let w := match truthy_id (_meeting_id e) with
                       | Some mid => on_db (Db.stop_recording mid duration) w
                       | None => w
                       end in
              (e, w, duration, None)
          end
      end
  | None =>
      let w := match truthy_id (_meeting_id e) with
               | Some mid => on_db (Db.stop_recording mid 0) w
               | None => w
               end in
      (e, w, 0%Q, None)
  end.

(** [RecordingEngine.stop] *)
Definition stop (e : t) (w : world) : t * world * Q :=
  if negb (state_eqb (_state e) RECORDING) then (e, w, 0%Q)
  else
    let '(e, w) := _set_state STOPPING e w in
    let '(e, w, duration, raised) := stop_body e w in
    let w := match raised with
             | Some x => emit (Error x) w
             | None => w
             end in
    let e := _cleanup e in
    let '(e, w) := _set_state STOPPED e w in
    (e, w, duration).

(** [RecordingEngine.reset] *)
Definition reset (e : t) (w : world) : t * world :=
  if state_eqb (_state e) RECORDING then (e, w)
  else
    let e := _cleanup e in
    let e := {| _state := _state e; _capture := _capture e;
                _chunk_writer := _chunk_writer e;
                _meeting_id := None; _start_time := None |} in
    _set_state IDLE e w.

(** [RecordingEngine.get_elapsed_seconds]; [now] is the clock reading. *)
Definition get_elapsed_seconds (now : Q) (e : t) : outcome Q :=
  match _start_time e, state_eqb (_state e) RECORDING with
  | Some t0, true => Returned (now - t0)%Q
  | _, _ =>
      match _chunk_writer e with
      | Some cw => ChunkWriter.get_total_duration cw
      | None => Returned 0%Q
      end
  end.

Definition get_chunk_count (e : t) : Z :=
  match _chunk_writer e with
  | Some cw => ChunkWriter.get_chunk_count cw
  | None => 0
  end.

(** The calls made on an engine from outside, with what the environment
    answers, and a run of them. *)
Inductive call : Type :=
| Start (capture_ok : bool) (now_writer now : Q) (meeting_id : Z)
| Audio (data : bytes)        (* the capture source delivers a block *)
| Stop
| Reset.

Definition exec (config : Config.AudioConfig) (c : call) (e : t) (w : world)
  : t * world :=
  match c with
  | Start ok now_writer now mid => fst (start config ok now_writer now mid e w)
  | Audio data => fst (_handle_audio_data data e w)
  | Stop => fst (stop e w)
  | Reset => reset e w
  end.

Fixpoint run (config : Config.AudioConfig) (cs : list call) (e : t) (w : world)
  : t * world :=
  match cs with
  | [] => (e, w)
  | c :: cs' => let '(e', w') := exec config c e w in run config cs' e' w'
  end.

(** What holds of an engine between two calls. *)
Definition settled (e : t) : Prop :=
  match _state e with
  | RECORDING => _start_time e <> None /\ _chunk_writer e <> None
  | IDLE | STOPPED => _chunk_writer e = None
  | STARTING | STOPPING => False
  end.

Definition empty_world : world :=
  {| db := {| Db.meetings := ∅; Db.transcripts := []; Db.notes := [];
              Db.audio_chunks := [] |};
     events := [] |}.


(** The moves of the state machine that the methods make. *)
Definition transition (a b : RecordingState) : bool :=
  match a, b with
  | IDLE, STARTING | STARTING, RECORDING | STARTING, IDLE
  | RECORDING, STOPPING | STOPPING, STOPPED
  | STOPPED, IDLE | IDLE, IDLE => true
  | _, _ => false
  end.

(** [l] is a sequence of moves of the machine that starts in [from]. *)
Fixpoint follows (from : RecordingState) (l : list RecordingState) : bool :=
  match l with
  | [] => true
  | s :: l' => transition from s && follows s l'
  end.

(** The states passed to the state callback, and the segments passed to
    the chunk callback, oldest first. *)
Definition notified (evs : list event) : list RecordingState :=
  omap (fun ev => match ev with StateChanged s => Some s | _ => None end) evs.

Definition ready_chunks (evs : list event) : list ChunkWriter.ChunkInfo :=
  omap (fun ev => match ev with ChunkReady c => Some c | _ => None end) evs.

(** The row that [_handle_chunk_ready] stores for a segment. *)
Definition row_of_chunk (meeting_id : Z) (c : ChunkWriter.ChunkInfo) : Db.AudioChunk :=
  {| Db.c_meeting_id := meeting_id; Db.chunk_index := ChunkWriter.index c;
     Db.c_file_path := ChunkWriter.file_path c;
     Db.c_start_time := ChunkWriter.start_time c;
     Db.c_end_time := ChunkWriter.end_time c; Db.c_status := "pending" |}.

(** Every [start] of a run is for the meeting [meeting_id]. *)
Definition for_meeting (meeting_id : Z) (c : call) : Prop :=
  match c with
  | Start _ _ _ mid => mid = meeting_id
  | _ => True
  end.

(** An engine that records for meeting [mid] through a running segmenter
    of byte rate [B] that has received [n] bytes. *)
Definition recording_for (mid B n : Z) (e : t) : Prop :=
  _state e = RECORDING
  /\ _meeting_id e = Some mid
  /\ exists cw,
       _chunk_writer e = Some cw
       /\ ChunkWriter.coherent cw
       /\ ChunkWriter._is_running cw = true
       /\ ChunkWriter.bytes_per_second cw = B
       /\ AudioBuffer._total_received_bytes (ChunkWriter._buffer cw) = n.


(** A call took the engine from [e], [w] to [e'], [w']: the callbacks it
    made were appended, and the states it announced are moves of the
    machine from the state of [e] to the state of [e']. *)
Definition moved (e : t) (w : world) (e' : t) (w' : world) : Prop :=
  exists new,
    events w' = events w ++ new
    /\ follows (_state e) (notified new) = true
    /\ List.last (notified new) (_state e) = _state e'.


(** When the meeting [mid] has a row in [w]: it has one in [w'], and from
    [w] to [w'] the callbacks made were appended and the segment table
    grew by one row for each segment passed to the chunk callback. *)
Definition stored (mid : Z) (w w' : world) : Prop :=
  is_Some (Db.get_by_id mid (db w)) ->
  is_Some (Db.get_by_id mid (db w'))
  /\ exists new,
       events w' = events w ++ new
       /\ Db.audio_chunks (db w')
          = Db.audio_chunks (db w) ++ List.map (row_of_chunk mid) (ready_chunks new).

(** While it records, the engine records for meeting [mid]. *)
Definition tagged (mid : Z) (e : t) : Prop :=
  _state e = RECORDING -> _meeting_id e = Some mid.

End RecordingEngine.

(** ** llm/minutes_generator.py: the result of a generation *)

Module Llm.

Record MinutesResult : Type := {
  summary : string;
  decisions : list string;      (* one entry per record *)
  action_items : list string;
  topics : list string;
  raw_response : string
}.

End Llm.

(** ** core/pipeline.py *)

Module Pipeline.

Inductive PipelineState : Type :=
| IDLE | TRANSCRIBING | MERGING | GENERATING | DONE | FAILED.

(** [self._state in (IDLE, DONE, FAILED)] *)
Definition accepts_run (s : PipelineState) : bool :=
  match s with
  | IDLE | DONE | FAILED => true
  | TRANSCRIBING | MERGING | GENERATING => false
  end.

Record t : Type := mk {
  _state : PipelineState;
  _current_meeting_id : option Z
}.

(** [MeetingPipeline.__init__] *)
Definition init : t := {| _state := IDLE; _current_meeting_id := None |}.

Definition state (p : t) : PipelineState := _state p.

(** The texts handed to the callbacks. *)
Inductive message : Type :=
| Text (s : string)
| TranscribingAudio (i total : Z)     (* "正在转写音频 {i}/{total}..." *)
| ErrorText (e : Py.exn).             (* [str(e)] *)

(** What a run does to the outside, oldest first: callbacks and the calls
    of the two providers. *)
Inductive event : Type :=
| StateChanged (s : PipelineState) (m : message)
| Progress (fraction : Q) (m : message)
| Error (m : message)
| RecognitionCall (url : string)
| GenerationCall (meeting_id : Z).

Record world : Type := {
  db : Db.t;
  events : list event
}.

(** The external collaborators: what the recognition provider returns for
    a URL, what the generator returns, and [json.dumps]. *)
Record providers : Type := {
  transcribe_url : string -> outcome Asr.TranscriptResult;
  generate : Db.Meeting -> Asr.TranscriptResult -> list Db.Note
             -> outcome Llm.MinutesResult;
  json_dumps : list string -> string
}.

(** Methods of the pipeline: state transformers that may raise. *)
Definition M (A : Type) : Type := t * world -> (t * world) * outcome A.

Definition ret {A} (a : A) : M A := fun s => (s, Returned a).
Definition raise {A} (e : Py.exn) : M A := fun s => (s, Raised e).
Definition bind {A B} (c : M A) (k : A -> M B) : M B :=
  fun s =>
    match c s with
    | (s', Returned a) => k a s'
    | (s', Raised e) => (s', Raised e)
    end.

Declare Scope pipeline_scope.
Delimit Scope pipeline_scope with pipeline.
Notation "x <- c ;; k" := (bind c (fun x => k))
  (at level 100, c at next level, right associativity) : pipeline_scope.
Notation "c ;; k" := (bind c (fun _ => k))
  (at level 100, right associativity) : pipeline_scope.
Local Open Scope pipeline_scope.

Definition emit (ev : event) : M unit :=
  fun '(p, w) => ((p, {| db := db w; events := events w ++ [ev] |}), Returned tt).

Definition on_db (f : Db.t -> Db.t) : M unit :=
  fun '(p, w) => ((p, {| db := f (db w); events := events w |}), Returned tt).

Definition read_db {A} (f : Db.t -> A) : M A :=
  fun '(p, w) => ((p, w), Returned (f (db w))).

Definition call {A} (ev : event) (r : outcome A) : M A :=
  emit ev ;; (fun s => (s, r)).

(** A repository call that may raise; the database is changed only when it
    returns. *)
Definition try_db (f : Db.t -> outcome Db.t) : M unit :=
  fun '(p, w) =>
    match f (db w) with
    | Returned d => ((p, {| db := d; events := events w |}), Returned tt)
    | Raised e => ((p, w), Raised e)
    end.

(** Reading a column of a row that a repository method returned. The
    method loaded the row in a [session_scope], which commits (this
    expires the columns of the rows the session holds) and closes the
    session before the caller sees the row: the read has to reload the
    column and raises, as the row is bound to no session. *)
Definition detached_attr {A} (column : Db.Meeting -> A) (row : Db.Meeting) : M A :=
  raise Py.DetachedInstanceError.

Definition _set_state (s : PipelineState) (m : message) : M unit :=
  fun '(p, w) =>
    emit (StateChanged s m)
      ({| _state := s; _current_meeting_id := _current_meeting_id p |}, w).

Definition _report_progress (fraction : Q) (m : message) : M unit :=
  emit (Progress fraction m).

Definition _report_error (m : message) : M unit := emit (Error m).

(** The loop of [_transcribe] over [enumerate(audio_urls)], from index [i]. *)
Fixpoint transcribe_urls (P : providers) (total i : Z) (urls : list string)
    (merger : TranscriptMerger.t) : M TranscriptMerger.t :=
  match urls with
  | [] => ret merger
  | url :: rest =>
      _report_progress
        (inject_Z (i + 1) / inject_Z total * (6 # 10))%Q
        (TranscribingAudio (i + 1) total) ;;
      result <- call (RecognitionCall url) (transcribe_url P url) ;;
      transcribe_urls P total (i + 1) rest (TranscriptMerger.add_result result merger)
  end.

Definition empty_result : Asr.TranscriptResult :=
  {| Asr.segments := []; Asr.full_text := []; Asr.duration := 0;
     Asr.language := None |}.

(** [MeetingPipeline._transcribe] *)
Definition _transcribe (P : providers) (meeting_id : Z)
    (audio_urls : option (list string)) : M Asr.TranscriptResult :=
  let merger := TranscriptMerger.init TranscriptMerger.default_overlap_threshold in
  match audio_urls with
  | Some (url :: rest) =>
      let urls := url :: rest in
      merger <- transcribe_urls P (Py.len urls) 0 urls merger ;;
      ret (TranscriptMerger.get_merged_result merger)
  | _ =>
      chunks <- read_db (Db.chunks_by_meeting meeting_id) ;;
      match chunks with
      | [] => ret empty_result
      | _ => ret (TranscriptMerger.get_merged_result merger)
      end
  end.

Definition row_of (meeting_id : Z) (seg : Asr.TranscriptSegment) : Db.Transcript :=
  {| Db.t_meeting_id := meeting_id;
     Db.t_start_time := Asr.start_time seg;
     Db.t_end_time := Asr.end_time seg;
     Db.t_speaker_id := Asr.speaker_id seg;
     Db.t_text := Asr.text_ seg;
     Db.t_confidence := Asr.confidence seg;
     Db.t_chunk_index := None |}.

(** [MeetingPipeline._save_transcripts]. The old rows are deleted in a
    session of their own, before the new ones are inserted. *)
Definition _save_transcripts (meeting_id : Z) (transcript : Asr.TranscriptResult)
  : M unit :=
  on_db (Db.delete_transcripts meeting_id) ;;
  let transcripts_data := List.map (row_of meeting_id) (Asr.segments transcript) in
  match transcripts_data with
  | [] => ret tt
  | _ => try_db (Db.create_batch transcripts_data)
  end.

Definition no_content_summary : string := "（无转写内容）".

(** [MeetingPipeline._generate_minutes]. [generator.generate] is called
    with the meeting that [get_by_id] returned; without one the attribute
    access inside it fails. The construction of the generator and the call
    are one answer of the collaborator [generate], which may be an
    exception (as it is when [generate] reads a column of a row whose
    session is closed); what is proved below holds for every
    collaborator. *)
Definition _generate_minutes (P : providers) (meeting_id : Z)
    (transcript : Asr.TranscriptResult) : M unit :=
  _report_progress (7 # 10) (Text "正在生成会议纪要...") ;;
  meeting <- read_db (Db.get_by_id meeting_id) ;;
  notes <- read_db (Db.notes_by_meeting meeting_id) ;;
  match Asr.segments transcript with
  | [] =>
      on_db (Db.save_minutes meeting_id no_content_summary "[]" "[]" "[]")
  | _ =>
      result <- match meeting with
                | Some m => call (GenerationCall meeting_id) (generate P m transcript notes)
                | None => raise (Py.RuntimeError "meeting is None")
                end ;;
      _report_progress (9 # 10) (Text "正在保存会议纪要...") ;;
      on_db (Db.save_minutes meeting_id
               (Llm.summary result)
               (json_dumps P (Llm.decisions result))
               (json_dumps P (Llm.action_items result))
               (json_dumps P (Llm.topics result))) ;;
      _report_progress 1 (Text "会议纪要已生成")
  end.

(** The [try] block of [process]. The log line after the test reads
    [meeting.title] of the row that [get_by_id] returned. *)
Definition process_body (P : providers) (meeting_id : Z)
    (audio_urls : option (list string)) : M unit :=
  meeting <- read_db (Db.get_by_id meeting_id) ;;
  match meeting with
  | None => raise (Py.ValueError (String.append "会议不存在: " (Py.str_Z meeting_id)))
  | Some meeting =>
      detached_attr Db.title meeting ;;
      on_db (Db.update_status meeting_id "processing") ;;
      _set_state TRANSCRIBING (Text "正在进行语音识别...") ;;
      transcript_result <- _transcribe P meeting_id audio_urls ;;
      _set_state MERGING (Text "正在合并转写结果...") ;;
      _save_transcripts meeting_id transcript_result ;;
      _set_state GENERATING (Text "正在生成会议纪要...") ;;
      _generate_minutes P meeting_id transcript_result ;;
      _set_state DONE (Text "处理完成") ;;
      on_db (Db.update_status meeting_id "done")
  end.

(** The calls of the generation provider among the events. *)
Definition is_generation_call (ev : event) : bool :=
  match ev with GenerationCall _ => true | _ => false end.

Definition generation_calls (w : world) : list event :=
  List.filter is_generation_call (events w).

(** The minutes persisted for a meeting are the "no content" placeholder. *)
Definition has_placeholder_minutes (m : Db.Meeting) : Prop :=
  Db.summary m = Some no_content_summary
  /\ Db.decisions_json m = Some "[]"%string
  /\ Db.action_items_json m = Some "[]"%string
  /\ Db.topics_json m = Some "[]"%string.

(** Sample collaborators and data for the examples below. *)
Definition sample_providers : providers :=
  {| transcribe_url := fun _ => Returned empty_result;
     generate := fun _ _ _ => Raised (Py.ProviderError "unavailable");
     json_dumps := fun _ => "[]"%string |}.

Definition sample_meeting (status : string) : Db.Meeting :=
  {| Db.id := 7; Db.title := "weekly"; Db.status := status;
     Db.user_perspective := "worker"; Db.custom_perspective := None;
     Db.output_style := "neutral"; Db.participants := None;
     Db.audio_path := None; Db.m_duration := None;
     Db.summary := None; Db.decisions_json := None;
     Db.action_items_json := None; Db.topics_json := None |}.

Definition sample_world (status : string) : world :=
  {| db := {| Db.meetings := {[ 7 := sample_meeting status ]};
              Db.transcripts := []; Db.notes := []; Db.audio_chunks := [] |};
     events := [] |}.

Definition set_current (c : option Z) (p : t) : t :=
  {| _state := _state p; _current_meeting_id := c |}.

(** [MeetingPipeline.process] *)
Definition process (P : providers) (meeting_id : Z)
    (audio_urls : option (list string)) (p : t) (w : world) : t * world * bool :=
  if negb (accepts_run (_state p)) then (p, w, false)
  else
    let p := set_current (Some meeting_id) p in
    match process_body P meeting_id audio_urls (p, w) with
    | ((p, w), Returned _) => (set_current None p, w, true)
    | ((p, w), Raised e) =>
        let handler :=
          _set_state FAILED (ErrorText e) ;;
          _report_error (ErrorText e) ;;
          on_db (Db.update_status meeting_id "failed") in
        let '((p, w), _) := handler (p, w) in
        (set_current None p, w, false)
    end.


(** The URLs passed to the recognition provider, oldest first. *)
Definition recognition_calls (w : world) : list string :=
  omap (fun ev => match ev with RecognitionCall url => Some url | _ => None end)
       (events w).

(** The transcript rows of the meeting, and those of the other meetings. *)
Definition of_meeting (meeting_id : Z) (r : Db.Transcript) : bool :=
  Db.t_meeting_id r =? meeting_id.

Definition of_other_meeting (meeting_id : Z) (r : Db.Transcript) : bool :=
  negb (Db.t_meeting_id r =? meeting_id).

(** From [d] to [d'] nothing changed outside meeting [meeting_id]: the
    other meetings' rows and transcripts, the notes and the segment table
    are the same, and the meeting's own row was neither created nor
    deleted. *)
Definition elsewhere_same (meeting_id : Z) (d d' : Db.t) : Prop :=
  (forall k, k <> meeting_id -> Db.get_by_id k d' = Db.get_by_id k d)
  /\ (is_Some (Db.get_by_id meeting_id d') <-> is_Some (Db.get_by_id meeting_id d))
  /\ List.filter (of_other_meeting meeting_id) (Db.transcripts d')
     = List.filter (of_other_meeting meeting_id) (Db.transcripts d)
  /\ Db.notes d' = Db.notes d
  /\ Db.audio_chunks d' = Db.audio_chunks d.

(** A step of a run changes nothing outside the meeting and only appends
    to the callbacks made. *)
Definition confined (meeting_id : Z) (s s' : t * world) : Prop :=
  elsewhere_same meeting_id (db (snd s)) (db (snd s'))
  /\ exists new, events (snd s') = events (snd s) ++ new.

Definition confines (meeting_id : Z) {A} (c : M A) : Prop :=
  forall s s' r, c s = (s', r) -> confined meeting_id s s'.

End Pipeline.

(** * Properties *)

(** ** Python primitives *)

Section PyFacts.

Lemma len_nonneg {A} (l : list A) : 0 <= Py.len l.
Proof. unfold Py.len. lia. Qed.

Lemma len_app {A} (l1 l2 : list A) : Py.len (l1 ++ l2) = Py.len l1 + Py.len l2.
Proof. unfold Py.len. rewrite length_app. lia. Qed.

Lemma len_nil {A} : Py.len (@nil A) = 0.
Proof. reflexivity. Qed.

Lemma len_zero_nil {A} (l : list A) : Py.len l = 0 -> l = [].
Proof. destruct l; [reflexivity | unfold Py.len; simpl; lia]. Qed.

(** [l[:k] + l[k:] == l] for a non-negative [k]. *)
Lemma slice_to_from {A} (k : Z) (l : list A) :
  0 <= k -> Py.slice_to k l ++ Py.slice_from k l = l.
Proof.
  intros Hk. unfold Py.slice_to, Py.slice_from.
  destruct (k <? 0) eqn:E; [apply Z.ltb_lt in E; lia |].
  apply firstn_skipn.
Qed.

Lemma len_slice_from {A} (k : Z) (l : list A) :
  0 <= k <= Py.len l -> Py.len (Py.slice_from k l) = Py.len l - k.
Proof.
  intros Hk. unfold Py.slice_from.
  destruct (k <? 0) eqn:E; [apply Z.ltb_lt in E; lia |].
  unfold Py.len in *. rewrite length_skipn. lia.
Qed.

Lemma len_slice_to {A} (k : Z) (l : list A) :
  0 <= k <= Py.len l -> Py.len (Py.slice_to k l) = k.
Proof.
  intros Hk. unfold Py.slice_to.
  destruct (k <? 0) eqn:E; [apply Z.ltb_lt in E; lia |].
  unfold Py.len in *. rewrite length_firstn. lia.
Qed.

Lemma Qltb_lt (a b : Q) : Py.Qltb a b = true <-> (a < b)%Q.
Proof.
  unfold Py.Qltb. rewrite negb_true_iff.
  destruct (Qle_bool b a) eqn:E.
  - apply Qle_bool_iff in E. split; [discriminate | intros H; exfalso; lra].
  - split; [intros _ | reflexivity].
    destruct (Qlt_le_dec a b) as [H | H]; [exact H |].
    apply Qle_bool_iff in H. congruence.
Qed.

Lemma Qltb_ge (a b : Q) : Py.Qltb a b = false <-> (b <= a)%Q.
Proof.
  unfold Py.Qltb. rewrite negb_false_iff. apply Qle_bool_iff.
Qed.

End PyFacts.

(** ** Ring buffer *)

Section AudioBufferFacts.

Import AudioBuffer.

Lemma len_concat_cons (x : bytes) (l : list bytes) :
  Py.len (concat (x :: l)) = Py.len x + Py.len (concat l).
Proof. simpl. apply len_app. Qed.

Lemma evict_spec (max : Z) (buf : list bytes) :
  forall total, total = Py.len (concat buf) ->
  forall buf' total', evict max buf total = (buf', total') ->
    total' = Py.len (concat buf')
    /\ (exists dropped, buf = dropped ++ buf')
    /\ (total' <= max \/ buf' = []).
Proof.
  induction buf as [| old rest IH]; intros total Ht buf' total' He; simpl in He.
  - inversion He; subst. repeat split; [exists []; reflexivity | right; reflexivity].
  - destruct (total >? max) eqn:E.
    + rewrite len_concat_cons in Ht.
      destruct (IH (total - Py.len old) ltac:(lia) _ _ He) as (H1 & [d Hd] & H3).
      repeat split; [exact H1 | exists (old :: d); simpl; congruence | exact H3].
    + inversion He; subst. repeat split; [exists []; reflexivity |].
      left. rewrite Z.gtb_ltb in E. apply Z.ltb_ge in E. exact E.
Qed.

(** A block larger than the capacity takes everything with it. *)
Lemma evict_oversized (max : Z) (data : bytes) (buf : list bytes) :
  max < Py.len data ->
  forall total, total = Py.len (concat (buf ++ [data])) ->
    evict max (buf ++ [data]) total = ([], 0).
Proof.
  intros Hbig. induction buf as [| old rest IH]; intros total Ht; simpl in *.
  - rewrite app_nil_r in Ht.
    assert ((total >? max) = true) as -> by (apply Z.gtb_lt; lia).
    f_equal. lia.
  - rewrite len_app in Ht.
    pose proof (len_nonneg old). pose proof (len_nonneg (concat rest)).
    assert (Hc : Py.len (concat (rest ++ [data])) = Py.len (concat rest) + Py.len data).
    { rewrite concat_app, len_app. simpl. rewrite app_nil_r. reflexivity. }
    assert ((total >? max) = true) as -> by (apply Z.gtb_lt; lia).
    apply IH. lia.
Qed.

Lemma write_consistent (data : bytes) (b : t) :
  consistent b -> consistent (write data b).
Proof.
  unfold consistent, write. intros Hc.
  destruct (evict _ _ _) as [buf' total'] eqn:He. simpl.
  eapply evict_spec in He; [tauto |].
  rewrite concat_app, len_app. simpl. rewrite app_nil_r. lia.
Qed.

Lemma read_loop_spec (buf : list bytes) :
  forall remaining total result buf' total' result',
    read_loop buf remaining total result = (buf', total', result') ->
    concat result' ++ concat buf' = concat result ++ concat buf
    /\ (total = Py.len (concat buf) -> total' = Py.len (concat buf'))
    /\ (exists dropped, result' = result ++ dropped).
Proof.
  induction buf as [| chunk rest IH]; intros remaining total result buf' total' result' H;
    simpl in H.
  - inversion H; subst.
    split; [reflexivity | split; [tauto | exists []; rewrite app_nil_r; reflexivity]].
  - destruct (remaining >? 0) eqn:Epos.
    + apply Z.gtb_lt in Epos.
      destruct (Py.len chunk <=? remaining) eqn:Ele.
      * apply IH in H. destruct H as (H1 & H2 & [d Hd]).
        split; [| split].
        -- rewrite H1, concat_app. simpl. rewrite app_nil_r, <- app_assoc. reflexivity.
        -- intros Ht. apply H2. rewrite len_concat_cons in Ht. lia.
        -- exists (chunk :: d). rewrite Hd, <- app_assoc. reflexivity.
      * apply Z.leb_gt in Ele. inversion H; subst. split; [| split].
        -- rewrite concat_app. simpl. rewrite app_nil_r, <- !app_assoc.
           f_equal. rewrite app_assoc, slice_to_from by lia. reflexivity.
        -- intros Ht. rewrite !len_concat_cons in *.
           rewrite len_slice_from by lia. lia.
        -- eexists; reflexivity.
    + inversion H; subst.
      split; [reflexivity | split; [tauto | exists []; rewrite app_nil_r; reflexivity]].
Qed.

(** What [read] returns and what it leaves make up the old content. *)
Lemma read_split (n : option Z) (b : t) :
  snd (read n b) ++ concat (_buffer (fst (read n b))) = concat (_buffer b).
Proof.
  unfold read. destruct (_buffer b) as [| c r] eqn:Eb.
  - simpl. rewrite Eb. reflexivity.
  - destruct n as [n |].
    + destruct (read_loop _ _ _ _) as [[buf' total'] result] eqn:Hl. simpl.
      apply read_loop_spec in Hl. destruct Hl as (H1 & _). exact H1.
    + simpl. rewrite app_nil_r. reflexivity.
Qed.

Lemma read_consistent (n : option Z) (b : t) :
  consistent b -> consistent (fst (read n b)).
Proof.
  unfold consistent, read. intros Hc. destruct (_buffer b) as [| c r] eqn:Eb.
  - simpl. rewrite Eb. exact Hc.
  - destruct n as [n |].
    + destruct (read_loop _ _ _ _) as [[buf' total'] result] eqn:Hl. simpl.
      apply read_loop_spec in Hl. destruct Hl as (_ & H2 & _). apply H2. exact Hc.
    + reflexivity.
Qed.

Lemma exec_consistent (c : call) (b : t) : consistent b -> consistent (exec c b).
Proof.
  destruct c; simpl; intros Hc.
  - apply write_consistent, Hc.
  - apply read_consistent, Hc.
  - exact Hc.
  - apply read_consistent, Hc.
  - reflexivity.
  - reflexivity.
Qed.

Lemma init_consistent (max_seconds : Q) (sr ch : Z) : consistent (init max_seconds sr ch).
Proof. reflexivity. Qed.

Lemma run_consistent (cs : list call) :
  forall b, consistent b -> consistent (run cs b).
Proof.
  induction cs as [| c cs IH]; intros b Hc; simpl; [exact Hc |].
  apply IH, exec_consistent, Hc.
Qed.

Lemma write_max_bytes (data : bytes) (b : t) : max_bytes (write data b) = max_bytes b.
Proof. unfold write. destruct (evict _ _ _). reflexivity. Qed.

Lemma write_all_snoc (blocks : list bytes) (d : bytes) (b : t) :
  write_all (blocks ++ [d]) b = write d (write_all blocks b).
Proof. unfold write_all. rewrite fold_left_app. reflexivity. Qed.

(** After a run of writes into a fresh buffer, the deque holds the last
    blocks written, whole and in order, and no more than fits. *)
Lemma write_all_invariant (blocks : list bytes) :
  forall b0, _buffer b0 = [] -> _total_bytes b0 = 0 -> 0 <= max_bytes b0 ->
  let b := write_all blocks b0 in
  consistent b
  /\ max_bytes b = max_bytes b0
  /\ _total_bytes b <= max_bytes b0
  /\ exists dropped, blocks = dropped ++ _buffer b.
Proof.
  induction blocks as [| d blocks IH] using rev_ind; intros b0 Hb Ht Hm.
  - simpl. unfold consistent. rewrite Hb, Ht. repeat split; [lia | exists []; reflexivity].
  - rewrite write_all_snoc. cbv zeta.
    destruct (IH b0 Hb Ht Hm) as (Hc & Hmax & Hle & [dropped Hd]).
    set (b := write_all blocks b0) in *.
    split; [apply write_consistent, Hc |].
    split; [rewrite write_max_bytes; exact Hmax |].
    unfold write. destruct (evict _ _ _) as [buf' total'] eqn:He. simpl.
    eapply evict_spec in He.
    2:{ rewrite concat_app, len_app. simpl. rewrite app_nil_r.
        unfold consistent in Hc. rewrite Hc. reflexivity. }
    destruct He as (H1 & [d2 Hd2] & H3). split.
    + destruct H3 as [H3 | H3]; [lia | subst buf' total'; exact Hm].
    + exists (dropped ++ d2). rewrite Hd at 1. rewrite <- !app_assoc, Hd2. reflexivity.
Qed.

Lemma read_many_split (ns : list (option Z)) :
  forall b,
    snd (read_many ns b) ++ concat (_buffer (fst (read_many ns b)))
    = concat (_buffer b).
Proof.
  induction ns as [| n ns IH]; intros b; simpl; [reflexivity |].
  pose proof (read_split n b) as H1.
  destruct (read n b) as [b1 d1]. simpl in H1.
  specialize (IH b1). destruct (read_many ns b1) as [b2 d2]. simpl in *.
  rewrite <- app_assoc, IH. exact H1.
Qed.

Lemma read_many_consistent (ns : list (option Z)) :
  forall b, consistent b -> consistent (fst (read_many ns b)).
Proof.
  induction ns as [| n ns IH]; intros b Hc; simpl; [exact Hc |].
  pose proof (read_consistent n b Hc) as H1.
  destruct (read n b) as [b1 d1]. simpl in H1.
  specialize (IH b1 H1). destruct (read_many ns b1) as [b2 d2]. exact IH.
Qed.

(** C4. Whatever blocks are written into a fresh ring buffer of
    non-negative capacity, after each write (after the first [k] writes,
    for every [k]) [available_bytes()] is at most [max_bytes]; the deque
    holds a suffix of the sequence of blocks written, so whole oldest
    blocks went first; and what draining reads return -- one [read()]
    of everything, or any run of [read(n)] calls that leaves no byte
    behind -- is a suffix of the concatenation of all bytes written. *)
Theorem ring_buffer_bounded_suffix (max_seconds : Q) (sample_rate channels : Z)
    (blocks : list bytes) (k : nat) (reads : list (option Z)) :
  let b0 := init max_seconds sample_rate channels in
  let written := firstn k blocks in
  let b := write_all written b0 in
  0 <= max_bytes b0 ->
  available_bytes b <= max_bytes b
  /\ (exists dropped, written = dropped ++ _buffer b)
  /\ snd (read None b) = concat (_buffer b)
  /\ snd (read None b) `suffix_of` concat written
  /\ (available_bytes (fst (read_many reads b)) = 0 ->
      snd (read_many reads b) `suffix_of` concat written).
Proof.
  intros b0 written b Hmax.
  destruct (write_all_invariant written b0 eq_refl eq_refl Hmax)
    as (Hc & Hm & Hle & [dropped Hd]).
  fold b in Hc, Hm, Hle, Hd.
  assert (Hsuf : concat (_buffer b) `suffix_of` concat written).
  { exists (concat dropped). rewrite Hd at 1. apply concat_app. }
  assert (Hall : snd (read None b) = concat (_buffer b)).
  { unfold read. destruct (_buffer b); reflexivity. }
  split; [unfold available_bytes; lia |].
  split; [exists dropped; exact Hd |].
  split; [exact Hall |].
  split; [rewrite Hall; exact Hsuf |].
  intros Hzero.
  pose proof (read_many_split reads b) as Hs.
  pose proof (read_many_consistent reads b Hc) as Hc'.
  unfold consistent, available_bytes in *. rewrite Hzero in Hc'.
  symmetry in Hc'. apply len_zero_nil in Hc'.
  rewrite Hc', app_nil_r in Hs. rewrite Hs. exact Hsuf.
Qed.

Lemma ring_buffer_bounded_suffix_witness :
  let blocks := [["a"; "b"; "c"]; ["d"; "e"]; ["f"]]%byte in
  let b := write_all blocks (init 1 2 1) in
  available_bytes b <= max_bytes b
  /\ (exists dropped, blocks = dropped ++ _buffer b)
  /\ snd (read None b) = concat (_buffer b)
  /\ snd (read None b) `suffix_of` concat blocks
  /\ (available_bytes (fst (read_many [Some 2; None] b)) = 0 ->
      snd (read_many [Some 2; None] b) `suffix_of` concat blocks).
Proof.
  apply (ring_buffer_bounded_suffix 1 2 1
           [["a"; "b"; "c"]; ["d"; "e"]; ["f"]]%byte 3 [Some 2; None]).
  vm_compute. discriminate.
Defined.

(** C5. With a positive byte rate, [total_received_seconds()] does not
    decrease across any call other than [reset()] ([write], [read],
    [peek], [read_seconds], [clear]), so none of them brings a positive
    total back to zero; [clear()] leaves it exactly as it was; [reset()]
    sets it to zero. *)
Theorem total_received_monotone (b : t) (c : call) :
  0 < bytes_per_second b ->
  (c <> Reset ->
     exists q q', total_received_seconds b = Returned q
                  /\ total_received_seconds (exec c b) = Returned q'
                  /\ (q <= q')%Q
                  /\ ((0 < q)%Q -> (0 < q')%Q))
  /\ total_received_seconds (clear b) = total_received_seconds b
  /\ (exists z, total_received_seconds (reset b) = Returned z /\ (z == 0)%Q).
Proof.
  intros Hbps. split; [| split].
  - intros Hc.
    assert (Hrate : bytes_per_second (exec c b) = bytes_per_second b).
    { destruct c; simpl; try reflexivity.
      - unfold write. destruct (evict _ _ _). reflexivity.
      - unfold read. destruct (_buffer b); [reflexivity |].
        destruct num_bytes; [destruct (read_loop _ _ _ _) as [[? ?] ?] |]; reflexivity.
      - unfold read_seconds, read. destruct (_buffer b); [reflexivity |].
        destruct (read_loop _ _ _ _) as [[? ?] ?]; reflexivity. }
    assert (Hrecv : _total_received_bytes b <= _total_received_bytes (exec c b)).
    { destruct c; simpl; try lia.
      - unfold write. destruct (evict _ _ _). simpl.
        pose proof (len_nonneg data). lia.
      - unfold read. destruct (_buffer b); [simpl; lia |].
        destruct num_bytes; [destruct (read_loop _ _ _ _) as [[? ?] ?] |]; simpl; lia.
      - unfold read_seconds, read. destruct (_buffer b); [simpl; lia |].
        destruct (read_loop _ _ _ _) as [[? ?] ?]; simpl; lia.
      - congruence. }
    unfold total_received_seconds, Py.truediv. rewrite Hrate.
    destruct (bytes_per_second b =? 0) eqn:E; [apply Z.eqb_eq in E; lia |].
    eexists; eexists. split; [reflexivity |]. split; [reflexivity |].
    assert (Hq : (0 < inject_Z (bytes_per_second b))%Q).
    { change 0%Q with (inject_Z 0). rewrite <- Zlt_Qlt. exact Hbps. }
    assert (Hle : (inject_Z (_total_received_bytes b)
                   <= inject_Z (_total_received_bytes (exec c b)))%Q).
    { rewrite <- Zle_Qle. exact Hrecv. }
    split.
    + apply Qle_shift_div_l; [exact Hq |].
      unfold Qdiv. rewrite <- Qmult_assoc, (Qmult_comm (/ _)), Qmult_inv_r by lra.
      lra.
    + intros Hpos. apply Qlt_shift_div_l; [exact Hq |].
      assert (H0 : (0 < inject_Z (_total_received_bytes b))%Q).
      { destruct (Qlt_le_dec 0 (inject_Z (_total_received_bytes b))) as [H | H];
          [exact H | exfalso].
        assert (inject_Z (_total_received_bytes b) / inject_Z (bytes_per_second b) <= 0)%Q.
        { apply Qle_shift_div_r; [exact Hq | lra]. }
        lra. }
      lra.
  - reflexivity.
  - unfold total_received_seconds, Py.truediv.
    change (bytes_per_second (reset b)) with (bytes_per_second b).
    change (_total_received_bytes (reset b)) with 0.
    destruct (bytes_per_second b =? 0) eqn:E; [apply Z.eqb_eq in E; exfalso; lia |].
    eexists. split; [reflexivity |]. unfold Qdiv. apply Qmult_0_l.
Qed.

Lemma total_received_monotone_witness :
  let b := write ["a"; "b"]%byte (init 1 2 1) in
  (Write ["c"]%byte <> Reset ->
     exists q q', total_received_seconds b = Returned q
                  /\ total_received_seconds (exec (Write ["c"]%byte) b) = Returned q'
                  /\ (q <= q')%Q
                  /\ ((0 < q)%Q -> (0 < q')%Q))
  /\ total_received_seconds (clear b) = total_received_seconds b
  /\ (exists z, total_received_seconds (reset b) = Returned z /\ (z == 0)%Q).
Proof.
  apply (total_received_monotone (write ["a"; "b"]%byte (init 1 2 1))
           (Write ["c"]%byte)).
  vm_compute. reflexivity.
Defined.

(** C10. In any state the ring buffer can reach, one [write(data)] with
    [len(data) > max_bytes] leaves [available_bytes()] at 0: the eviction
    loop pops every block, the one just written included. The count of
    received bytes still grows by [len(data)]. *)
Theorem oversized_write_empties_buffer (max_seconds : Q) (sample_rate channels : Z)
    (cs : list call) (data : bytes) :
  let b := run cs (init max_seconds sample_rate channels) in
  max_bytes b < Py.len data ->
  available_bytes (write data b) = 0
  /\ _buffer (write data b) = []
  /\ _total_received_bytes (write data b) = _total_received_bytes b + Py.len data.
Proof.
  intros b Hbig.
  assert (Hc : consistent b) by (apply run_consistent, init_consistent).
  unfold write, available_bytes.
  rewrite (evict_oversized (max_bytes b) data (_buffer b) Hbig).
  - simpl. repeat split.
  - rewrite concat_app, len_app. simpl. rewrite app_nil_r.
    unfold consistent in Hc. rewrite Hc. reflexivity.
Qed.

Lemma oversized_write_empties_buffer_witness :
  let b := run [Write ["a"; "b"; "c"]%byte; Read (Some 1)] (init 1 2 1) in
  let data := ["d"; "e"; "f"; "g"; "h"]%byte in
  available_bytes (write data b) = 0
  /\ _buffer (write data b) = []
  /\ _total_received_bytes (write data b) = _total_received_bytes b + Py.len data.
Proof.
  apply (oversized_write_empties_buffer 1 2 1
           [Write ["a"; "b"; "c"]%byte; Read (Some 1)]
           ["d"; "e"; "f"; "g"; "h"]%byte).
  vm_compute. reflexivity.
Defined.

End AudioBufferFacts.

(** ** Chunk segmenter *)

Section ChunkWriterFacts.

Import ChunkWriter.

Lemma same_settings_refl (w : t) : same_settings w w.
Proof. unfold same_settings. tauto. Qed.

(** The clamp does nothing to the start time that [_save_chunk] and
    [stop] compute, and that start time is the clamped [i * D - O]. *)
Lemma raw_start_time_clamped (w : t) :
  0 <= _chunk_index w ->
  (0 <= overlap_duration w <= chunk_duration w)%Q ->
  (Py.max 0 (raw_start_time w) == raw_start_time w)%Q
  /\ (raw_start_time w
      == Py.max 0 (inject_Z (_chunk_index w) * chunk_duration w - overlap_duration w))%Q
  /\ (_chunk_index w = 0 -> (raw_start_time w == 0)%Q).
Proof.
  intros Hi [HO HD]. unfold raw_start_time.
  set (D := chunk_duration w) in *. set (O := overlap_duration w) in *.
  destruct (_chunk_index w >? 0) eqn:E.
  - apply Z.gtb_lt in E.
    assert (H1 : (1 <= inject_Z (_chunk_index w))%Q).
    { change 1%Q with (inject_Z 1). rewrite <- Zle_Qle. lia. }
    assert (Hge : (0 <= inject_Z (_chunk_index w) * D - O)%Q) by nra.
    assert (Hm : forall q, (0 <= q)%Q -> (Py.max 0 q == q)%Q).
    { intros q Hq. unfold Py.max. destruct (Py.Qltb 0 q) eqn:El; [reflexivity |].
      apply Qltb_ge in El. lra. }
    split; [apply Hm, Hge |]. split; [symmetry; apply Hm, Hge | intros; lia].
  - rewrite Z.gtb_ltb in E. apply Z.ltb_ge in E.
    assert (Hz : _chunk_index w = 0) by lia. rewrite Hz.
    assert (H0 : (inject_Z 0 * D == 0)%Q) by (change (inject_Z 0) with 0%Q; lra).
    unfold Py.max.
    destruct (Py.Qltb 0 (inject_Z 0 * D)) eqn:E1;
      destruct (Py.Qltb 0 (inject_Z 0 * D - O)) eqn:E2;
      try apply Qltb_lt in E1; try apply Qltb_lt in E2;
      try apply Qltb_ge in E1; try apply Qltb_ge in E2;
      repeat split; intros; lra.
Qed.

Lemma build_chunk_well_timed (w : t) (data : bytes) (em : emission) :
  0 <= _chunk_index w ->
  (0 <= overlap_duration w <= chunk_duration w)%Q ->
  build_chunk w data = Returned em ->
  well_timed (chunk_duration w) (overlap_duration w) (bytes_per_second w) em.
Proof.
  intros Hi HOD Hb. unfold build_chunk, Py.truediv in Hb.
  destruct (raw_start_time_clamped w Hi HOD) as (Hc1 & Hc2 & Hc3).
  destruct (bytes_per_second w =? 0) eqn:E; [discriminate |].
  apply Z.eqb_neq in E. inversion Hb; subst em; clear Hb.
  unfold well_timed. cbn [info frames index start_time end_time mkChunkInfo].
  split; [exact Hi |].
  split; [rewrite Hc1; exact Hc2 |].
  split; [intros Hz; rewrite Hc1; apply Hc3, Hz |].
  split; [exact E |].
  rewrite Hc1. reflexivity.
Qed.

Lemma step_ok_silent (w w' : t) (r : outcome (option emission)) :
  same_settings w w' -> 0 <= _chunk_index w' ->
  (forall em, r <> Returned (Some em)) -> step_ok w w' r.
Proof.
  intros Hs Hi Hr. split; [exact Hs |]. split; [exact Hi |].
  intros em He. exfalso. exact (Hr em He).
Qed.

(** Closes the case of a call that returns or raises without a segment:
    [H] equates the result of the call with [(w', r)]. *)
Ltac silent_step H :=
  inversion H; subst; apply step_ok_silent;
  [ first [apply same_settings_refl | unfold same_settings; simpl; tauto]
  | assumption
  | discriminate ].

Lemma save_chunk_step (w w' : t) (r : outcome (option emission)) :
  0 <= _chunk_index w ->
  (0 <= overlap_duration w <= chunk_duration w)%Q ->
  _save_chunk w = (w', r) -> step_ok w w' r.
Proof.
  intros Hi HOD H. unfold _save_chunk in H.
  destruct (negb (_is_running w)).
  { silent_step H. }
  destruct (AudioBuffer.read _ _) as [buf data].
  destruct data as [| x data'].
  { silent_step H. }
  set (data := match _overlap_data (with_buffer w buf) with
               | [] => _
               | _ :: _ => _
               end) in H.
  set (w2 := if Py.len data >? _ then _ else _) in H.
  assert (Hw2 : same_settings w w2 /\ _chunk_index w2 = _chunk_index w).
  { subst w2. destruct (Py.len data >? _); unfold same_settings; simpl; tauto. }
  destruct Hw2 as [(HD & HO & HB & HM) Hidx].
  destruct (build_chunk w2 data) as [em | e] eqn:Hb; inversion H; subst w' r; clear H.
  - split; [unfold same_settings; simpl; tauto |].
    split; [simpl; lia |].
    intros em' He. inversion He; subst em'.
    apply build_chunk_well_timed in Hb; [| lia | rewrite HD, HO; exact HOD].
    rewrite HD, HO, HB in Hb. exact Hb.
  - apply step_ok_silent; [unfold same_settings; tauto | lia | discriminate].
Qed.

Lemma write_step (data : bytes) (w w' : t) (r : outcome (option emission)) :
  0 <= _chunk_index w ->
  (0 <= overlap_duration w <= chunk_duration w)%Q ->
  write data w = (w', r) -> step_ok w w' r.
Proof.
  intros Hi HOD H. unfold write in H.
  destruct (negb (_is_running w)).
  { silent_step H. }
  set (w1 := with_buffer w _) in H.
  destruct (AudioBuffer.available_seconds (_buffer w1)) as [secs | e].
  - destruct (Qle_bool (chunk_duration w1) secs).
    + apply (save_chunk_step w1 w' r Hi HOD) in H.
      destruct H as (Hs & Hi' & Hem). split; [exact Hs |]. split; [exact Hi' | exact Hem].
    + silent_step H.
  - silent_step H.
Qed.

Lemma stop_step (w w' : t) (r : outcome (option emission)) :
  0 <= _chunk_index w ->
  (0 <= overlap_duration w <= chunk_duration w)%Q ->
  stop w = (w', r) -> step_ok w w' r.
Proof.
  intros Hi HOD H. unfold stop in H.
  destruct (negb (_is_running w)).
  { silent_step H. }
  destruct (AudioBuffer.read _ _) as [buf data].
  destruct data as [| x data'].
  { silent_step H. }
  set (w2 := with_buffer (with_is_running w false) buf) in H.
  set (data := match _overlap_data w2 with
               | [] => _
               | _ :: _ => _
               end) in H.
  destruct (build_chunk w2 data) as [em | e] eqn:Hb; inversion H; subst w' r; clear H.
  - split; [unfold same_settings; simpl; tauto |].
    split; [exact Hi |].
    intros em' He. inversion He; subst em'.
    apply (build_chunk_well_timed w2 data em Hi HOD Hb).
  - apply step_ok_silent; [unfold same_settings; simpl; tauto | exact Hi | discriminate].
Qed.

Lemma exec_step (c : call) (w w' : t) (log : list event) :
  0 <= _chunk_index w ->
  (0 <= overlap_duration w <= chunk_duration w)%Q ->
  exec c w = (w', log) ->
  same_settings w w' /\ 0 <= _chunk_index w' /\ log_ok w log.
Proof.
  intros Hi HOD H. destruct c as [now | data |]; simpl in H.
  - inversion H; subst. split; [unfold same_settings; simpl; tauto |].
    split; [simpl; lia | intros ev em []].
  - destruct (write data w) as [w1 r] eqn:Hw. inversion H; subst w1 log; clear H.
    destruct (write_step data w w' r Hi HOD Hw) as (Hs & Hi' & Hem).
    split; [exact Hs |]. split; [exact Hi' |].
    intros ev em Hin Hev. destruct r as [[em0 |] | e]; simpl in Hin;
      try contradiction; destruct Hin as [<- | []]; simpl in Hev; inversion Hev; subst.
    apply Hem. reflexivity.
  - destruct (stop w) as [w1 r] eqn:Hw. inversion H; subst w1 log; clear H.
    destruct (stop_step w w' r Hi HOD Hw) as (Hs & Hi' & Hem).
    split; [exact Hs |]. split; [exact Hi' |].
    intros ev em Hin Hev. destruct r as [[em0 |] | e]; simpl in Hin;
      try contradiction; destruct Hin as [<- | []]; simpl in Hev; inversion Hev; subst.
    apply Hem. reflexivity.
Qed.

Lemma run_log_ok (cs : list call) :
  forall w w' log,
    0 <= _chunk_index w ->
    (0 <= overlap_duration w <= chunk_duration w)%Q ->
    run cs w = (w', log) -> log_ok w log.
Proof.
  induction cs as [| c cs IH]; intros w w' log Hi HOD H; simpl in H.
  - inversion H; subst. intros ev em [].
  - destruct (exec c w) as [w1 l1] eqn:He.
    destruct (run cs w1) as [w2 l2] eqn:Hr. inversion H; subst w2 log; clear H.
    destruct (exec_step c w w1 l1 Hi HOD He) as ((HD & HO & HB & HM) & Hi1 & Hl1).
    assert (Hl2 : log_ok w1 l2).
    { apply (IH w1 w' l2 Hi1); [rewrite HD, HO; exact HOD | exact Hr]. }
    intros ev em Hin Hev. apply in_app_or in Hin. destruct Hin as [Hin | Hin].
    + apply (Hl1 ev em Hin Hev).
    + specialize (Hl2 ev em Hin Hev). rewrite HD, HO, HB in Hl2. exact Hl2.
Qed.

(** C8. With an overlap between 0 and the segment duration, every
    segment the segmenter emits -- by a [write] in mid-stream or as the
    final one flushed by [stop], in any run of [start], [write] and [stop]
    calls on a new segmenter -- carries, for its index [i], the start time
    [i * D - O] clamped below at 0 (0 when [i = 0]) and the end time start
    plus emitted byte count over bytes per second. *)
Theorem emitted_segment_times (config : Config.AudioConfig) (mid : Z)
    (sample_rate channels : option Z) (D O : option Q)
    (cs : list call) (ev : event) (em : emission) :
  let w0 := init config mid sample_rate channels D O in
  (0 <= overlap_duration w0 <= chunk_duration w0)%Q ->
  In ev (snd (run cs w0)) ->
  emission_of ev = Some em ->
  let i := index (info em) in
  0 <= i
  /\ (start_time (info em)
      == Py.max 0 (inject_Z i * chunk_duration w0 - overlap_duration w0))%Q
  /\ (i = 0 -> (start_time (info em) == 0)%Q)
  /\ bytes_per_second w0 <> 0
  /\ (end_time (info em)
      == start_time (info em)
         + inject_Z (Py.len (frames em)) / inject_Z (bytes_per_second w0))%Q.
Proof.
  intros w0 HOD Hin Hev.
  destruct (run cs w0) as [w' log] eqn:Hr.
  assert (Hi : 0 <= _chunk_index w0) by (simpl; lia).
  exact (run_log_ok cs w0 w' log Hi HOD Hr ev em Hin Hev).
Qed.

Lemma emitted_segment_times_witness :
  let w0 := init Config.default 7 (Some 1) (Some 1) (Some 2%Q) (Some (1 # 2)) in
  let em := {| info := {| index := 1; file_path := ChunkFile 7 1;
                          start_time := 3 # 2; end_time := 10 # 4;
                          start_datetime := Some 0%Q; duration := 8 # 8 |};
               frames := ["d"; "e"]%byte |} in
  let i := index (info em) in
  0 <= i
  /\ (start_time (info em)
      == Py.max 0 (inject_Z i * chunk_duration w0 - overlap_duration w0))%Q
  /\ (i = 0 -> (start_time (info em) == 0)%Q)
  /\ bytes_per_second w0 <> 0
  /\ (end_time (info em)
      == start_time (info em)
         + inject_Z (Py.len (frames em)) / inject_Z (bytes_per_second w0))%Q.
Proof.
  intros w0 em.
  apply (emitted_segment_times Config.default 7 (Some 1) (Some 1)
           (Some 2%Q) (Some (1 # 2))
           [Start 0; Write ["a"; "b"; "c"; "d"]%byte; Write ["e"]%byte; Stop]
           (FinalSegment em) em).
  - vm_compute. split; discriminate.
  - vm_compute. right. left. reflexivity.
  - reflexivity.
Defined.

End ChunkWriterFacts.

(** ** Counting the segments of a stream *)

Section SegmentCount.

Import ChunkWriter.

Lemma evict_fits (max total : Z) (buf : list bytes) :
  total <= max -> AudioBuffer.evict max buf total = (buf, total).
Proof.
  intros Hle. destruct buf as [| old rest]; [reflexivity |]. simpl.
  assert ((total >? max) = false) as ->; [| reflexivity].
  rewrite Z.gtb_ltb. apply Z.ltb_ge. exact Hle.
Qed.

(** A read of no more than what is buffered returns exactly that much. *)
Lemma read_loop_exact (buf : list bytes) :
  forall remaining total result buf' total' result',
    0 <= remaining <= Py.len (concat buf) ->
    AudioBuffer.read_loop buf remaining total result = (buf', total', result') ->
    Py.len (concat result') = Py.len (concat result) + remaining
    /\ total' = total - remaining.
Proof.
  induction buf as [| chunk rest IH]; intros remaining total result buf' total' result' Hr H;
    simpl in H.
  - inversion H; subst. unfold Py.len in Hr. simpl in Hr. lia.
  - destruct (remaining >? 0) eqn:Epos.
    + apply Z.gtb_lt in Epos. rewrite len_concat_cons in Hr.
      destruct (Py.len chunk <=? remaining) eqn:Ele.
      * apply Z.leb_le in Ele. apply IH in H; [| lia].
        rewrite concat_app, len_app in H. simpl in H. rewrite app_nil_r in H. lia.
      * apply Z.leb_gt in Ele. inversion H; subst.
        rewrite concat_app, len_app. simpl. rewrite app_nil_r.
        rewrite len_slice_to by lia. lia.
    + rewrite Z.gtb_ltb in Epos. apply Z.ltb_ge in Epos. inversion H; subst. lia.
Qed.

Lemma read_exact (n : Z) (b : AudioBuffer.t) :
  AudioBuffer.consistent b ->
  0 < n <= AudioBuffer._total_bytes b ->
  let b' := fst (AudioBuffer.read (Some n) b) in
  let data := snd (AudioBuffer.read (Some n) b) in
  Py.len data = n
  /\ AudioBuffer._total_bytes b' = AudioBuffer._total_bytes b - n
  /\ AudioBuffer.consistent b'
  /\ AudioBuffer.bytes_per_second b' = AudioBuffer.bytes_per_second b
  /\ AudioBuffer.max_bytes b' = AudioBuffer.max_bytes b.
Proof.
  intros Hc Hn. pose proof (read_consistent (Some n) b Hc) as Hc'.
  unfold AudioBuffer.read in *. unfold AudioBuffer.consistent in Hc.
  destruct (AudioBuffer._buffer b) as [| c r] eqn:Eb.
  - unfold Py.len in Hc. simpl in Hc. lia.
  - destruct (AudioBuffer.read_loop _ _ _ _) as [[buf' total'] result] eqn:Hl.
    apply read_loop_exact in Hl; [| lia]. simpl in *. rewrite len_nil in Hl.
    repeat split; try tauto; lia.
Qed.

(** [secs >= d] for [secs = a / B] and a positive rate. *)
Lemma duration_reached (d a B : Z) (secs : Q) :
  0 < B -> Py.truediv a B = Returned secs ->
  Qle_bool (inject_Z d) secs = (d * B <=? a).
Proof.
  intros HB Hs. unfold Py.truediv in Hs.
  destruct (B =? 0) eqn:E; [apply Z.eqb_eq in E; lia |]. inversion Hs; subst secs.
  assert (HBq : (0 < inject_Z B)%Q).
  { change 0%Q with (inject_Z 0). rewrite <- Zlt_Qlt. exact HB. }
  destruct (d * B <=? a) eqn:Hle.
  - apply Z.leb_le in Hle. apply Qle_bool_iff. apply Qle_shift_div_l; [exact HBq |].
    rewrite <- inject_Z_mult, <- Zle_Qle. exact Hle.
  - apply Z.leb_gt in Hle. apply not_true_is_false. intros Hq.
    apply Qle_bool_iff in Hq.
    assert (H1 : (inject_Z d * inject_Z B <= inject_Z a)%Q).
    { apply (Qmult_le_compat_r _ _ (inject_Z B)) in Hq; [| lra].
      unfold Qdiv in Hq.
      rewrite <- Qmult_assoc, (Qmult_comm (/ _)), Qmult_inv_r, Qmult_1_r in Hq by lra.
      exact Hq. }
    rewrite <- inject_Z_mult, <- Zle_Qle in H1. lia.
Qed.

Lemma int_whole_product (d B : Z) : Py.int (inject_Z d * inject_Z B) = d * B.
Proof. unfold Py.int. simpl. apply Z.quot_1_r. Qed.

(** Where [L] bytes received leave the segmenter, [L + n] bytes do. *)
Lemma div_mod_advance (cb L n : Z) :
  0 < cb -> 0 <= n <= cb ->
  (L mod cb + n < cb ->
     (L + n) / cb = L / cb /\ (L + n) mod cb = L mod cb + n)
  /\ (cb <= L mod cb + n ->
     (L + n) / cb = L / cb + 1 /\ (L + n) mod cb = L mod cb + n - cb).
Proof.
  intros Hcb Hn.
  pose proof (Z.div_mod L cb ltac:(lia)) as HL.
  pose proof (Z.mod_pos_bound L cb Hcb) as Hm.
  split; intros H.
  - assert (Hq : L / cb = (L + n) / cb).
    { apply (Z.div_unique (L + n) cb (L / cb) (L mod cb + n)); lia. }
    assert (Hr : L mod cb + n = (L + n) mod cb).
    { apply (Z.mod_unique (L + n) cb (L / cb) (L mod cb + n)); lia. }
    lia.
  - assert (Hq : L / cb + 1 = (L + n) / cb).
    { apply (Z.div_unique (L + n) cb (L / cb + 1) (L mod cb + n - cb)); lia. }
    assert (Hr : L mod cb + n - cb = (L + n) mod cb).
    { apply (Z.mod_unique (L + n) cb (L / cb + 1) (L mod cb + n - cb)); lia. }
    lia.
Qed.

(** One [write] that does not overflow the buffer: it emits one segment
    if a segment's worth of bytes is then buffered, and none otherwise. *)
Lemma write_running (d B avail idx : Z) (data : bytes) (w : t) :
  0 < d -> 0 < B -> running d B avail idx w ->
  0 <= avail -> avail + Py.len data <= 2 * (d * B) ->
  exists w' r,
    write data w = (w', Returned r)
    /\ if d * B <=? avail + Py.len data
       then is_Some r /\ running d B (avail + Py.len data - d * B) (idx + 1) w'
       else r = None /\ running d B (avail + Py.len data) idx w'.
Proof.
  intros Hd HB (Hrun & HD & Hbps & Hbb & Hmax & Hc & Htot & Hidx) Hav Hfit.
  set (cb := d * B) in *. assert (Hcb : 0 < cb) by (subst cb; nia).
  pose proof (len_nonneg data) as Hn.
  set (b0 := _buffer w) in *.
  set (b1 := AudioBuffer.with_received
               (AudioBuffer.with_data b0 (AudioBuffer._buffer b0 ++ [data])
                  (AudioBuffer._total_bytes b0 + Py.len data))
               (AudioBuffer._total_received_bytes b0 + Py.len data)).
  assert (Hw1 : AudioBuffer.write data b0 = b1).
  { unfold AudioBuffer.write. rewrite evict_fits by lia. reflexivity. }
  assert (Hc1 : AudioBuffer.consistent b1).
  { unfold AudioBuffer.consistent in *. subst b1. simpl.
    rewrite concat_app, len_app. simpl. rewrite app_nil_r. lia. }
  unfold write. rewrite Hrun. cbn [negb]. fold b0. rewrite Hw1.
  cbn [_buffer with_buffer chunk_duration].
  unfold AudioBuffer.available_seconds, AudioBuffer.available_bytes.
  change (AudioBuffer.bytes_per_second b1) with (AudioBuffer.bytes_per_second b0).
  change (AudioBuffer._total_bytes b1) with (AudioBuffer._total_bytes b0 + Py.len data).
  rewrite Hbb.
  destruct (Py.truediv _ B) as [secs | e] eqn:Hs.
  2:{ unfold Py.truediv in Hs. destruct (B =? 0) eqn:E; [apply Z.eqb_eq in E; lia |].
      discriminate. }
  rewrite HD, (duration_reached d _ B secs HB Hs). fold cb. rewrite Htot.
  destruct (cb <=? avail + Py.len data) eqn:Hfull.
  - apply Z.leb_le in Hfull.
    unfold _save_chunk. cbn [_is_running with_buffer negb]. rewrite Hrun. cbn [negb].
    cbn [chunk_duration bytes_per_second _buffer with_buffer]. rewrite HD, Hbps.
    rewrite int_whole_product. fold cb.
    pose proof (read_exact cb b1 Hc1) as Hre.
    change (AudioBuffer._total_bytes b1)
      with (AudioBuffer._total_bytes b0 + Py.len data) in Hre.
    specialize (Hre ltac:(lia)).
    destruct (AudioBuffer.read (Some cb) b1) as [b2 data2]. cbn [fst snd] in Hre.
    destruct Hre as (Hlen2 & Htot2 & Hc2 & Hbb2 & Hmax2).
    destruct data2 as [| x data2']; [unfold Py.len in Hlen2; simpl in Hlen2; lia |].
    cbn [overlap_duration _overlap_data bytes_per_second with_buffer].
    set (frames_ := match _overlap_data w with [] => _ | _ :: _ => _ end).
    set (w2 := if Py.len frames_ >? _ then _ else _).
    assert (Hw2 : _is_running w2 = true /\ chunk_duration w2 = inject_Z d
                  /\ bytes_per_second w2 = B /\ _buffer w2 = b2
                  /\ _chunk_index w2 = _chunk_index w).
    { subst w2. destruct (Py.len frames_ >? _); cbn; tauto. }
    destruct Hw2 as (Hr2 & HD2 & HB2 & Hbuf2 & Hi2).
    unfold build_chunk, Py.truediv. rewrite HB2.
    destruct (B =? 0) eqn:E; [apply Z.eqb_eq in E; lia |].
    eexists; eexists. split; [reflexivity |].
    split; [eexists; reflexivity |].
    unfold running. cbn [with_chunk_index _is_running chunk_duration
                         bytes_per_second _buffer _chunk_index].
    rewrite Hbuf2, Hbb2, Hmax2, Htot2. fold cb.
    change (AudioBuffer.bytes_per_second b1) with (AudioBuffer.bytes_per_second b0).
    change (AudioBuffer.max_bytes b1) with (AudioBuffer.max_bytes b0).
    repeat split; try assumption; lia.
  - apply Z.leb_gt in Hfull.
    eexists; eexists. split; [reflexivity |]. split; [reflexivity |].
    unfold running. cbn [with_buffer _is_running chunk_duration
                         bytes_per_second _buffer _chunk_index]. fold cb.
    change (AudioBuffer.bytes_per_second b1) with (AudioBuffer.bytes_per_second b0).
    change (AudioBuffer.max_bytes b1) with (AudioBuffer.max_bytes b0).
    change (AudioBuffer._total_bytes b1)
      with (AudioBuffer._total_bytes b0 + Py.len data).
    repeat split; try assumption; lia.
Qed.

Lemma write_streaming (d B L : Z) (data : bytes) (w : t) :
  0 < d -> 0 < B -> streaming d B L w -> Py.len data <= d * B ->
  exists w' r,
    write data w = (w', Returned r)
    /\ streaming d B (L + Py.len data) w'
    /\ match r with Some _ => 1 | None => 0 end
       = (L + Py.len data) / (d * B) - L / (d * B).
Proof.
  intros Hd HB Hs Hlen. unfold streaming in *.
  set (cb := d * B) in *. assert (Hcb : 0 < cb) by (subst cb; nia).
  pose proof (len_nonneg data) as Hn.
  pose proof (Z.mod_pos_bound L cb Hcb) as Hm.
  destruct (div_mod_advance cb L (Py.len data) Hcb ltac:(lia)) as [Hstay Hnext].
  destruct (write_running d B _ _ data w Hd HB Hs ltac:(lia) ltac:(fold cb; lia))
    as (w' & r & Hw & Hcase).
  fold cb in Hcase. exists w', r. split; [exact Hw |].
  destruct (cb <=? L mod cb + Py.len data) eqn:Hfull.
  - apply Z.leb_le in Hfull. destruct (Hnext Hfull) as [Hq Hr].
    destruct Hcase as [[em ->] Hrun]. rewrite Hq, Hr. split; [exact Hrun | lia].
  - apply Z.leb_gt in Hfull. destruct (Hstay Hfull) as [Hq Hr].
    destruct Hcase as [-> Hrun]. rewrite Hq, Hr. split; [exact Hrun | lia].
Qed.

Lemma non_final_count_app (l1 l2 : list event) :
  non_final_count (l1 ++ l2) = non_final_count l1 + non_final_count l2.
Proof. unfold non_final_count. rewrite List.filter_app. apply len_app. Qed.

Lemma run_writes_streaming (d B : Z) (blocks : list bytes) :
  0 < d -> 0 < B ->
  Forall (fun data => Py.len data <= d * B) blocks ->
  forall L w, streaming d B L w ->
    exists w' log,
      run (List.map Write blocks) w = (w', log)
      /\ streaming d B (L + Py.len (concat blocks)) w'
      /\ non_final_count log = (L + Py.len (concat blocks)) / (d * B) - L / (d * B)
      /\ no_exception log = true.
Proof.
  intros Hd HB Hall. induction Hall as [| data blocks Hdata Hrest IH]; intros L w Hw.
  - exists w, []. simpl. unfold Py.len at 1 2. simpl. rewrite Z.add_0_r.
    split; [reflexivity |]. split; [exact Hw |]. split; [| reflexivity].
    unfold non_final_count. simpl. unfold Py.len. simpl. lia.
  - destruct (write_streaming d B L data w Hd HB Hw Hdata) as (w1 & r & Hwr & Hs1 & Hcount).
    destruct (IH _ _ Hs1) as (w2 & log2 & Hrun & Hs2 & Hcount2 & Hex2).
    exists w2, (log_of false (Returned r) ++ log2).
    simpl. rewrite Hwr, Hrun. split; [reflexivity |].
    rewrite len_app, Z.add_assoc. split; [exact Hs2 |].
    rewrite non_final_count_app. split.
    + rewrite Hcount2. destruct r; unfold non_final_count, Py.len in *; simpl in *; lia.
    + unfold no_exception in *. rewrite forallb_app, Hex2. destruct r; reflexivity.
Qed.

Lemma start_streaming (d : Z) (now : Q) (w : t) :
  chunk_duration w = inject_Z d ->
  AudioBuffer.bytes_per_second (_buffer w) = bytes_per_second w ->
  AudioBuffer.max_bytes (_buffer w) = 2 * (d * bytes_per_second w) ->
  0 < d * bytes_per_second w ->
  streaming d (bytes_per_second w) 0 (start now w).
Proof.
  intros HD Hbb Hmax Hpos. unfold streaming, running, start. simpl.
  rewrite Zmod_0_l, Zdiv_0_l.
  repeat split; try assumption; reflexivity.
Qed.

Lemma stop_running (d B avail idx : Z) (w : t) :
  0 < B -> running d B avail idx w -> exists w' r, stop w = (w', Returned r).
Proof.
  intros HB (Hrun & HD & Hbps & _). unfold stop. rewrite Hrun. cbn [negb].
  destruct (AudioBuffer.read _ _) as [buf data].
  destruct data as [| x data']; [eexists; eexists; reflexivity |].
  unfold build_chunk, Py.truediv. cbn [bytes_per_second with_buffer with_is_running].
  rewrite Hbps. destruct (B =? 0) eqn:E; [apply Z.eqb_eq in E; lia |].
  eexists; eexists; reflexivity.
Qed.

Lemma init_buffer_capacity (config : Config.AudioConfig) (mid : Z)
    (sample_rate channels : option Z) (D O : option Q) (d : Z) :
  let w0 := init config mid sample_rate channels D O in
  chunk_duration w0 = inject_Z d ->
  AudioBuffer.max_bytes (_buffer w0) = 2 * (d * bytes_per_second w0).
Proof.
  intros w0 HD. subst w0. unfold init in *.
  cbn [chunk_duration _buffer bytes_per_second AudioBuffer.init AudioBuffer.max_bytes] in *.
  rewrite HD. unfold Py.int. simpl. rewrite Z.quot_1_r. lia.
Qed.

Lemma Qfloor_ratio (a b : Z) : 0 < b -> Qfloor (inject_Z a / inject_Z b) = a / b.
Proof.
  intros Hb. destruct b as [| p | p]; try lia.
  rewrite <- Qmake_Qdiv. reflexivity.
Qed.

(** C2, amended. With segment duration 60 s (any overlap, any positive
    byte rate), if every [write] between [start()] and [stop()] carries
    at most one segment's worth of audio (at most 60 s), then no call
    raises and the number of non-final segments is [floor(T / 60)] for
    the total duration [T] of the stream, however the stream is split
    into such calls. *)
Theorem non_final_segments_of_bounded_writes (config : Config.AudioConfig) (mid : Z)
    (sample_rate channels : option Z) (D O : option Q) (now : Q)
    (blocks : list bytes) :
  let w0 := init config mid sample_rate channels D O in
  let B := bytes_per_second w0 in
  chunk_duration w0 = 60%Q ->
  0 < B ->
  Forall (fun data => Py.len data <= 60 * B) blocks ->
  let log := snd (run (Start now :: List.map Write blocks ++ [Stop]) w0) in
  let T := (inject_Z (Py.len (concat blocks)) / inject_Z B)%Q in
  non_final_count log = Qfloor (T / 60)
  /\ no_exception log = true.
Proof.
  intros w0 B HD HB Hall log T.
  assert (Hs0 : streaming 60 B 0 (start now w0)).
  { apply start_streaming; [exact HD | reflexivity | | fold B; lia].
    apply (init_buffer_capacity config mid sample_rate channels D O 60 HD). }
  destruct (run_writes_streaming 60 B blocks ltac:(lia) HB Hall 0 _ Hs0)
    as (w1 & log1 & Hrun & Hs1 & Hcount & Hex).
  destruct (stop_running 60 B _ _ w1 HB Hs1) as (w2 & r & Hstop).
  assert (Hlog : log = log1 ++ log_of true (Returned r)).
  { subst log. cbn [run exec]. 
    assert (Happ : forall cs1 cs2 w, run (cs1 ++ cs2) w
              = let '(wa, la) := run cs1 w in
                let '(wb, lb) := run cs2 wa in (wb, la ++ lb)).
    { induction cs1 as [| c cs1 IHc]; intros cs2 w; simpl.
      - destruct (run cs2 w); reflexivity.
      - destruct (exec c w) as [wx lx]. rewrite IHc.
        destruct (run cs1 wx) as [wa la]. destruct (run cs2 wa) as [wb lb].
        rewrite app_assoc. reflexivity. }
    rewrite Happ, Hrun. cbn [run exec]. rewrite Hstop. simpl.
    rewrite app_nil_r. reflexivity. }
  rewrite Hlog. rewrite non_final_count_app. unfold no_exception in *.
  rewrite forallb_app, Hex. split.
  - rewrite Hcount, Z.add_0_l, Zdiv_0_l.
    assert (HT : (T / 60 == inject_Z (Py.len (concat blocks)) / inject_Z (60 * B))%Q).
    { subst T. rewrite inject_Z_mult.
      assert (~ inject_Z B == 0)%Q.
      { change 0%Q with (inject_Z 0). rewrite inject_Z_injective. lia. }
      change (inject_Z 60) with 60%Q. field. exact H. }
    rewrite HT, Qfloor_ratio by lia.
    destruct r; unfold non_final_count, Py.len; simpl; lia.
  - destruct r; reflexivity.
Qed.

Lemma non_final_segments_of_bounded_writes_witness :
  let w0 := init Config.default 1 (Some 1) None None None in
  let blocks := [repeat "000"%byte 100; repeat "000"%byte 100; repeat "000"%byte 50] in
  let log := snd (run (Start 0 :: List.map Write blocks ++ [Stop]) w0) in
  let T := (inject_Z (Py.len (concat blocks)) / inject_Z (bytes_per_second w0))%Q in
  non_final_count log = Qfloor (T / 60)
  /\ no_exception log = true.
Proof.
  apply (non_final_segments_of_bounded_writes Config.default 1 (Some 1) None None None 0
           [repeat "000"%byte 100; repeat "000"%byte 100; repeat "000"%byte 50]).
  - reflexivity.
  - reflexivity.
  - repeat (constructor; [vm_compute; discriminate |]). constructor.
Defined.

(** C2 as stated fails. At 1 Hz mono (2 bytes per second) with D = 60 s
    and O = 0.5 s, a stream of 120 s handed over in one [write] yields a
    single non-final segment, where [floor(T / D)] is 2; the same stream
    in two writes of 60 s yields two. *)
Lemma non_final_segments_counterexample :
  let w0 := init Config.default 1 (Some 1) None None None in
  let log_of blocks := snd (run (Start 0 :: List.map Write blocks ++ [Stop]) w0) in
  let T := (inject_Z 240 / inject_Z (bytes_per_second w0))%Q in
  chunk_duration w0 = 60%Q
  /\ overlap_duration w0 = (1 # 2)%Q
  /\ Qfloor (T / 60) = 2
  /\ non_final_count (log_of [repeat "000"%byte 240]) = 1
  /\ non_final_count (log_of [repeat "000"%byte 240]) <> Qfloor (T / 60)
  /\ non_final_count (log_of [repeat "000"%byte 120; repeat "000"%byte 120]) = 2.
Proof.
  vm_compute. repeat split; discriminate.
Qed.

(** The counterexample does not depend on the byte rate: at any rate (the
    default 16 kHz mono included), a stream of 120 s handed over in one
    [write] gives one non-final segment, where [floor(T / 60)] is 2. *)
Lemma one_write_of_two_segments (config : Config.AudioConfig) (mid : Z)
    (sample_rate channels : option Z) (D O : option Q) (now : Q) (data : bytes) :
  let w0 := init config mid sample_rate channels D O in
  let B := bytes_per_second w0 in
  chunk_duration w0 = 60%Q ->
  0 < B ->
  Py.len data = 2 * (60 * B) ->
  let log := snd (run [Start now; Write data; Stop] w0) in
  let T := (inject_Z (Py.len data) / inject_Z B)%Q in
  non_final_count log = 1 /\ Qfloor (T / 60) = 2.
Proof.
  intros w0 B HD HB Hlen log T.
  assert (Hs0 : running 60 B 0 0 (start now w0)).
  { pose proof (start_streaming 60 now w0 HD eq_refl
                  (init_buffer_capacity config mid sample_rate channels D O 60 HD)
                  ltac:(fold B; lia)) as H.
    unfold streaming in H. rewrite Zmod_0_l, Zdiv_0_l in H. exact H. }
  destruct (write_running 60 B 0 0 data _ ltac:(lia) HB Hs0 ltac:(lia) ltac:(lia))
    as (w1 & r & Hw & Hcase).
  assert (Hfull : (60 * B <=? 0 + Py.len data) = true) by (apply Z.leb_le; lia).
  rewrite Hfull in Hcase. destruct Hcase as [[em ->] Hrun1].
  destruct (stop_running 60 B _ _ w1 HB Hrun1) as (w2 & r2 & Hstop).
  split.
  - subst log. cbn [run exec]. rewrite Hw, Hstop. cbn [log_of snd].
    destruct r2; reflexivity.
  - assert (HT : (T / 60 == inject_Z (Py.len data) / inject_Z (60 * B))%Q).
    { subst T. rewrite inject_Z_mult.
      assert (~ inject_Z B == 0)%Q.
      { change 0%Q with (inject_Z 0). rewrite inject_Z_injective. lia. }
      change (inject_Z 60) with 60%Q. field. exact H. }
    rewrite HT, Qfloor_ratio, Hlen by lia.
    apply Z.div_mul. lia.
Qed.

End SegmentCount.

(** ** Transcript merge engine *)

Section TranscriptMergerFacts.

Import Asr TranscriptMerger.

Lemma insert_by_start_perm (x : TranscriptSegment) (l : list TranscriptSegment) :
  Permutation (x :: l) (insert_by_start x l).
Proof.
  induction l as [| y l IH]; simpl; [reflexivity |].
  destruct (Py.Qltb (start_time y) (start_time x)); [| reflexivity].
  rewrite perm_swap. apply perm_skip, IH.
Qed.

Lemma sorted_by_start_perm (l : list TranscriptSegment) :
  Permutation l (sorted_by_start l).
Proof.
  induction l as [| x l IH]; simpl; [reflexivity |].
  rewrite <- insert_by_start_perm. apply perm_skip, IH.
Qed.

Lemma insert_by_start_sorted (x : TranscriptSegment) (l : list TranscriptSegment) :
  StronglySorted by_start l -> StronglySorted by_start (insert_by_start x l).
Proof.
  induction 1 as [| y l Hs IH Hall]; simpl; [repeat constructor |].
  destruct (Py.Qltb (start_time y) (start_time x)) eqn:E.
  - apply Qltb_lt in E. constructor; [exact IH |].
    apply (Permutation_Forall (insert_by_start_perm x l)).
    constructor; [unfold by_start; lra | exact Hall].
  - apply Qltb_ge in E. constructor; [constructor; assumption |].
    constructor; [exact E |].
    revert Hall. apply List.Forall_impl. unfold by_start. intros z Hz. lra.
Qed.

Lemma sorted_by_start_sorted (l : list TranscriptSegment) :
  StronglySorted by_start (sorted_by_start l).
Proof.
  induction l as [| x l IH]; simpl; [constructor |].
  apply insert_by_start_sorted, IH.
Qed.

(** The sort is stable: spans that start at the same time keep their
    relative order. *)
Lemma insert_by_start_stable (k : Q) (x : TranscriptSegment) (l : list TranscriptSegment) :
  List.filter (starts_at k) (insert_by_start x l) = List.filter (starts_at k) (x :: l).
Proof.
  induction l as [| y l IH]; [reflexivity |]. simpl insert_by_start.
  destruct (Py.Qltb (start_time y) (start_time x)) eqn:E; [| reflexivity].
  apply Qltb_lt in E. simpl in *. rewrite IH.
  destruct (starts_at k x) eqn:Ex; [| reflexivity].
  destruct (starts_at k y) eqn:Ey; [| reflexivity].
  unfold starts_at in *. apply Qeq_bool_iff in Ex, Ey. exfalso. lra.
Qed.

Lemma sorted_by_start_stable (k : Q) (l : list TranscriptSegment) :
  List.filter (starts_at k) (sorted_by_start l) = List.filter (starts_at k) l.
Proof.
  induction l as [| x l IH]; [reflexivity |]. simpl sorted_by_start.
  rewrite insert_by_start_stable. simpl. rewrite IH. reflexivity.
Qed.

Lemma last_default_irrelevant {A} (l : list A) (a d d' : A) :
  List.last (a :: l) d = List.last (a :: l) d'.
Proof.
  revert a. induction l as [| b l IH]; intros a; [reflexivity |].
  change (List.last (a :: b :: l) d) with (List.last (b :: l) d).
  change (List.last (a :: b :: l) d') with (List.last (b :: l) d').
  apply IH.
Qed.

Lemma span_of_first_last (l : list TranscriptSegment) :
  span_of l = match l with
              | [] => 0%Q
              | first :: _ => (end_time (List.last l first) - start_time first)%Q
              end.
Proof.
  unfold span_of. destruct l as [| first rest]; [reflexivity |].
  assert (H : forall (l : list TranscriptSegment) d,
             List.last (List.map Some (d :: l)) None = Some (List.last (d :: l) d)).
  { induction l as [| y l IH]; intros d; [reflexivity |].
    change (List.last (List.map Some (d :: y :: l)) None)
      with (List.last (List.map Some (y :: l)) None).
    change (List.last (d :: y :: l) d) with (List.last (y :: l) d).
    rewrite IH. f_equal. apply last_default_irrelevant. }
  rewrite H. reflexivity.
Qed.

(** C9. Whatever spans the merger has accepted, [get_merged_result()]
    returns exactly those spans, sorted by start time (stably: spans with
    equal start times stay in insertion order); its full text is the
    concatenation of the span texts in that sorted order; its duration is
    the end time of the last span minus the start time of the first span
    of the sorted sequence, and 0 when there is no span. *)
Theorem merged_result_is_sorted (m : TranscriptMerger.t) :
  let r := get_merged_result m in
  Permutation (_segments m) (segments r)
  /\ StronglySorted by_start (segments r)
  /\ (forall k, List.filter (starts_at k) (segments r)
                = List.filter (starts_at k) (_segments m))
  /\ full_text r = concat (List.map text_ (segments r))
  /\ duration r = match segments r with
                  | [] => 0%Q
                  | first :: _ =>
                      (end_time (List.last (segments r) first) - start_time first)%Q
                  end.
Proof.
  simpl. split; [apply sorted_by_start_perm |].
  split; [apply sorted_by_start_sorted |].
  split; [intros k; apply sorted_by_start_stable |].
  split; [reflexivity | apply span_of_first_last].
Qed.

(** The order of the result is the sorted one, not the insertion order. *)
Example merged_result_reorders :
  let m := add_result (single (span 0 1 "b")) (add_result (single (span 5 6 "a")) (init (1 # 2))) in
  List.map start_time (_segments m) = [5%Q; 0%Q]
  /\ full_text (get_merged_result m) = text_of "ba"
  /\ duration (get_merged_result m) = (6 - 0)%Q.
Proof. vm_compute. repeat split. Qed.

(** C1 as stated fails: the two "hello there" spans overlap by 0.2 s
    only, which does not exceed the threshold of 0.5 s, so the second one
    is kept and the merged transcript has two spans, not one. *)
Lemma hello_there_counterexample :
  let a := span 0 2 "hello there" in
  let b := span (18 # 10) (35 # 10) "hello there" in
  let merged := merge_transcripts [single a; single b] default_overlap_threshold in
  Py.len (segments merged) = 2
  /\ Py.len (segments merged) <> 1
  /\ Py.len (segments (merge_transcripts
                         [{| segments := [a; b]; full_text := []; duration := 0;
                             language := None |}] default_overlap_threshold)) = 2.
Proof. vm_compute. repeat split; discriminate. Qed.

(** C1, amended. From an empty merger with the default thresholds, adding
    (0.0, 2.0, "hello there") and then (1.8, 3.5, "hello there") yields a
    merged transcript of two spans: their overlap is 0.2 s, not more than
    0.5 s. Adding (0.0, 2.0, "hello") and then (5.0, 7.0, "hello") yields
    two spans as well. *)
Theorem hello_examples :
  let a := span 0 2 "hello there" in
  let b := span (18 # 10) (35 # 10) "hello there" in
  let c := span 0 2 "hello" in
  let d := span 5 7 "hello" in
  (_calculate_time_overlap a b == 2 # 10)%Q
  /\ Py.Qltb default_overlap_threshold (_calculate_time_overlap a b) = false
  /\ Py.len (segments (merge_transcripts [single a; single b]
                         default_overlap_threshold)) = 2
  /\ Py.len (segments (merge_transcripts [single c; single d]
                         default_overlap_threshold)) = 2.
Proof. vm_compute. repeat split. Qed.

End TranscriptMergerFacts.

(** ** Recording lifecycle controller *)

Section RecordingEngineFacts.

Import RecordingEngine.

Variable config : Config.AudioConfig.

Lemma start_settled (ok : bool) (now_writer now : Q) (mid : Z) (e : t) (w : world) :
  settled e -> settled (fst (fst (start config ok now_writer now mid e w))).
Proof.
  unfold start, settled. destruct (_state e) eqn:Es; simpl; try tauto.
  - destruct ok; simpl; [split; discriminate | reflexivity].
  - rewrite Es. tauto.
  - rewrite Es. tauto.
Qed.

Lemma audio_settled (data : bytes) (e : t) (w : world) :
  settled e -> settled (fst (fst (_handle_audio_data data e w))).
Proof.
  unfold _handle_audio_data, settled.
  destruct (_chunk_writer e) as [cw |] eqn:Ecw; [| simpl; rewrite Ecw; tauto].
  destruct (_state e) eqn:Es; simpl; try rewrite Es; try rewrite Ecw; try tauto.
  destruct (ChunkWriter.write data cw) as [cw' r]. simpl. rewrite Es.
  intros [Ht _]. split; [exact Ht | discriminate].
Qed.

Lemma stop_releases (e : t) (w : world) :
  _state e = RECORDING ->
  _state (fst (fst (stop e w))) = STOPPED
  /\ _chunk_writer (fst (fst (stop e w))) = None
  /\ _capture (fst (fst (stop e w))) = None.
Proof.
  intros Es. unfold stop. rewrite Es. simpl.
  destruct (stop_body _ _) as [[[e1 w1] d] raised]. simpl. tauto.
Qed.

Lemma stop_elsewhere (e : t) (w : world) :
  _state e <> RECORDING -> stop e w = (e, w, 0%Q).
Proof.
  intros Es. unfold stop. destruct (_state e); simpl; congruence.
Qed.

Lemma stop_settled (e : t) (w : world) :
  settled e -> settled (fst (fst (stop e w))).
Proof.
  intros Hs. destruct (_state e) eqn:Es;
    try (rewrite stop_elsewhere by congruence; exact Hs).
  destruct (stop_releases e w Es) as (H1 & H2 & _).
  unfold settled. rewrite H1. exact H2.
Qed.

Lemma reset_settled (e : t) (w : world) : settled e -> settled (fst (reset e w)).
Proof.
  unfold reset, settled. destruct (_state e) eqn:Es; simpl; try rewrite Es; tauto.
Qed.

Lemma exec_settled (c : call) (e : t) (w : world) :
  settled e -> settled (fst (exec config c e w)).
Proof.
  destruct c; simpl.
  - apply start_settled.
  - apply audio_settled.
  - apply stop_settled.
  - apply reset_settled.
Qed.

Lemma run_settled (cs : list call) :
  forall e w, settled e -> settled (fst (run config cs e w)).
Proof.
  induction cs as [| c cs IH]; intros e w Hs; simpl; [exact Hs |].
  pose proof (exec_settled c e w Hs) as H1.
  destruct (exec config c e w) as [e1 w1]. apply IH. exact H1.
Qed.

(** C3, amended. After any run of calls on a new engine: while the
    state is Recording the elapsed-time query returns the clock reading
    minus the session start time; in every other state the engine has
    between calls (Idle, and Stopped once [stop()] has completed) no
    segmenter is held and the query returns 0. In any state other than
    Recording the query returns the segmenter's cumulative duration
    exactly when a segmenter is held, which is the case only inside
    [start()] and [stop()]. [stop()] from Recording ends in Stopped with
    the segmenter released, so the query returns 0 afterwards. *)
Theorem elapsed_seconds_by_state (cs : list call) (w0 w : world) (now : Q) :
  let e := fst (run config cs init w0) in
  match _state e with
  | RECORDING =>
      (exists t0, _start_time e = Some t0
                  /\ get_elapsed_seconds now e = Returned (now - t0)%Q)
      /\ _state (fst (fst (stop e w))) = STOPPED
      /\ _chunk_writer (fst (fst (stop e w))) = None
      /\ get_elapsed_seconds now (fst (fst (stop e w))) = Returned 0%Q
  | _ =>
      _chunk_writer e = None /\ get_elapsed_seconds now e = Returned 0%Q
  end
  /\ forall e0 : t,
       match _state e0 with
       | RECORDING => True
       | _ =>
           get_elapsed_seconds now e0
           = match _chunk_writer e0 with
             | Some cw => ChunkWriter.get_total_duration cw
             | None => Returned 0%Q
             end
       end.
Proof.
  intros e. split.
  - assert (Hs : settled e) by (apply run_settled; reflexivity).
    unfold settled in Hs. unfold get_elapsed_seconds.
    destruct (_state e) eqn:Es; try contradiction.
    + rewrite Hs. simpl. destruct (_start_time e); tauto.
    + destruct Hs as [Ht _]. destruct (stop_releases e w Es) as (H1 & H2 & _).
      rewrite H1, H2. simpl.
      destruct (_start_time e) as [t0 |]; [| congruence].
      split; [exists t0; tauto |].
      destruct (_start_time (fst (fst (stop e w)))); tauto.
    + rewrite Hs. simpl. destruct (_start_time e); tauto.
  - intros e0. unfold get_elapsed_seconds.
    destruct (_state e0); simpl; try exact I; destruct (_start_time e0); reflexivity.
Qed.

(** C3 as stated fails in Stopped. With the default configuration, a
    session that received 10 ms of audio (320 bytes) and was then
    stopped: [stop()] reports the segmenter's cumulative duration, 0.01 s,
    but the engine has released the segmenter, and the elapsed-time query
    in state Stopped returns 0, not 0.01. *)
Lemma elapsed_after_stop_counterexample :
  let cs := [Start true 100 100 7; Audio (repeat "000"%byte 320)] in
  let e := fst (run Config.default cs init empty_world) in
  let w := snd (run Config.default cs init empty_world) in
  let e' := fst (fst (stop e w)) in
  let reported := snd (stop e w) in
  _state e = RECORDING
  /\ (exists cw q, _chunk_writer e = Some cw
                   /\ ChunkWriter.get_total_duration cw = Returned q
                   /\ (q == 1 # 100)%Q)
  /\ _state e' = STOPPED
  /\ (reported == 1 # 100)%Q
  /\ get_elapsed_seconds 105 e' = Returned 0%Q
  /\ get_elapsed_seconds 105 e' <> Returned reported.
Proof.
  vm_compute. split; [reflexivity |].
  split; [eexists; eexists; split; [reflexivity | split; reflexivity] |].
  repeat split; discriminate.
Qed.

End RecordingEngineFacts.

(** ** Processing pipeline *)

Section PipelineFacts.

Import Pipeline.

Variable P : providers.

(** C6. A [process] call on a pipeline whose state is Transcribing,
    Merging or Generating returns failure at once and changes nothing:
    the pipeline object (state and current meeting identifier), the
    database (so every persisted meeting status) and the events (no
    callback, no provider call) are as before. *)
Theorem process_rejected_while_busy (meeting_id : Z)
    (audio_urls : option (list string)) (p : t) (w : world) :
  _state p = TRANSCRIBING \/ _state p = MERGING \/ _state p = GENERATING ->
  process P meeting_id audio_urls p w = (p, w, false)
  /\ (let '(p', w', ok) := process P meeting_id audio_urls p w in
      ok = false
      /\ _state p' = _state p
      /\ _current_meeting_id p' = _current_meeting_id p
      /\ (forall id, Db.status <$> Db.get_by_id id (db w')
                     = Db.status <$> Db.get_by_id id (db w))
      /\ events w' = events w).
Proof.
  intros Hbusy.
  assert (H : process P meeting_id audio_urls p w = (p, w, false)).
  { unfold process. destruct Hbusy as [-> | [-> | ->]]; reflexivity. }
  rewrite H. repeat split.
Qed.

(** The generation stage on a transcript without spans, step by step. *)
Lemma generate_minutes_empty (meeting_id : Z) (transcript : Asr.TranscriptResult)
    (p : t) (w : world) :
  Asr.segments transcript = [] ->
  _generate_minutes P meeting_id transcript (p, w)
  = ((p, {| db := Db.save_minutes meeting_id no_content_summary "[]" "[]" "[]" (db w);
            events := events w ++ [Progress (7 # 10) (Text "正在生成会议纪要...")] |}),
     Returned tt).
Proof.
  intros Hseg.
  unfold _generate_minutes, bind, _report_progress, emit, read_db, on_db.
  cbn beta iota. rewrite Hseg. reflexivity.
Qed.

(** C7. The generation stage entered with a merged transcript of zero
    spans, for a meeting that has a row: it returns normally, the minutes
    persisted for the meeting are the "no content" placeholder with the
    decisions, action items and topics all the empty sequence (and the
    status "done"), its only event is the progress report, and it makes no
    call of the generation provider. *)
Theorem generation_stage_on_empty_transcript (meeting_id : Z)
    (transcript : Asr.TranscriptResult) (m : Db.Meeting) (p : t) (w : world) :
  Asr.segments transcript = [] ->
  Db.get_by_id meeting_id (db w) = Some m ->
  let '((p', w'), r) := _generate_minutes P meeting_id transcript (p, w) in
  r = Returned tt
  /\ p' = p
  /\ (exists m', Db.get_by_id meeting_id (db w') = Some m'
                 /\ has_placeholder_minutes m'
                 /\ Db.summary m' = Some "（无转写内容）"%string
                 /\ Db.status m' = "done"%string)
  /\ events w' = events w ++ [Progress (7 # 10) (Text "正在生成会议纪要...")]
  /\ generation_calls w' = generation_calls w.
Proof.
  intros Hseg Hm. rewrite (generate_minutes_empty _ _ _ _ Hseg). cbn [db events].
  split; [reflexivity |]. split; [reflexivity |]. split.
  - exists (Db.set_minutes no_content_summary "[]" "[]" "[]" (Db.set_status "done" m)).
    unfold Db.get_by_id, Db.save_minutes, Db.update in *. cbn [Db.meetings Db.with_meetings].
    rewrite lookup_alter_eq, Hm. repeat split.
  - split; [reflexivity |].
    unfold generation_calls. cbn [events]. rewrite List.filter_app. simpl.
    apply app_nil_r.
Qed.

End PipelineFacts.

Section PipelineExamples.

Import Pipeline.

Lemma process_rejected_while_busy_witness :
  let p := {| _state := TRANSCRIBING; _current_meeting_id := Some 7 |} in
  let w := sample_world "processing" in
  process sample_providers 7 None p w = (p, w, false)
  /\ (let '(p', w', ok) := process sample_providers 7 None p w in
      ok = false
      /\ _state p' = _state p
      /\ _current_meeting_id p' = _current_meeting_id p
      /\ (forall id, Db.status <$> Db.get_by_id id (db w')
                     = Db.status <$> Db.get_by_id id (db w))
      /\ events w' = events w).
Proof.
  apply (process_rejected_while_busy sample_providers 7 None
           {| _state := TRANSCRIBING; _current_meeting_id := Some 7 |}
           (sample_world "processing")).
  left. reflexivity.
Defined.

Lemma generation_stage_on_empty_transcript_witness :
  let w := sample_world "processing" in
  let '((p', w'), r) := _generate_minutes sample_providers 7 empty_result (init, w) in
  r = Returned tt
  /\ p' = init
  /\ (exists m', Db.get_by_id 7 (db w') = Some m'
                 /\ has_placeholder_minutes m'
                 /\ Db.summary m' = Some "（无转写内容）"%string
                 /\ Db.status m' = "done"%string)
  /\ events w' = events w ++ [Progress (7 # 10) (Text "正在生成会议纪要...")]
  /\ generation_calls w' = generation_calls w.
Proof.
  apply (generation_stage_on_empty_transcript sample_providers 7 empty_result
           (sample_meeting "processing") init (sample_world "processing")).
  - reflexivity.
  - vm_compute. reflexivity.
Defined.

End PipelineExamples.

(** * Further properties *)

(** ** Ring buffer: reads, peeks and counters *)

Section AudioBufferReads.

Import AudioBuffer.

Lemma read_loop_front (buf : list bytes) :
  forall remaining total result buf' total' result',
    read_loop buf remaining total result = (buf', total', result') ->
    concat result' = concat result ++ firstn (Z.to_nat remaining) (concat buf)
    /\ concat buf' = skipn (Z.to_nat remaining) (concat buf).
Proof.
  induction buf as [| chunk rest IH]; intros remaining total result buf' total' result' H;
    simpl in H.
  - inversion H; subst. simpl. rewrite firstn_nil, skipn_nil, app_nil_r. tauto.
  - destruct (remaining >? 0) eqn:Epos.
    + apply Z.gtb_lt in Epos.
      destruct (Py.len chunk <=? remaining) eqn:Ele.
      * apply Z.leb_le in Ele. apply IH in H. destruct H as [H1 H2].
        assert (Hn : Z.to_nat (remaining - Py.len chunk)
                     = (Z.to_nat remaining - length chunk)%nat).
        { unfold Py.len. lia. }
        assert (Hl : (length chunk <= Z.to_nat remaining)%nat).
        { unfold Py.len in Ele. lia. }
        rewrite Hn in H1, H2. simpl concat.
        rewrite firstn_app, skipn_app, (firstn_all2 chunk Hl), (skipn_all2 chunk Hl).
        split; [| exact H2].
        rewrite H1, concat_app. simpl. rewrite app_nil_r, <- app_assoc. reflexivity.
      * apply Z.leb_gt in Ele. inversion H; subst. simpl concat.
        assert (Hz : (Z.to_nat remaining - length chunk)%nat = 0%nat).
        { unfold Py.len in Ele. lia. }
        rewrite firstn_app, skipn_app, Hz. simpl. rewrite app_nil_r.
        unfold Py.slice_to, Py.slice_from.
        assert ((remaining <? 0) = false) as -> by (apply Z.ltb_ge; lia).
        split; [| reflexivity].
        rewrite concat_app. simpl. rewrite app_nil_r. reflexivity.
    + rewrite Z.gtb_ltb in Epos. apply Z.ltb_ge in Epos. inversion H; subst.
      assert (Z.to_nat remaining = 0%nat) as -> by lia.
      simpl. rewrite app_nil_r. tauto.
Qed.

Lemma read_front (n : Z) (b : t) :
  snd (read (Some n) b) = firstn (Z.to_nat n) (content b)
  /\ content (fst (read (Some n) b)) = skipn (Z.to_nat n) (content b).
Proof.
  unfold read, content. destruct (_buffer b) as [| c r] eqn:Eb.
  - simpl. rewrite Eb. simpl. rewrite firstn_nil, skipn_nil. tauto.
  - destruct (read_loop _ _ _ _) as [[buf' total'] result] eqn:Hl.
    apply read_loop_front in Hl. simpl in *. tauto.
Qed.

Lemma read_keeps_settings (n : option Z) (b : t) :
  max_bytes (fst (read n b)) = max_bytes b
  /\ bytes_per_second (fst (read n b)) = bytes_per_second b
  /\ _total_received_bytes (fst (read n b)) = _total_received_bytes b.
Proof.
  unfold read. destruct (_buffer b); [tauto |].
  destruct n; [destruct (read_loop _ _ _ _) as [[? ?] ?] |]; simpl; tauto.
Qed.

(** X1. In any state the buffer can reach, [read(n)] returns the first
    [n] bytes of what is buffered (all of it when fewer are there, nothing
    when [n] is not positive) and leaves the rest, in order;
    [available_bytes()] drops by the number of bytes returned and the
    received counter does not move. A short buffer is never an error. *)
Theorem read_takes_front (max_seconds : Q) (sample_rate channels : Z)
    (cs : list call) (n : Z) :
  let b := run cs (init max_seconds sample_rate channels) in
  let b' := fst (read (Some n) b) in
  let data := snd (read (Some n) b) in
  data = firstn (Z.to_nat n) (content b)
  /\ content b' = skipn (Z.to_nat n) (content b)
  /\ Py.len data = Z.min (Z.max 0 n) (available_bytes b)
  /\ available_bytes b' = available_bytes b - Py.len data
  /\ _total_received_bytes b' = _total_received_bytes b.
Proof.
  intros b b' data.
  assert (Hc : consistent b) by (apply run_consistent, init_consistent).
  pose proof (read_consistent (Some n) b Hc) as Hc'. fold b' in Hc'.
  destruct (read_front n b) as [Hd Hr]. fold b' in Hr. fold data in Hd.
  destruct (read_keeps_settings (Some n) b) as (_ & _ & Hrecv). fold b' in Hrecv.
  unfold consistent, available_bytes in *. fold (content b) in Hc. fold (content b') in Hc'.
  assert (Hlen : Py.len data = Z.min (Z.max 0 n) (Py.len (content b))).
  { rewrite Hd. unfold Py.len. rewrite length_firstn. lia. }
  split; [exact Hd |]. split; [exact Hr |]. split; [rewrite Hc; exact Hlen |].
  split; [| exact Hrecv].
  rewrite Hc', Hr, Hc, Hlen. unfold Py.len. rewrite length_skipn. lia.
Qed.

(** X2. For a count that is not negative, [peek(n)] returns exactly the
    bytes that [read(n)] would return, and [peek()] what [read()] would.
    For a negative count the two differ: [read] returns nothing, [peek]
    returns everything but the last [-n] bytes. *)
Theorem peek_agrees_with_read (b : t) (n : Z) :
  0 <= n ->
  peek (Some n) b = snd (read (Some n) b)
  /\ peek None b = snd (read None b)
  /\ forall k, k < 0 ->
       snd (read (Some k) b) = []
       /\ peek (Some k) b
          = firstn (length (content b) - Z.to_nat (- k)) (content b).
Proof.
  intros Hn. split; [| split].
  - destruct (read_front n b) as [-> _]. unfold peek, content, Py.slice_to.
    destruct (_buffer b); [symmetry; apply firstn_nil |].
    assert ((n <? 0) = false) as -> by (apply Z.ltb_ge; lia). reflexivity.
  - unfold peek, read. destruct (_buffer b); reflexivity.
  - intros k Hk. destruct (read_front k b) as [-> _].
    assert (Z.to_nat k = 0%nat) as -> by lia. split; [reflexivity |].
    unfold peek, content, Py.slice_to.
    destruct (_buffer b) as [| c r]; [symmetry; apply firstn_nil |].
    assert ((k <? 0) = true) as -> by (apply Z.ltb_lt; lia).
    f_equal. unfold Py.len. lia.
Qed.

Lemma peek_agrees_with_read_witness :
  let b := write ["c"; "d"]%byte (write ["a"; "b"]%byte (init 1 2 1)) in
  peek (Some 3) b = snd (read (Some 3) b)
  /\ peek None b = snd (read None b)
  /\ forall k, k < 0 ->
       snd (read (Some k) b) = []
       /\ peek (Some k) b
          = firstn (length (content b) - Z.to_nat (- k)) (content b).
Proof.
  apply (peek_agrees_with_read
           (write ["c"; "d"]%byte (write ["a"; "b"]%byte (init 1 2 1))) 3).
  lia.
Defined.

Lemma exec_max_bytes (c : call) (b : t) : max_bytes (exec c b) = max_bytes b.
Proof.
  destruct c; simpl; try reflexivity.
  - apply write_max_bytes.
  - apply read_keeps_settings.
  - apply read_keeps_settings.
Qed.

Lemma read_shrinks (n : option Z) (b : t) :
  consistent b -> _total_bytes (fst (read n b)) <= _total_bytes b.
Proof.
  intros Hc. pose proof (read_consistent n b Hc) as Hc'.
  pose proof (read_split n b) as Hs. unfold consistent in *.
  rewrite Hc, Hc', <- Hs, len_app. pose proof (len_nonneg (snd (read n b))). lia.
Qed.

Lemma exec_bounded (c : call) (b : t) :
  0 <= max_bytes b -> consistent b -> _total_bytes b <= max_bytes b ->
  _total_bytes (exec c b) <= max_bytes b.
Proof.
  intros Hm Hc Hle. destruct c; simpl; try lia.
  - unfold write. destruct (evict _ _ _) as [buf' total'] eqn:He. simpl.
    eapply evict_spec in He.
    2:{ rewrite concat_app, len_app. simpl. rewrite app_nil_r.
        unfold consistent in Hc. rewrite Hc. reflexivity. }
    destruct He as (H1 & _ & [H3 | H3]); [lia | subst; exact Hm].
  - pose proof (read_shrinks num_bytes b Hc). lia.
  - pose proof (read_shrinks (Some (Py.int (seconds * inject_Z (bytes_per_second b))%Q)) b Hc)
      as H. unfold read_seconds. lia.
Qed.

(** X3. With a capacity that is not negative, in every state the buffer
    reaches by any interleaving of writes, reads, peeks, clears and resets,
    [available_bytes()] is the number of bytes held (what a full [read()]
    returns) and lies between 0 and [max_bytes]. *)
Theorem available_bytes_invariant (max_seconds : Q) (sample_rate channels : Z)
    (cs : list call) :
  let b0 := init max_seconds sample_rate channels in
  let b := run cs b0 in
  0 <= max_bytes b0 ->
  available_bytes b = Py.len (snd (read None b))
  /\ 0 <= available_bytes b <= max_bytes b0
  /\ max_bytes b = max_bytes b0.
Proof.
  intros b0 b Hm.
  assert (Hinv : forall cs b1, consistent b1 -> max_bytes b1 = max_bytes b0 ->
                   _total_bytes b1 <= max_bytes b0 ->
                   consistent (run cs b1) /\ max_bytes (run cs b1) = max_bytes b0
                   /\ _total_bytes (run cs b1) <= max_bytes b0).
  { clear cs b. induction cs as [| c cs IH]; intros b1 Hc Hmax Hle; simpl; [tauto |].
    apply IH.
    - apply exec_consistent, Hc.
    - rewrite exec_max_bytes. exact Hmax.
    - rewrite <- Hmax. apply exec_bounded; [rewrite Hmax; exact Hm | exact Hc | lia]. }
  destruct (Hinv cs b0 (init_consistent _ _ _) eq_refl Hm) as (Hc & Hmax & Hle).
  fold b in Hc, Hmax, Hle.
  assert (Hall : snd (read None b) = concat (_buffer b)).
  { unfold read. destruct (_buffer b); reflexivity. }
  unfold available_bytes. rewrite Hall. unfold consistent in Hc.
  split; [exact Hc |]. split; [| exact Hmax].
  pose proof (len_nonneg (concat (_buffer b))). lia.
Qed.

Lemma available_bytes_invariant_witness :
  let b0 := init 1 2 1 in
  let b := run [Write ["a"; "b"; "c"]%byte; Read (Some 1); Write ["d"; "e"]%byte;
                Peek None; Write ["f"]%byte] b0 in
  available_bytes b = Py.len (snd (read None b))
  /\ 0 <= available_bytes b <= max_bytes b0
  /\ max_bytes b = max_bytes b0.
Proof.
  apply (available_bytes_invariant 1 2 1
           [Write ["a"; "b"; "c"]%byte; Read (Some 1); Write ["d"; "e"]%byte;
            Peek None; Write ["f"]%byte]).
  vm_compute. discriminate.
Defined.

Lemma write_all_fits (blocks : list bytes) :
  forall b, consistent b ->
    _total_bytes b + Py.len (concat blocks) <= max_bytes b ->
    content (write_all blocks b) = content b ++ concat blocks
    /\ _total_bytes (write_all blocks b) = _total_bytes b + Py.len (concat blocks).
Proof.
  induction blocks as [| d blocks IH]; intros b Hc Hfit; simpl.
  - rewrite app_nil_r. unfold Py.len; simpl. split; [reflexivity | lia].
  - simpl in Hfit. rewrite len_app in Hfit.
    pose proof (len_nonneg d). pose proof (len_nonneg (concat blocks)).
    assert (Hw : write d b
                 = with_received (with_data b (_buffer b ++ [d]) (_total_bytes b + Py.len d))
                     (_total_received_bytes b + Py.len d)).
    { unfold write. rewrite evict_fits by lia. reflexivity. }
    destruct (IH (write d b)) as [H1 H2].
    + apply write_consistent, Hc.
    + rewrite Hw. simpl. lia.
    + fold (write_all blocks (write d b)). rewrite H1, H2, Hw. unfold content. simpl.
      rewrite concat_app, len_app. simpl. rewrite app_nil_r, <- app_assoc.
      split; [reflexivity | lia].
Qed.

(** X4. Nothing is lost or reordered while the capacity suffices: from
    any reachable state, if the blocks written fit beside what is buffered
    ([available_bytes() + total size <= max_bytes]), the buffer then holds
    the old content followed by the blocks in the order written, and a full
    [read()] returns exactly that. *)
Theorem writes_that_fit_are_kept (max_seconds : Q) (sample_rate channels : Z)
    (cs : list call) (blocks : list bytes) :
  let b := run cs (init max_seconds sample_rate channels) in
  available_bytes b + Py.len (concat blocks) <= max_bytes b ->
  snd (read None (write_all blocks b)) = content b ++ concat blocks
  /\ available_bytes (write_all blocks b) = available_bytes b + Py.len (concat blocks).
Proof.
  intros b Hfit.
  assert (Hc : consistent b) by (apply run_consistent, init_consistent).
  destruct (write_all_fits blocks b Hc Hfit) as [H1 H2].
  split; [| exact H2].
  rewrite <- H1. unfold read, content. destruct (_buffer (write_all blocks b)); reflexivity.
Qed.

Lemma writes_that_fit_are_kept_witness :
  let b := run [Write ["a"; "b"]%byte; Read (Some 1)] (init 2 2 1) in
  let blocks := [["c"]; ["d"; "e"]]%byte in
  snd (read None (write_all blocks b)) = content b ++ concat blocks
  /\ available_bytes (write_all blocks b) = available_bytes b + Py.len (concat blocks).
Proof.
  apply (writes_that_fit_are_kept 2 2 1 [Write ["a"; "b"]%byte; Read (Some 1)]
           [["c"]; ["d"; "e"]]%byte).
  vm_compute. discriminate.
Defined.

(** X5. The received counter counts writes and nothing else: after any
    run of calls on a new buffer it is the total size of the blocks written
    since the last [reset()], whatever was read, cleared or evicted in
    between. *)
Theorem received_counts_writes (max_seconds : Q) (sample_rate channels : Z)
    (cs : list call) :
  _total_received_bytes (run cs (init max_seconds sample_rate channels))
  = written_since_reset cs.
Proof.
  unfold written_since_reset, run.
  change 0 with (_total_received_bytes (init max_seconds sample_rate channels)) at 2.
  generalize (init max_seconds sample_rate channels). 
  induction cs as [| c cs IH]; intros b; simpl; [reflexivity |].
  rewrite IH. f_equal. destruct c; simpl; try reflexivity.
  - unfold write. destruct (evict _ _ _). reflexivity.
  - apply read_keeps_settings.
  - apply read_keeps_settings.
Qed.

End AudioBufferReads.

(** ** Chunk segmenter: sessions, overlap and payload *)

Section ChunkWriterSessions.

Import ChunkWriter.

Lemma same_settings_step (w1 w2 w3 : t) :
  same_settings w1 w2 -> same_settings w2 w3 -> same_settings w1 w3.
Proof. unfold same_settings. intuition congruence. Qed.

Lemma same_settings_overlap_bytes (w w' : t) :
  same_settings w w' -> overlap_bytes w' = overlap_bytes w.
Proof. intros (HD & HO & HB & _). unfold overlap_bytes. rewrite HO, HB. reflexivity. Qed.

(** What [_save_chunk] does, case by case. *)
Lemma save_chunk_effect (w w' : t) (r : outcome (option emission)) :
  coherent w ->
  _save_chunk w = (w', r) ->
  same_settings w w' /\ _is_running w' = _is_running w /\ coherent w'
  /\ ((r = Returned None /\ _chunk_index w' = _chunk_index w
       /\ _overlap_data w' = _overlap_data w
       /\ AudioBuffer.content (_buffer w') = AudioBuffer.content (_buffer w))
      \/ (exists em fresh, r = Returned (Some em) /\ cut_from w em fresh
            /\ _chunk_index w' = _chunk_index w + 1
            /\ _overlap_data w' = carried_overlap (overlap_bytes w) (frames em)
            /\ fresh ++ AudioBuffer.content (_buffer w') = AudioBuffer.content (_buffer w))
      \/ (exists e, r = Raised e /\ bytes_per_second w = 0)).
Proof.
  intros [Hrate Hcons] H. unfold _save_chunk in H.
  destruct (negb (_is_running w)).
  { inversion H; subst. split; [apply same_settings_refl |]. split; [reflexivity |].
    split; [split; assumption |]. left. tauto. }
  pose proof (read_split (Some (Py.int (chunk_duration w * inject_Z (bytes_per_second w))%Q))
                (_buffer w)) as Hsplit.
  pose proof (read_consistent
                (Some (Py.int (chunk_duration w * inject_Z (bytes_per_second w))%Q))
                (_buffer w) Hcons) as Hcons'.
  pose proof (read_keeps_settings
                (Some (Py.int (chunk_duration w * inject_Z (bytes_per_second w))%Q))
                (_buffer w)) as (_ & Hrate' & _).
  destruct (AudioBuffer.read _ _) as [buf data]. cbn [fst snd] in *.
  assert (Hco : coherent (with_buffer w buf)).
  { split; [cbn; congruence | exact Hcons']. }
  destruct data as [| x data'].
  { inversion H; subst. split; [unfold same_settings; cbn; tauto |].
    split; [reflexivity |]. split; [exact Hco |]. left.
    repeat split. cbn. unfold AudioBuffer.content. exact Hsplit. }
  set (fresh := x :: data') in *.
  set (fr := match _overlap_data (with_buffer w buf) with
             | [] => _
             | _ :: _ => _
             end) in H.
  assert (Hframes : fr = _overlap_data w ++ fresh).
  { subst fr. cbn [_overlap_data with_buffer]. destruct (_overlap_data w); reflexivity. }
  clearbody fr. subst fr.
  set (fr := _overlap_data w ++ fresh) in *.
  set (w2 := if Py.len fr >? _ then _ else _) in H.
  assert (Hw2 : same_settings w w2 /\ _chunk_index w2 = _chunk_index w
                /\ _is_running w2 = _is_running w /\ _buffer w2 = buf
                /\ meeting_id w2 = meeting_id w
                /\ _overlap_data w2 = carried_overlap (overlap_bytes w) fr).
  { subst w2. unfold carried_overlap, overlap_bytes.
    cbn [overlap_duration bytes_per_second with_buffer].
    destruct (Py.len fr >? _); unfold same_settings; cbn; tauto. }
  destruct Hw2 as (Hs & Hidx & Hrun & Hbuf & Hmid & Hov).
  unfold build_chunk, Py.truediv in H.
  destruct Hs as (HD & HO & HB & HM).
  destruct (bytes_per_second w2 =? 0) eqn:E.
  - apply Z.eqb_eq in E. inversion H; subst w' r.
    split; [unfold same_settings; tauto |]. split; [exact Hrun |].
    split; [split; [rewrite Hbuf; cbn in *; congruence | rewrite Hbuf; exact Hcons'] |].
    right; right. eexists. split; [reflexivity | congruence].
  - inversion H; subst w' r. clear H.
    split; [unfold same_settings; cbn; tauto |]. split; [exact Hrun |].
    split; [split; [cbn; rewrite Hbuf; cbn in *; congruence | cbn; rewrite Hbuf; exact Hcons'] |].
    right; left. eexists; exists fresh. split; [reflexivity |].
    split; [unfold cut_from; cbn; rewrite Hidx, Hmid; repeat split; discriminate |].
    cbn. rewrite Hbuf. split; [lia |]. split; [exact Hov |].
    unfold AudioBuffer.content. exact Hsplit.
Qed.

Lemma buffer_write_rate (data : bytes) (b : AudioBuffer.t) :
  AudioBuffer.bytes_per_second (AudioBuffer.write data b) = AudioBuffer.bytes_per_second b.
Proof. unfold AudioBuffer.write. destruct (AudioBuffer.evict _ _ _). reflexivity. Qed.

(** What [write] does, case by case. *)
Lemma write_effect (data : bytes) (w w' : t) (r : outcome (option emission)) :
  coherent w ->
  write data w = (w', r) ->
  same_settings w w' /\ _is_running w' = _is_running w /\ coherent w'
  /\ ((_is_running w = false /\ w' = w /\ r = Returned None)
      \/ (_is_running w = true /\ (forall em, r <> Returned (Some em))
          /\ _chunk_index w' = _chunk_index w
          /\ _overlap_data w' = _overlap_data w
          /\ AudioBuffer.content (_buffer w')
             = AudioBuffer.content (AudioBuffer.write data (_buffer w)))
      \/ (_is_running w = true
          /\ exists em fresh, r = Returned (Some em) /\ cut_from w em fresh
             /\ _chunk_index w' = _chunk_index w + 1
             /\ _overlap_data w' = carried_overlap (overlap_bytes w) (frames em)
             /\ fresh ++ AudioBuffer.content (_buffer w')
                = AudioBuffer.content (AudioBuffer.write data (_buffer w)))).
Proof.
  intros [Hrate Hcons] H. unfold write in H.
  destruct (_is_running w) eqn:Hrun; cbn [negb] in H.
  2:{ inversion H; subst. split; [apply same_settings_refl |]. split; [exact Hrun |].
      split; [split; assumption |]. left. tauto. }
  set (w1 := with_buffer w (AudioBuffer.write data (_buffer w))) in H.
  assert (Hco1 : coherent w1).
  { split; [cbn; rewrite buffer_write_rate; exact Hrate |
            cbn; apply write_consistent, Hcons]. }
  assert (Hs1 : same_settings w w1) by (unfold same_settings; cbn; tauto).
  unfold AudioBuffer.available_seconds, Py.truediv in H.
  destruct (AudioBuffer.bytes_per_second (_buffer w1) =? 0) eqn:E.
  { inversion H; subst w' r. split; [exact Hs1 |]. split; [exact Hrun |].
    split; [exact Hco1 |]. right; left.
    split; [reflexivity |]. split; [discriminate |]. cbn. tauto. }
  apply Z.eqb_neq in E.
  destruct (Qle_bool _ _).
  2:{ inversion H; subst w' r. split; [exact Hs1 |]. split; [exact Hrun |].
      split; [exact Hco1 |]. right; left.
      split; [reflexivity |]. split; [discriminate |]. cbn. tauto. }
  destruct (save_chunk_effect w1 w' r Hco1 H) as (Hs & Hr & Hco & Hcase).
  split; [apply (same_settings_step _ _ _ Hs1 Hs) |].
  split; [rewrite Hr; exact Hrun |]. split; [exact Hco |].
  destruct Hcase as [(-> & Hi & Ho & Hc) | [(em & fresh & -> & Hcut & Hi & Ho & Hc) | (e & -> & Hz)]].
  - right; left. split; [reflexivity |]. split; [discriminate |]. tauto.
  - right; right. split; [reflexivity |]. exists em, fresh. tauto.
  - exfalso. apply E. destruct Hco1 as [Hr1 _]. rewrite Hr1. exact Hz.
Qed.

(** What [stop] does, case by case. *)
Lemma stop_effect (w w' : t) (r : outcome (option emission)) :
  coherent w ->
  stop w = (w', r) ->
  same_settings w w' /\ _is_running w' = false /\ coherent w'
  /\ _chunk_index w' = _chunk_index w
  /\ ((_is_running w = false /\ w' = w /\ r = Returned None)
      \/ (_is_running w = true /\ r = Returned None
          /\ AudioBuffer.content (_buffer w) = [])
      \/ (_is_running w = true
          /\ exists em, r = Returned (Some em)
             /\ cut_from w em (AudioBuffer.content (_buffer w)))
      \/ (_is_running w = true /\ bytes_per_second w = 0 /\ exists e, r = Raised e)).
Proof.
  intros [Hrate Hcons] H. unfold stop in H.
  destruct (_is_running w) eqn:Hrun; cbn [negb] in H.
  2:{ inversion H; subst. split; [apply same_settings_refl |]. split; [exact Hrun |].
      split; [split; assumption |]. split; [reflexivity |]. left. tauto. }
  pose proof (read_consistent None (_buffer w) Hcons) as Hcons'.
  pose proof (read_keeps_settings None (_buffer w)) as (_ & Hrate' & _).
  assert (Hdata : snd (AudioBuffer.read None (_buffer w)) = AudioBuffer.content (_buffer w)).
  { unfold AudioBuffer.read, AudioBuffer.content.
    destruct (AudioBuffer._buffer (_buffer w)); reflexivity. }
  cbn [_buffer with_is_running] in H.
  destruct (AudioBuffer.read None (_buffer w)) as [buf data]. cbn [fst snd] in *.
  subst data.
  set (w2 := with_buffer (with_is_running w false) buf) in *.
  assert (Hco2 : coherent w2) by (split; [cbn; congruence | exact Hcons']).
  assert (Hs2 : same_settings w w2) by (unfold same_settings; cbn; tauto).
  destruct (AudioBuffer.content (_buffer w)) as [| x rest] eqn:Ec.
  { inversion H; subst w' r. split; [exact Hs2 |]. split; [reflexivity |].
    split; [exact Hco2 |]. split; [reflexivity |]. right; left. tauto. }
  set (fr := match _overlap_data w2 with [] => _ | _ :: _ => _ end) in H.
  assert (Hfr : fr = _overlap_data w ++ x :: rest).
  { subst fr. cbn [_overlap_data with_buffer with_is_running w2].
    destruct (_overlap_data w); reflexivity. }
  clearbody fr. subst fr.
  unfold build_chunk, Py.truediv in H. cbn [bytes_per_second w2 with_buffer with_is_running] in H.
  destruct (bytes_per_second w =? 0) eqn:E.
  - apply Z.eqb_eq in E. inversion H; subst w' r.
    split; [exact Hs2 |]. split; [reflexivity |]. split; [exact Hco2 |].
    split; [reflexivity |]. right; right; right.
    split; [reflexivity |]. split; [exact E | eexists; reflexivity].
  - inversion H; subst w' r. clear H.
    split; [exact Hs2 |]. split; [reflexivity |]. split; [exact Hco2 |].
    split; [reflexivity |]. right; right; left.
    split; [reflexivity |]. eexists. split; [reflexivity |].
    unfold cut_from. cbn. repeat split. discriminate.
Qed.

Lemma start_coherent (now : Q) (w : t) : coherent w -> coherent (start now w).
Proof. intros [Hr _]. split; [exact Hr | reflexivity]. Qed.

Lemma init_coherent (config : Config.AudioConfig) (mid : Z)
    (sample_rate channels : option Z) (D O : option Q) :
  coherent (init config mid sample_rate channels D O).
Proof. split; reflexivity. Qed.

Lemma exec_coherent (c : call) (w : t) :
  coherent w -> coherent (fst (exec c w)) /\ same_settings w (fst (exec c w)).
Proof.
  intros Hc. destruct c as [now | data |]; simpl.
  - split; [apply start_coherent, Hc | unfold same_settings; cbn; tauto].
  - destruct (write data w) as [w' r] eqn:Hw.
    destruct (write_effect data w w' r Hc Hw) as (Hs & _ & Hco & _). simpl. tauto.
  - destruct (stop w) as [w' r] eqn:Hw.
    destruct (stop_effect w w' r Hc Hw) as (Hs & _ & Hco & _). simpl. tauto.
Qed.

Lemma run_coherent (cs : list call) :
  forall w, coherent w -> coherent (fst (run cs w)) /\ same_settings w (fst (run cs w)).
Proof.
  induction cs as [| c cs IH]; intros w Hc; simpl.
  - split; [exact Hc | apply same_settings_refl].
  - destruct (exec_coherent c w Hc) as [H1 Hs1].
    destruct (exec c w) as [w1 l1]. cbn [fst] in *.
    destruct (IH w1 H1) as [H2 Hs2]. destruct (run cs w1) as [w2 l2]. cbn [fst] in *.
    split; [exact H2 | apply (same_settings_step _ _ _ Hs1 Hs2)].
Qed.

(** A segmenter that is not running ignores [write] and [stop]. *)
Lemma idle_run (cs : list call) (w : t) :
  _is_running w = false -> forallb not_start cs = true -> run cs w = (w, []).
Proof.
  intros Hrun. induction cs as [| c cs IH]; intros Hcs; [reflexivity |].
  simpl in Hcs. apply andb_prop in Hcs. destruct Hcs as [Hc Hcs].
  destruct c as [now | data |]; [discriminate | |]; simpl.
  - unfold write. rewrite Hrun. cbn. rewrite (IH Hcs). reflexivity.
  - unfold stop. rewrite Hrun. cbn. rewrite (IH Hcs). reflexivity.
Qed.

Lemma stop_not_running (w : t) : _is_running (fst (stop w)) = false.
Proof.
  unfold stop. destruct (_is_running w) eqn:Hrun; cbn [negb]; [| exact Hrun].
  cbn [_buffer with_is_running].
  destruct (AudioBuffer.read None (_buffer w)) as [buf data].
  destruct data; [reflexivity |]. destruct (build_chunk _ _); reflexivity.
Qed.

(** X6. [write] and [stop] are ignored by a segmenter that is not running:
    after [stop()] (whatever came before), and on a new segmenter before
    its first [start()], any run of [write] and [stop] calls leaves the
    segmenter as it is and emits nothing. In particular a second [stop()]
    emits no second final segment. *)
Theorem calls_without_start_do_nothing (config : Config.AudioConfig) (mid : Z)
    (sample_rate channels : option Z) (D O : option Q) (pre cs : list call) :
  forallb not_start cs = true ->
  let w0 := init config mid sample_rate channels D O in
  let stopped := fst (stop (fst (run pre w0))) in
  run cs stopped = (stopped, [])
  /\ run cs w0 = (w0, []).
Proof.
  intros Hcs w0 stopped. split.
  - apply idle_run; [apply stop_not_running | exact Hcs].
  - apply idle_run; [reflexivity | exact Hcs].
Qed.

Lemma calls_without_start_do_nothing_witness :
  let w0 := init Config.default 7 (Some 1) (Some 1) (Some 2%Q) (Some (1 # 2)) in
  let pre := [Start 0; Write ["a"; "b"; "c"; "d"; "e"]%byte] in
  let cs := [Write ["f"]%byte; Stop; Write ["g"; "h"]%byte] in
  let stopped := fst (stop (fst (run pre w0))) in
  run cs stopped = (stopped, [])
  /\ run cs w0 = (w0, []).
Proof.
  apply (calls_without_start_do_nothing Config.default 7 (Some 1) (Some 1)
           (Some 2%Q) (Some (1 # 2))
           [Start 0; Write ["a"; "b"; "c"; "d"; "e"]%byte]
           [Write ["f"]%byte; Stop; Write ["g"; "h"]%byte]).
  reflexivity.
Defined.

Lemma emissions_app (l1 l2 : list event) :
  emissions (l1 ++ l2) = emissions l1 ++ emissions l2.
Proof. apply omap_app. Qed.

Lemma emissions_log_of (final : bool) (r : outcome (option emission)) :
  emissions (log_of final r)
  = match r with Returned (Some em) => [em] | _ => [] end.
Proof. destruct r as [[em |] | e]; try reflexivity. destruct final; reflexivity. Qed.

Lemma indices_from_cons (i : Z) (n : nat) :
  indices_from i (S n) = i :: indices_from (i + 1) n.
Proof.
  unfold indices_from. simpl. f_equal; [lia |].
  rewrite <- seq_shift, List.map_map. apply List.map_ext. intros k. lia.
Qed.

(** Within a session the segments are numbered from the current index on,
    each is named after its index, and each starts with the carried
    overlap. *)
Lemma session_segments (cs : list call) :
  forall w, coherent w -> forallb not_start cs = true ->
    let ems := emissions (snd (run cs w)) in
    List.map (fun em => index (info em)) ems = indices_from (_chunk_index w) (length ems)
    /\ Forall (fun em => file_path (info em) = ChunkFile (meeting_id w) (index (info em))) ems
    /\ chained (overlap_bytes w) (_overlap_data w) ems.
Proof.
  induction cs as [| c cs IH]; intros w Hco Hcs; [simpl; repeat split; constructor |].
  simpl in Hcs. apply andb_prop in Hcs. destruct Hcs as [Hc Hcs].
  destruct c as [now | data |]; [discriminate | |]; cbn [run exec].
  - destruct (write data w) as [w1 r] eqn:Hw.
    destruct (write_effect data w w1 r Hco Hw) as (Hs & Hrun & Hco1 & Hcase).
    specialize (IH w1 Hco1 Hcs). destruct (run cs w1) as [w2 l2]. cbn [snd] in *.
    rewrite emissions_app, emissions_log_of.
    rewrite (same_settings_overlap_bytes _ _ Hs) in IH.
    destruct Hs as (_ & _ & _ & Hmid). rewrite Hmid in IH.
    destruct Hcase as [(_ & -> & ->) | [(_ & Hno & Hi & Ho & _) | (_ & em & fresh & -> & Hcut & Hi & Ho & _)]].
    + exact IH.
    + rewrite Hi, Ho in IH.
      destruct r as [[em |] | e]; [exfalso; apply (Hno em); reflexivity | |]; exact IH.
    + destruct Hcut as (Hne & Hfr & Hidx & Hpath). destruct IH as (IH1 & IH2 & IH3).
      cbn [app length List.map chained]. rewrite indices_from_cons, IH1, Hi, Hidx.
      split; [reflexivity |]. split; [constructor; [congruence | exact IH2] |].
      split; [exists fresh; tauto | rewrite <- Ho; exact IH3].
  - destruct (stop w) as [w1 r] eqn:Hw.
    destruct (stop_effect w w1 r Hco Hw) as (Hs & Hrun & Hco1 & Hi & Hcase).
    rewrite (idle_run cs w1 Hrun Hcs). cbn [snd].
    rewrite app_nil_r, emissions_log_of.
    destruct Hcase as [(_ & _ & ->) | [(_ & -> & _) | [(_ & em & -> & Hcut) | (_ & _ & e & ->)]]];
      try (simpl; repeat split; constructor).
    destruct Hcut as (Hne & Hfr & Hidx & Hpath).
    cbn [length List.map chained]. rewrite indices_from_cons.
    change (indices_from (_chunk_index w + 1) 0) with (@nil Z).
    split; [rewrite Hidx; reflexivity |].
    split; [constructor; [congruence | constructor] |].
    split; [eexists; split; [exact Hne | exact Hfr] | exact I].
Qed.

Lemma carried_overlap_tail (ob : Z) (frames : bytes) :
  carried_overlap ob frames `suffix_of` frames
  /\ (0 < ob < Py.len frames -> Py.len (carried_overlap ob frames) = ob)
  /\ (Py.len frames <= ob -> carried_overlap ob frames = frames)
  /\ (ob = 0 -> carried_overlap ob frames = frames).
Proof.
  unfold carried_overlap, Py.slice_from.
  destruct (Py.len frames >? ob) eqn:E.
  - apply Z.gtb_lt in E. destruct (- ob <? 0) eqn:E2.
    + apply Z.ltb_lt in E2. split; [apply suffix_drop |].
      split; [intros _; unfold Py.len in *; rewrite length_skipn; lia |].
      split; intros; lia.
    + apply Z.ltb_ge in E2. split; [apply suffix_drop |].
      split; [intros; lia |]. split; [intros; lia |].
      intros ->. reflexivity.
  - split; [reflexivity |]. split; [| tauto].
    rewrite Z.gtb_ltb in E. apply Z.ltb_ge in E. intros. lia.
Qed.

(** X7. In every session of a segmenter (from a [start()] up to the next
    one, whatever [write] and [stop] calls it contains), the segments are
    emitted with the indices 0, 1, 2, ... in order, the final segment of a
    [stop()] taking the next index, and the segment with index [i] is
    written to chunk file [i] of the meeting's directory. *)
Theorem session_indices_consecutive (config : Config.AudioConfig) (mid : Z)
    (sample_rate channels : option Z) (D O : option Q) (pre cs : list call) (now : Q) :
  forallb not_start cs = true ->
  let w := fst (run pre (init config mid sample_rate channels D O)) in
  let ems := emissions (snd (run (Start now :: cs) w)) in
  List.map (fun em => index (info em)) ems = List.map Z.of_nat (seq 0 (length ems))
  /\ Forall (fun em => file_path (info em) = ChunkFile mid (index (info em))) ems.
Proof.
  intros Hcs w ems.
  destruct (run_coherent pre _ (init_coherent config mid sample_rate channels D O))
    as [Hco (_ & _ & _ & Hmid)]. fold w in Hco, Hmid.
  pose proof (session_segments cs (start now w) (start_coherent now w Hco) Hcs)
    as (H1 & H2 & _).
  assert (Hems : ems = emissions (snd (run cs (start now w)))).
  { subst ems. cbn [run exec]. destruct (run cs (start now w)). reflexivity. }
  rewrite <- Hems in H1, H2. split.
  - rewrite H1. unfold indices_from. apply List.map_ext. intros k. cbn. lia.
  - cbn [meeting_id start] in H2. rewrite Hmid in H2. exact H2.
Qed.

Lemma session_indices_consecutive_witness :
  let w := fst (run [Start 0; Write ["x"]%byte]
                  (init Config.default 7 (Some 1) (Some 1) (Some 2%Q) (Some (1 # 2)))) in
  let cs := [Write ["a"; "b"; "c"; "d"]%byte; Write ["e"]%byte; Stop] in
  let ems := emissions (snd (run (Start 5 :: cs) w)) in
  List.map (fun em => index (info em)) ems = List.map Z.of_nat (seq 0 (length ems))
  /\ Forall (fun em => file_path (info em) = ChunkFile 7 (index (info em))) ems.
Proof.
  apply (session_indices_consecutive Config.default 7 (Some 1) (Some 1)
           (Some 2%Q) (Some (1 # 2)) [Start 0; Write ["x"]%byte]
           [Write ["a"; "b"; "c"; "d"]%byte; Write ["e"]%byte; Stop] 5).
  reflexivity.
Defined.

(** X8. In every session, each segment after the first begins with the
    overlap carried from the segment before it and continues with at least
    one new byte; the first segment begins with new bytes. The overlap
    carried from a segment is a tail of its frames: the last
    [overlap_bytes] bytes when [0 < overlap_bytes < len(frames)], and the
    whole of the frames when they are no longer than that or when
    [overlap_bytes] is 0 (the slice [data[-0:]] is all of [data]). *)
Theorem session_overlap_chain (config : Config.AudioConfig) (mid : Z)
    (sample_rate channels : option Z) (D O : option Q) (pre cs : list call) (now : Q) :
  forallb not_start cs = true ->
  let w0 := init config mid sample_rate channels D O in
  let w := fst (run pre w0) in
  let ems := emissions (snd (run (Start now :: cs) w)) in
  chained (overlap_bytes w0) [] ems
  /\ forall frames : bytes,
       let carried := carried_overlap (overlap_bytes w0) frames in
       carried `suffix_of` frames
       /\ (0 < overlap_bytes w0 < Py.len frames -> Py.len carried = overlap_bytes w0)
       /\ (Py.len frames <= overlap_bytes w0 -> carried = frames)
       /\ (overlap_bytes w0 = 0 -> carried = frames).
Proof.
  intros Hcs w0 w ems. split; [| intros frames; apply carried_overlap_tail].
  destruct (run_coherent pre _ (init_coherent config mid sample_rate channels D O))
    as [Hco Hs]. fold w0 w in Hco, Hs.
  pose proof (session_segments cs (start now w) (start_coherent now w Hco) Hcs)
    as (_ & _ & H3).
  assert (Hems : ems = emissions (snd (run cs (start now w)))).
  { subst ems. cbn [run exec]. destruct (run cs (start now w)). reflexivity. }
  rewrite <- Hems in H3.
  assert (Hob : overlap_bytes (start now w) = overlap_bytes w0).
  { rewrite <- (same_settings_overlap_bytes _ _ Hs). reflexivity. }
  rewrite Hob in H3. exact H3.
Qed.

Lemma session_overlap_chain_witness :
  let w0 := init Config.default 7 (Some 1) (Some 1) (Some 2%Q) (Some (1 # 2)) in
  let w := fst (run [] w0) in
  let cs := [Write ["a"; "b"; "c"; "d"]%byte; Write ["e"]%byte; Stop] in
  let ems := emissions (snd (run (Start 0 :: cs) w)) in
  chained (overlap_bytes w0) [] ems
  /\ forall frames : bytes,
       let carried := carried_overlap (overlap_bytes w0) frames in
       carried `suffix_of` frames
       /\ (0 < overlap_bytes w0 < Py.len frames -> Py.len carried = overlap_bytes w0)
       /\ (Py.len frames <= overlap_bytes w0 -> carried = frames)
       /\ (overlap_bytes w0 = 0 -> carried = frames).
Proof.
  apply (session_overlap_chain Config.default 7 (Some 1) (Some 1)
           (Some 2%Q) (Some (1 # 2)) []
           [Write ["a"; "b"; "c"; "d"]%byte; Write ["e"]%byte; Stop] 0).
  reflexivity.
Defined.

Lemma write_fits_content (data : bytes) (b : AudioBuffer.t) :
  AudioBuffer.consistent b ->
  AudioBuffer._total_bytes b + Py.len data <= AudioBuffer.max_bytes b ->
  AudioBuffer.content (AudioBuffer.write data b) = AudioBuffer.content b ++ data.
Proof.
  intros Hc Hfit.
  destruct (write_all_fits [data] b Hc) as [H _].
  - simpl. rewrite app_nil_r. exact Hfit.
  - simpl in H. rewrite app_nil_r in H. exact H.
Qed.

Lemma skipn_carried {A} (carried fresh : list A) :
  skipn (length carried) (carried ++ fresh) = fresh.
Proof. rewrite skipn_app, skipn_all, Nat.sub_diag. reflexivity. Qed.

(** A stream written in blocks of at most one segment each: what the
    segments emitted so far and the buffer hold, taken together, is what
    was written, and every segment emitted has a full segment of new
    bytes. *)
Lemma run_writes_payloads (d B : Z) (blocks : list bytes) :
  0 < d -> 0 < B ->
  Forall (fun data => Py.len data <= d * B) blocks ->
  forall L w, streaming d B L w -> coherent w ->
    exists w' log,
      run (List.map Write blocks) w = (w', log)
      /\ streaming d B (L + Py.len (concat blocks)) w'
      /\ coherent w'
      /\ same_settings w w'
      /\ concat (payloads (overlap_bytes w) (_overlap_data w) (emissions log))
         ++ AudioBuffer.content (_buffer w')
         = AudioBuffer.content (_buffer w) ++ concat blocks
      /\ Forall (fun p => Py.len p = d * B)
           (payloads (overlap_bytes w) (_overlap_data w) (emissions log))
      /\ _overlap_data w' = last_carried (overlap_bytes w) (_overlap_data w) (emissions log).
Proof.
  intros Hd HB Hall. induction Hall as [| data blocks Hdata Hrest IH]; intros L w Hw Hco.
  - exists w, []. simpl. unfold Py.len at 1. simpl. rewrite Z.add_0_r, app_nil_r.
    split; [reflexivity |]. split; [exact Hw |]. split; [exact Hco |].
    split; [apply same_settings_refl |]. split; [reflexivity |].
    split; [constructor | reflexivity].
  - destruct (write_streaming d B L data w Hd HB Hw Hdata) as (w1 & r & Hwr & Hs1 & Hcount).
    destruct (write_effect data w w1 _ Hco Hwr) as (Hs & _ & Hco1 & Hcase).
    destruct (IH _ _ Hs1 Hco1) as (w2 & log2 & Hrun & Hs2 & Hco2 & Hss & Hpay & Hfull & Hov).
    rewrite (same_settings_overlap_bytes _ _ Hs) in Hpay, Hfull, Hov.
    exists w2, (log_of false (Returned r) ++ log2).
    cbn [List.map run exec]. rewrite Hwr, Hrun.
    split; [reflexivity |].
    change (concat (data :: blocks)) with (data ++ concat blocks).
    rewrite len_app, Z.add_assoc.
    split; [exact Hs2 |]. split; [exact Hco2 |].
    split; [apply (same_settings_step _ _ _ Hs Hss) |].
    rewrite emissions_app, emissions_log_of.
    pose proof Hw as (Hrunning & _ & _ & _ & Hmax & Hcons & Htot & _).
    pose proof Hs1 as (_ & _ & _ & _ & _ & Hcons1 & Htot1 & _).
    set (cb := d * B) in *. assert (Hcb : 0 < cb) by (subst cb; nia).
    pose proof (len_nonneg data) as Hn.
    pose proof (Z.mod_pos_bound L cb Hcb) as Hm.
    assert (Hwc : AudioBuffer.content (AudioBuffer.write data (_buffer w))
                  = AudioBuffer.content (_buffer w) ++ data).
    { apply write_fits_content; [exact Hcons | lia]. }
    destruct Hcase as [(Hno & _) | [(_ & Hno & Hi & Ho & Hc) | (_ & em & fresh & Hr & Hcut & Hi & Ho & Hc)]].
    + congruence.
    + destruct r as [em |]; [exfalso; apply (Hno em); reflexivity |].
      cbn [app]. rewrite Ho in Hpay, Hfull, Hov.
      split; [rewrite Hpay, Hc, Hwc, <- app_assoc; reflexivity |]. tauto.
    + inversion Hr; subst r. clear Hr.
      destruct Hcut as (Hne & Hfr & _ & _).
      cbn [app payloads last_carried fold_left concat].
      rewrite Hfr, skipn_carried. rewrite <- Hfr, <- Ho.
      split; [rewrite <- app_assoc, Hpay, app_assoc, Hc, Hwc, <- app_assoc; reflexivity |].
      split; [| exact Hov].
      constructor; [| exact Hfull].
      assert (Hlens : Py.len fresh + Py.len (AudioBuffer.content (_buffer w1))
                      = Py.len (AudioBuffer.content (_buffer w)) + Py.len data).
      { rewrite <- !len_app, Hc, Hwc. reflexivity. }
      unfold AudioBuffer.consistent, AudioBuffer.content in *.
      destruct (div_mod_advance cb L (Py.len data) Hcb ltac:(lia)) as [Hstay Hnext].
      destruct (Z_lt_le_dec (L mod cb + Py.len data) cb) as [Hlt | Hge].
      * destruct (Hstay Hlt) as [Hq _]. simpl in Hcount. lia.
      * destruct (Hnext Hge) as [_ Hr]. lia.
Qed.

Lemma payloads_app (ob : Z) (ems1 ems2 : list emission) :
  forall carried,
    payloads ob carried (ems1 ++ ems2)
    = payloads ob carried ems1 ++ payloads ob (last_carried ob carried ems1) ems2.
Proof.
  induction ems1 as [| em ems1 IH]; intros carried; [reflexivity |].
  simpl. rewrite IH. reflexivity.
Qed.

Lemma run_app (cs1 cs2 : list call) :
  forall w, run (cs1 ++ cs2) w
            = let '(wa, la) := run cs1 w in
              let '(wb, lb) := run cs2 wa in (wb, la ++ lb).
Proof.
  induction cs1 as [| c cs1 IH]; intros w; simpl.
  - destruct (run cs2 w); reflexivity.
  - destruct (exec c w) as [wx lx]. rewrite IH.
    destruct (run cs1 wx) as [wa la]. destruct (run cs2 wa) as [wb lb].
    rewrite app_assoc. reflexivity.
Qed.

(** X9. No audio is lost or duplicated by the segmenter when the stream
    arrives in blocks of at most one segment each: for a whole number [d]
    of seconds per segment and a positive byte rate, after [start()], the
    writes and [stop()], the new bytes of the segments (each segment's
    frames without the overlap carried into it), concatenated in the order
    emitted, are exactly the bytes written. *)
Theorem segments_reconstruct_stream (config : Config.AudioConfig) (mid : Z)
    (sample_rate channels : option Z) (D O : option Q) (d : Z) (now : Q)
    (blocks : list bytes) :
  let w0 := init config mid sample_rate channels D O in
  let B := bytes_per_second w0 in
  chunk_duration w0 = inject_Z d ->
  0 < d ->
  0 < B ->
  Forall (fun data => Py.len data <= d * B) blocks ->
  let log := snd (run (Start now :: List.map Write blocks ++ [Stop]) w0) in
  concat (payloads (overlap_bytes w0) [] (emissions log)) = concat blocks
  /\ no_exception log = true.
Proof.
  intros w0 B HD Hd HB Hall log.
  assert (Hs0 : streaming d B 0 (start now w0)).
  { apply start_streaming; [exact HD | reflexivity | | fold B; nia].
    apply (init_buffer_capacity config mid sample_rate channels D O d HD). }
  assert (Hco0 : coherent (start now w0)) by (apply start_coherent, init_coherent).
  destruct (run_writes_payloads d B blocks Hd HB Hall 0 _ Hs0 Hco0)
    as (w1 & log1 & Hrun & Hs1 & Hco1 & Hss & Hpay & _ & Hov).
  destruct (run_writes_streaming d B blocks Hd HB Hall 0 _ Hs0)
    as (w1' & log1' & Hrun' & _ & _ & Hex).
  rewrite Hrun in Hrun'. inversion Hrun'; subst w1' log1'. clear Hrun'.
  change (overlap_bytes (start now w0)) with (overlap_bytes w0) in Hpay, Hov.
  change (_overlap_data (start now w0)) with (@nil Byte.byte) in Hpay, Hov.
  change (AudioBuffer.content (_buffer (start now w0))) with (@nil Byte.byte) in Hpay.
  cbn [app] in Hpay.
  destruct (stop w1) as [w2 r] eqn:Hstop.
  assert (Hlog : log = log1 ++ log_of true r).
  { subst log. cbn [run exec]. rewrite run_app, Hrun. cbn [run exec]. rewrite Hstop.
    simpl. rewrite app_nil_r. reflexivity. }
  destruct (stop_effect w1 w2 r Hco1 Hstop) as (_ & _ & _ & _ & Hcase).
  pose proof Hs1 as (Hrunning & _ & Hbps & _).
  rewrite Hlog, emissions_app, emissions_log_of, payloads_app, <- Hov.
  unfold no_exception in *. rewrite forallb_app, Hex.
  destruct Hcase as [(Hno & _) | [(_ & -> & Hc) | [(_ & em & -> & Hcut) | (_ & Hz & _)]]].
  - congruence.
  - cbn [payloads]. rewrite app_nil_r. rewrite Hc, app_nil_r in Hpay. tauto.
  - destruct Hcut as (_ & Hfr & _ & _). cbn [payloads].
    rewrite Hfr, skipn_carried, concat_app. simpl. rewrite app_nil_r. tauto.
  - lia.
Qed.

Lemma segments_reconstruct_stream_witness :
  let w0 := init Config.default 7 (Some 1) (Some 1) (Some 2%Q) (Some (1 # 2)) in
  let blocks := [["a"; "b"; "c"]; ["d"; "e"; "f"]; ["g"; "h"; "i"; "j"]]%byte in
  let log := snd (run (Start 0 :: List.map Write blocks ++ [Stop]) w0) in
  concat (payloads (overlap_bytes w0) [] (emissions log)) = concat blocks
  /\ no_exception log = true.
Proof.
  apply (segments_reconstruct_stream Config.default 7 (Some 1) (Some 1)
           (Some 2%Q) (Some (1 # 2)) 2 0
           [["a"; "b"; "c"]; ["d"; "e"; "f"]; ["g"; "h"; "i"; "j"]]%byte).
  - reflexivity.
  - lia.
  - reflexivity.
  - repeat (constructor; [vm_compute; discriminate |]). constructor.
Defined.

Lemma writes_emissions_count (blocks : list bytes) :
  forall w, no_exception (snd (run (List.map Write blocks) w)) = true ->
    Py.len (emissions (snd (run (List.map Write blocks) w)))
    = non_final_count (snd (run (List.map Write blocks) w)).
Proof.
  unfold non_final_count, no_exception, Py.len.
  induction blocks as [| data blocks IH]; intros w; [reflexivity |].
  cbn [List.map run exec]. destruct (write data w) as [w1 r].
  specialize (IH w1). destruct (run (List.map Write blocks) w1) as [w2 log2].
  cbn [snd] in *. rewrite emissions_app, emissions_log_of, forallb_app, List.filter_app, !length_app.
  intros H. apply andb_prop in H. destruct H as [H1 H2]. specialize (IH H2).
  rewrite !Nat2Z.inj_add, IH.
  destruct r as [[em |] | e]; simpl in *; reflexivity || discriminate.
Qed.

(** X10. Under the same conditions every segment emitted by a [write]
    holds exactly one segment duration of new bytes ([d] seconds, [d * B]
    bytes) behind the overlap carried into it, and there are
    [total bytes / (d * B)] of them. *)
Theorem mid_stream_segments_are_full (config : Config.AudioConfig) (mid : Z)
    (sample_rate channels : option Z) (D O : option Q) (d : Z) (now : Q)
    (blocks : list bytes) :
  let w0 := init config mid sample_rate channels D O in
  let B := bytes_per_second w0 in
  chunk_duration w0 = inject_Z d ->
  0 < d ->
  0 < B ->
  Forall (fun data => Py.len data <= d * B) blocks ->
  let ems := emissions (snd (run (Start now :: List.map Write blocks) w0)) in
  Forall (fun p => Py.len p = d * B) (payloads (overlap_bytes w0) [] ems)
  /\ Py.len ems = Py.len (concat blocks) / (d * B).
Proof.
  intros w0 B HD Hd HB Hall ems.
  assert (Hs0 : streaming d B 0 (start now w0)).
  { apply start_streaming; [exact HD | reflexivity | | fold B; nia].
    apply (init_buffer_capacity config mid sample_rate channels D O d HD). }
  assert (Hco0 : coherent (start now w0)) by (apply start_coherent, init_coherent).
  destruct (run_writes_payloads d B blocks Hd HB Hall 0 _ Hs0 Hco0)
    as (w1 & log1 & Hrun & Hs1 & _ & _ & _ & Hfull & _).
  destruct (run_writes_streaming d B blocks Hd HB Hall 0 _ Hs0)
    as (w1' & log1' & Hrun' & _ & Hcount & Hex).
  rewrite Hrun in Hrun'. inversion Hrun'; subst w1' log1'. clear Hrun'.
  assert (Hems : ems = emissions log1).
  { subst ems. cbn [run exec]. rewrite Hrun. reflexivity. }
  rewrite Hems. split; [exact Hfull |].
  rewrite Z.add_0_l, Zdiv_0_l, Z.sub_0_r in Hcount. rewrite <- Hcount.
  pose proof (writes_emissions_count blocks (start now w0)) as Hlen.
  rewrite Hrun in Hlen. apply Hlen, Hex.
Qed.

Lemma mid_stream_segments_are_full_witness :
  let w0 := init Config.default 7 (Some 1) (Some 1) (Some 2%Q) (Some (1 # 2)) in
  let blocks := [["a"; "b"; "c"]; ["d"; "e"; "f"]; ["g"; "h"; "i"; "j"]]%byte in
  let ems := emissions (snd (run (Start 0 :: List.map Write blocks) w0)) in
  Forall (fun p => Py.len p = 2 * bytes_per_second w0) (payloads (overlap_bytes w0) [] ems)
  /\ Py.len ems = Py.len (concat blocks) / (2 * bytes_per_second w0).
Proof.
  apply (mid_stream_segments_are_full Config.default 7 (Some 1) (Some 1)
           (Some 2%Q) (Some (1 # 2)) 2 0
           [["a"; "b"; "c"]; ["d"; "e"; "f"]; ["g"; "h"; "i"; "j"]]%byte).
  - reflexivity.
  - lia.
  - reflexivity.
  - repeat (constructor; [vm_compute; discriminate |]). constructor.
Defined.

Lemma write_oversized (data : bytes) (b : AudioBuffer.t) :
  AudioBuffer.consistent b ->
  AudioBuffer.max_bytes b < Py.len data ->
  AudioBuffer.write data b
  = AudioBuffer.with_received (AudioBuffer.with_data b [] 0)
      (AudioBuffer._total_received_bytes b + Py.len data).
Proof.
  intros Hc Hbig. unfold AudioBuffer.write.
  rewrite (evict_oversized _ data (AudioBuffer._buffer b) Hbig); [reflexivity |].
  rewrite concat_app, len_app. simpl. rewrite app_nil_r.
  unfold AudioBuffer.consistent in Hc. rewrite Hc. reflexivity.
Qed.

(** X11. A block longer than the segmenter's buffer (two segment
    durations) is dropped whole, together with everything buffered before
    it: the [write] returns [None], no segment is cut, the index and the
    carried overlap stay, and the buffer is empty afterwards. *)
Theorem oversized_block_is_dropped (data : bytes) (w : t) :
  coherent w ->
  _is_running w = true ->
  bytes_per_second w <> 0 ->
  AudioBuffer.max_bytes (_buffer w) < Py.len data ->
  exists w',
    write data w = (w', Returned None)
    /\ AudioBuffer.content (_buffer w') = []
    /\ AudioBuffer.available_bytes (_buffer w') = 0
    /\ _chunk_index w' = _chunk_index w
    /\ _overlap_data w' = _overlap_data w
    /\ _is_running w' = true.
Proof.
  intros [Hbps Hc] Hrun Hnz Hbig.
  unfold write. rewrite Hrun. cbn [negb].
  rewrite (write_oversized data _ Hc Hbig).
  unfold AudioBuffer.available_seconds, AudioBuffer.available_bytes, Py.truediv.
  cbn [_buffer with_buffer AudioBuffer.bytes_per_second AudioBuffer._total_bytes
       AudioBuffer.with_received AudioBuffer.with_data].
  rewrite Hbps. destruct (Z.eqb_spec (bytes_per_second w) 0) as [Hz | _]; [contradiction |].
  match goal with |- context [Qle_bool ?a ?b] => destruct (Qle_bool a b) end.
  - unfold _save_chunk.
    cbn [_is_running with_buffer negb _buffer AudioBuffer.read AudioBuffer._buffer
         AudioBuffer.with_received AudioBuffer.with_data].
    rewrite Hrun. cbn [negb].
    eexists. split; [reflexivity |]. cbn. rewrite Hrun. repeat split; reflexivity.
  - eexists. split; [reflexivity |]. cbn. rewrite Hrun. repeat split; reflexivity.
Qed.

Lemma oversized_block_is_dropped_witness :
  let w := fst (run [Start 0; Write ["a"; "b"; "c"]%byte]
                  (init Config.default 7 (Some 1) (Some 1) (Some 2%Q) (Some (1 # 2)))) in
  exists w',
    write (List.repeat "x"%byte 9) w = (w', Returned None)
    /\ AudioBuffer.content (_buffer w') = []
    /\ AudioBuffer.available_bytes (_buffer w') = 0
    /\ _chunk_index w' = _chunk_index w
    /\ _overlap_data w' = _overlap_data w
    /\ _is_running w' = true.
Proof.
  apply (oversized_block_is_dropped (List.repeat "x"%byte 9)
           (fst (run [Start 0; Write ["a"; "b"; "c"]%byte]
                   (init Config.default 7 (Some 1) (Some 1) (Some 2%Q) (Some (1 # 2)))))).
  - split; reflexivity.
  - reflexivity.
  - vm_compute. discriminate.
  - vm_compute. reflexivity.
Defined.

End ChunkWriterSessions.

(** ** The transcript merger: duplicates, grouping, order *)

Section TranscriptMergerDuplicates.

Import Asr TranscriptMerger.

Ltac by_cases_on_comparisons :=
  unfold _calculate_time_overlap, Py.max, Py.min;
  repeat match goal with
         | |- context [Py.Qltb ?a ?b] =>
             let E := fresh "E" in
             destruct (Py.Qltb a b) eqn:E;
             [apply Qltb_lt in E | apply Qltb_ge in E]
         | H : context [Py.Qltb ?a ?b] |- _ =>
             let E := fresh "E" in
             destruct (Py.Qltb a b) eqn:E;
             [apply Qltb_lt in E | apply Qltb_ge in E]
         end;
  try lra.

Lemma time_overlap_nonneg (a b : TranscriptSegment) :
  (0 <= _calculate_time_overlap a b)%Q.
Proof. by_cases_on_comparisons. Qed.

Lemma time_overlap_upper (a b : TranscriptSegment) :
  (_calculate_time_overlap a b <= Py.max 0 (end_time a - start_time b))%Q.
Proof. by_cases_on_comparisons. Qed.

Lemma time_overlap_self (s : TranscriptSegment) :
  (_calculate_time_overlap s s == Py.max 0 (end_time s - start_time s))%Q.
Proof. by_cases_on_comparisons. Qed.

(** X12. The time overlap of two spans is never negative, does not depend
    on the order of the two spans, is at most the length of either span,
    and is at most the time by which one span ends after the other starts
    (so it is zero for spans that follow each other). *)
Theorem time_overlap_bounds (a b : TranscriptSegment) :
  (0 <= _calculate_time_overlap a b
   /\ _calculate_time_overlap a b == _calculate_time_overlap b a
   /\ _calculate_time_overlap a b <= Py.max 0 (end_time a - start_time a)
   /\ _calculate_time_overlap a b <= Py.max 0 (end_time b - start_time b)
   /\ _calculate_time_overlap a b <= Py.max 0 (end_time a - start_time b))%Q.
Proof.
  split; [| split; [| split; [| split]]]; by_cases_on_comparisons.
Qed.

Lemma strip_blanks_nonempty (s : text) : strip_blanks s <> [] -> s <> [].
Proof. intros H ->. apply H. reflexivity. Qed.

Lemma is_empty_false {A} (l : list A) : l <> [] -> is_empty l = false.
Proof. destruct l; [congruence | reflexivity]. Qed.

(** The similarity of two texts that are not blank, as a quotient of two
    set sizes with a positive denominator. *)
Lemma text_similarity_quotient (text1 text2 : text) :
  strip_blanks text1 <> [] -> strip_blanks text2 <> [] ->
  let set1 : gset N := list_to_set (strip_blanks text1) in
  let set2 : gset N := list_to_set (strip_blanks text2) in
  _calculate_text_similarity text1 text2
  = (inject_Z (Z.of_nat (size (set1 ∩ set2))) / inject_Z (Z.of_nat (size (set1 ∪ set2))))%Q
  /\ (0 < size (set1 ∪ set2))%nat
  /\ (size (set1 ∩ set2) <= size (set1 ∪ set2))%nat.
Proof.
  intros H1 H2 set1 set2.
  assert (Hpos : (0 < size (set1 ∪ set2))%nat).
  { destruct (strip_blanks text1) as [| c l] eqn:E; [congruence |].
    apply Nat.neq_0_lt_0. intros Hz. apply size_empty_inv in Hz.
    assert (c ∈ set1 ∪ set2) as Hin by (subst set1; set_solver).
    rewrite Hz in Hin. set_solver. }
  split; [| split; [exact Hpos | apply subseteq_size; set_solver]].
  unfold _calculate_text_similarity.
  rewrite (is_empty_false _ (strip_blanks_nonempty _ H1)),
          (is_empty_false _ (strip_blanks_nonempty _ H2)),
          (is_empty_false _ H1), (is_empty_false _ H2).
  cbn [orb]. fold set1 set2.
  destruct (Z.eqb_spec (Z.of_nat (size (set1 ∪ set2))) 0) as [Hz | _]; [lia | reflexivity].
Qed.

Lemma quotient_bounds (i u : nat) :
  (0 < u)%nat -> (i <= u)%nat ->
  (0 <= inject_Z (Z.of_nat i) / inject_Z (Z.of_nat u) <= 1)%Q.
Proof.
  intros Hu Hi.
  assert (0 < inject_Z (Z.of_nat u))%Q as Hpos.
  { change 0%Q with (inject_Z 0). rewrite <- Zlt_Qlt. lia. }
  split.
  - apply Qle_shift_div_l; [exact Hpos |]. rewrite Qmult_0_l.
    change 0%Q with (inject_Z 0). rewrite <- Zle_Qle. lia.
  - apply Qle_shift_div_r; [exact Hpos |]. rewrite Qmult_1_l.
    rewrite <- Zle_Qle. lia.
Qed.

Lemma quotient_one (i u : nat) :
  (0 < u)%nat ->
  (inject_Z (Z.of_nat i) / inject_Z (Z.of_nat u) == 1)%Q <-> i = u.
Proof.
  intros Hu.
  assert (~ inject_Z (Z.of_nat u) == 0)%Q as Hnz.
  { change 0%Q with (inject_Z 0). rewrite inject_Z_injective. lia. }
  split.
  - intros H.
    assert (inject_Z (Z.of_nat i) == inject_Z (Z.of_nat u))%Q as Heq.
    { transitivity (inject_Z (Z.of_nat i) / inject_Z (Z.of_nat u) * inject_Z (Z.of_nat u))%Q.
      - field. exact Hnz.
      - rewrite H. ring. }
    rewrite inject_Z_injective in Heq. lia.
  - intros ->. field. exact Hnz.
Qed.

(** X13. The text similarity is a number between 0 and 1 that does not
    depend on the order of the two texts. *)
Theorem text_similarity_bounds (text1 text2 : text) :
  (0 <= _calculate_text_similarity text1 text2 <= 1)%Q
  /\ _calculate_text_similarity text1 text2 = _calculate_text_similarity text2 text1.
Proof.
  destruct (strip_blanks text1) as [| c1 l1] eqn:E1.
  - assert (Hz : forall t, _calculate_text_similarity text1 t = 0%Q
                           /\ _calculate_text_similarity t text1 = 0%Q).
    { intros t. unfold _calculate_text_similarity. rewrite E1.
      destruct (is_empty text1), (is_empty t), (is_empty (strip_blanks t)); split; reflexivity. }
    destruct (Hz text2) as [-> ->]. repeat split; lra.
  - destruct (strip_blanks text2) as [| c2 l2] eqn:E2.
    + assert (Hz : _calculate_text_similarity text1 text2 = 0%Q
                   /\ _calculate_text_similarity text2 text1 = 0%Q).
      { unfold _calculate_text_similarity. rewrite E2.
        destruct (is_empty text1), (is_empty text2), (is_empty (strip_blanks text1));
          split; reflexivity. }
      destruct Hz as [-> ->]. repeat split; lra.
    + assert (H1 : strip_blanks text1 <> []) by (rewrite E1; discriminate).
      assert (H2 : strip_blanks text2 <> []) by (rewrite E2; discriminate).
      destruct (text_similarity_quotient text1 text2 H1 H2) as (-> & Hpos & Hle).
      destruct (text_similarity_quotient text2 text1 H2 H1) as (-> & _ & _).
      rewrite E1, E2.
      split; [apply quotient_bounds; rewrite <- ?E1, <- ?E2; assumption |].
      rewrite (comm_L (∩) (list_to_set (c2 :: l2) : gset N)),
              (comm_L (∪) (list_to_set (c2 :: l2) : gset N)). reflexivity.
Qed.

(** X14. For two texts that are not blank the similarity is 1 exactly when
    the texts use the same characters, spaces and newlines apart: the
    order of the characters and their repetitions do not count. *)
Theorem text_similarity_one (text1 text2 : text) :
  strip_blanks text1 <> [] ->
  strip_blanks text2 <> [] ->
  (_calculate_text_similarity text1 text2 == 1)%Q
  <-> (forall c, In c (strip_blanks text1) <-> In c (strip_blanks text2)).
Proof.
  intros H1 H2.
  destruct (text_similarity_quotient text1 text2 H1 H2) as (-> & Hpos & Hle).
  rewrite (quotient_one _ _ Hpos).
  set (set1 := list_to_set (strip_blanks text1) : gset N) in *.
  set (set2 := list_to_set (strip_blanks text2) : gset N) in *.
  assert (Hin : (forall c, In c (strip_blanks text1) <-> In c (strip_blanks text2))
                <-> set1 ≡ set2).
  { subst set1 set2. split.
    - intros H c. rewrite !elem_of_list_to_set, !list_elem_of_In. apply H.
    - intros H c. specialize (H c).
      rewrite !elem_of_list_to_set, !list_elem_of_In in H. exact H. }
  rewrite Hin. clear Hin. clearbody set1 set2. split.
  - intros Hsize.
    assert (set1 ∩ set2 ≡ set1 ∪ set2) as Heq.
    { apply set_subseteq_size_equiv; [set_solver | lia]. }
    set_solver.
  - intros Heq. f_equal. set_solver.
Qed.

Lemma text_similarity_one_witness :
  (_calculate_text_similarity (text_of "ab ba") (text_of "b a") == 1)%Q
  <-> (forall c, In c (strip_blanks (text_of "ab ba")) <-> In c (strip_blanks (text_of "b a"))).
Proof.
  apply (text_similarity_one (text_of "ab ba") (text_of "b a")).
  - vm_compute. discriminate.
  - vm_compute. discriminate.
Defined.

End TranscriptMergerDuplicates.

Section TranscriptMergerSegments.

Import Asr TranscriptMerger.

Lemma is_duplicate_of_true (threshold : Q) (candidates : list TranscriptSegment)
    (s : TranscriptSegment) :
  is_duplicate_of threshold candidates s = true
  <-> exists x, In x candidates /\ duplicates threshold x s.
Proof.
  unfold duplicates. induction candidates as [| x rest IH]; simpl.
  - split; [discriminate | intros (x & [] & _)].
  - destruct (Py.Qltb threshold (_calculate_time_overlap x s)) eqn:E1.
    + destruct (Py.Qltb (7 # 10) (_calculate_text_similarity (text_ x) (text_ s))) eqn:E2.
      * apply Qltb_lt in E1, E2. split; [intros _; exists x; tauto | reflexivity].
      * apply Qltb_ge in E2. rewrite IH. split; intros (y & Hy & Hd).
        -- exists y; tauto.
        -- destruct Hy as [<- | Hy]; [destruct Hd; lra | exists y; tauto].
    + apply Qltb_ge in E1. rewrite IH. split; intros (y & Hy & Hd).
      * exists y; tauto.
      * destruct Hy as [<- | Hy]; [destruct Hd; lra | exists y; tauto].
Qed.

Lemma add_segment_by_test (s : TranscriptSegment) (m : t) :
  _add_segment s m
  = if is_duplicate_of (overlap_threshold m) (lookback (_segments m)) s then m
    else {| overlap_threshold := overlap_threshold m; _segments := _segments m ++ [s] |}.
Proof.
  unfold _add_segment. destruct (_segments m) as [| x l] eqn:E; [reflexivity |].
  destruct (is_duplicate_of _ _ s); reflexivity.
Qed.

Lemma add_segment_either (s : TranscriptSegment) (m : t) :
  overlap_threshold (_add_segment s m) = overlap_threshold m
  /\ (_segments (_add_segment s m) = _segments m
      \/ _segments (_add_segment s m) = _segments m ++ [s]).
Proof.
  rewrite add_segment_by_test. destruct (is_duplicate_of _ _ s); simpl; tauto.
Qed.

(** X15. [_add_segment] either drops the new span, leaving the merger as
    it was, or appends it behind the stored spans. It drops the span
    exactly when one of the (at most five) most recently stored spans
    overlaps it in time by more than the threshold and has a text
    similarity above 0.7 with it; older stored spans are never compared. *)
Theorem add_segment_cases (s : TranscriptSegment) (m : t) :
  ((exists x, In x (lookback (_segments m)) /\ duplicates (overlap_threshold m) x s)
   /\ _add_segment s m = m)
  \/ (~ (exists x, In x (lookback (_segments m)) /\ duplicates (overlap_threshold m) x s)
      /\ overlap_threshold (_add_segment s m) = overlap_threshold m
      /\ _segments (_add_segment s m) = _segments m ++ [s]).
Proof.
  rewrite add_segment_by_test.
  destruct (is_duplicate_of (overlap_threshold m) (lookback (_segments m)) s) eqn:E.
  - left. apply is_duplicate_of_true in E. tauto.
  - right. split; [| split; reflexivity].
    intros H. apply is_duplicate_of_true in H. congruence.
Qed.

Lemma text_similarity_self (txt : text) :
  strip_blanks txt <> [] -> (_calculate_text_similarity txt txt == 1)%Q.
Proof.
  intros H. destruct (text_similarity_quotient txt txt H H) as (-> & Hpos & _).
  apply (quotient_one _ _ Hpos). f_equal. set_solver.
Qed.

Lemma lookback_snoc (segs : list TranscriptSegment) (s : TranscriptSegment) :
  exists rest, lookback (segs ++ [s]) = s :: rest.
Proof.
  unfold lookback. rewrite rev_app_distr. simpl. eexists. reflexivity.
Qed.

(** X16. Adding a span a second time changes nothing, provided the span is
    longer than the threshold and its text is not blank: the second copy
    is recognised as a duplicate of the first. *)
Theorem readding_a_span_changes_nothing (s : TranscriptSegment) (m : t) :
  (overlap_threshold m < end_time s - start_time s)%Q ->
  strip_blanks (text_ s) <> [] ->
  _add_segment s (_add_segment s m) = _add_segment s m.
Proof.
  intros Hlong Htext.
  assert (Hcases : _add_segment s m = m
                   \/ (overlap_threshold (_add_segment s m) = overlap_threshold m
                       /\ _segments (_add_segment s m) = _segments m ++ [s])).
  { rewrite add_segment_by_test. destruct (is_duplicate_of _ _ s); cbn; tauto. }
  destruct Hcases as [Hsame | (Hthr & Hsegs)].
  - rewrite !Hsame. reflexivity.
  - rewrite (add_segment_by_test s (_add_segment s m)), Hthr, Hsegs.
    destruct (lookback_snoc (_segments m) s) as [rest ->].
    assert (is_duplicate_of (overlap_threshold m) (s :: rest) s = true) as ->;
      [| reflexivity].
    apply is_duplicate_of_true. exists s. split; [left; reflexivity |]. split.
    + pose proof (time_overlap_self s) as Hself. revert Hself.
      unfold Py.max. destruct (Py.Qltb 0 (end_time s - start_time s)) eqn:E.
      * intros ->. exact Hlong.
      * apply Qltb_ge in E. intros ->. lra.
    + rewrite (text_similarity_self _ Htext). reflexivity.
Qed.

Lemma readding_a_span_changes_nothing_witness :
  let s := span 0 2 "hello" in
  let m := _add_segment (span 5 7 "bye") (init default_overlap_threshold) in
  _add_segment s (_add_segment s m) = _add_segment s m.
Proof.
  apply (readding_a_span_changes_nothing (span 0 2 "hello")
           (_add_segment (span 5 7 "bye") (init default_overlap_threshold))).
  - vm_compute. reflexivity.
  - vm_compute. discriminate.
Defined.

(** X17. A span that overlaps each of the most recently stored spans by at
    most the threshold is always stored, whatever its text. *)
Theorem span_without_overlap_is_stored (s : TranscriptSegment) (m : t) :
  (forall x, In x (lookback (_segments m)) ->
             (_calculate_time_overlap x s <= overlap_threshold m)%Q) ->
  _segments (_add_segment s m) = _segments m ++ [s].
Proof.
  intros Hfar. rewrite add_segment_by_test.
  destruct (is_duplicate_of (overlap_threshold m) (lookback (_segments m)) s) eqn:E;
    [| reflexivity].
  apply is_duplicate_of_true in E as (x & Hx & Hover & _).
  specialize (Hfar x Hx). lra.
Qed.

Lemma span_without_overlap_is_stored_witness :
  let s := span (18 # 10) (35 # 10) "hello there" in
  let m := _add_segment (span 0 2 "hello there") (init default_overlap_threshold) in
  _segments (_add_segment s m) = _segments m ++ [s].
Proof.
  apply (span_without_overlap_is_stored (span (18 # 10) (35 # 10) "hello there")
           (_add_segment (span 0 2 "hello there") (init default_overlap_threshold))).
  intros x [<- | []]. vm_compute. discriminate.
Defined.

Lemma add_segments_append (new_segments : list TranscriptSegment) :
  forall m, exists kept,
    _segments (fold_left (fun m s => _add_segment s m) new_segments m) = _segments m ++ kept
    /\ sublist kept new_segments
    /\ overlap_threshold (fold_left (fun m s => _add_segment s m) new_segments m)
       = overlap_threshold m.
Proof.
  induction new_segments as [| s rest IH]; intros m; simpl.
  - exists []. rewrite app_nil_r. repeat split. constructor.
  - destruct (IH (_add_segment s m)) as (kept & Hk & Hsub & Hthr).
    destruct (add_segment_either s m) as [Ht [Hsame | Happ]].
    + exists kept. rewrite Hk, Hsame, Hthr, Ht. repeat split. apply sublist_cons, Hsub.
    + exists (s :: kept). rewrite Hk, Happ, Hthr, Ht, <- app_assoc. repeat split.
      apply sublist_skip, Hsub.
Qed.

(** X18. [add_result] only appends: the spans stored before stay where
    they are, and what is added behind them is a selection of the spans of
    the result, in the order of the result. The threshold is unchanged. *)
Theorem add_result_appends (result : TranscriptResult) (m : t) :
  exists kept,
    _segments (add_result result m) = _segments m ++ kept
    /\ sublist kept (segments result)
    /\ overlap_threshold (add_result result m) = overlap_threshold m.
Proof. unfold add_result. apply add_segments_append. Qed.

Lemma add_results_append (results : list TranscriptResult) :
  forall m, exists kept,
    _segments (fold_left (fun m r => add_result r m) results m) = _segments m ++ kept
    /\ sublist kept (concat (List.map segments results)).
Proof.
  induction results as [| r rest IH]; intros m; simpl.
  - exists []. rewrite app_nil_r. split; [reflexivity | constructor].
  - destruct (IH (add_result r m)) as (kept2 & Hk2 & Hsub2).
    destruct (add_segments_append (segments r) m) as (kept1 & Hk1 & Hsub1 & _).
    exists (kept1 ++ kept2). unfold add_result in *. rewrite Hk2, Hk1, <- app_assoc.
    split; [reflexivity | apply sublist_app; assumption].
Qed.

(** X19. [merge_transcripts] invents nothing: the spans of the merged
    transcript are spans of the given results, each used at most as often
    as it was given. *)
Theorem merged_spans_come_from_results (results : list TranscriptResult)
    (overlap_threshold : Q) :
  segments (merge_transcripts results overlap_threshold)
  ⊆+ concat (List.map segments results).
Proof.
  unfold merge_transcripts, get_merged_result. cbn [segments].
  destruct (add_results_append results (init overlap_threshold)) as (kept & -> & Hsub).
  cbn [_segments init app].
  rewrite <- (sorted_by_start_perm kept). apply sublist_submseteq, Hsub.
Qed.

Lemma spoken_by_snoc (speaker : string) (segs : list TranscriptSegment)
    (s : TranscriptSegment) :
  spoken_by speaker (segs ++ [s])
  = spoken_by speaker segs
    ++ (if String.eqb (speaker_or_unknown s) speaker then [s] else []).
Proof. unfold spoken_by. rewrite List.filter_app. reflexivity. Qed.

Lemma group_by_speaker_lookup (segs : list TranscriptSegment) (speaker : string) :
  group_by_speaker segs !! speaker
  = match spoken_by speaker segs with [] => None | l => Some l end.
Proof.
  unfold group_by_speaker. induction segs as [| s segs IH] using rev_ind.
  - reflexivity.
  - rewrite fold_left_app. cbn [fold_left].
    set (r := fold_left _ segs ∅) in *.
    set (key := speaker_or_unknown s).
    rewrite spoken_by_snoc. fold key.
    destruct (String.eqb_spec key speaker) as [-> | Hne].
    + rewrite lookup_insert_eq. rewrite IH.
      destruct (spoken_by speaker segs) as [| x l].
      * rewrite lookup_insert_eq. reflexivity.
      * rewrite IH. reflexivity.
    + rewrite lookup_insert_ne by exact Hne. rewrite app_nil_r.
      destruct (r !! key); [exact IH |].
      rewrite lookup_insert_ne by exact Hne. exact IH.
Qed.

(** X20. [get_segments_by_speaker] files every stored span under its
    speaker, or under "Unknown" when the speaker is missing or the empty
    string: the entry of a speaker holds exactly the stored spans of that
    speaker, sorted by start time (spans with equal start times in stored
    order), and a speaker without a span has no entry. *)
Theorem segments_by_speaker_lookup (m : t) (speaker : string) :
  get_segments_by_speaker m !! speaker
  = match spoken_by speaker (_segments m) with
    | [] => None
    | l => Some (sorted_by_start l)
    end.
Proof.
  unfold get_segments_by_speaker. rewrite lookup_fmap, group_by_speaker_lookup.
  destruct (spoken_by speaker (_segments m)); reflexivity.
Qed.

Lemma sorted_by_start_fixed (l : list TranscriptSegment) :
  Sorted by_start l -> sorted_by_start l = l.
Proof.
  induction 1 as [| x l Hs IH Hhd]; [reflexivity |].
  simpl. rewrite IH. destruct Hhd as [| y l' Hxy]; [reflexivity |].
  simpl. unfold by_start in Hxy. apply Qltb_ge in Hxy. rewrite Hxy. reflexivity.
Qed.

(** X21. When the stored spans are already in the order of their start
    times, [get_segments] and [get_merged_result] return them as stored
    and the full text is their texts joined in that order. *)
Theorem sorted_spans_are_returned_as_stored (m : t) :
  Sorted by_start (_segments m) ->
  get_segments m = _segments m
  /\ segments (get_merged_result m) = _segments m
  /\ full_text (get_merged_result m) = concat (List.map text_ (_segments m)).
Proof.
  intros Hs. unfold get_segments, get_merged_result. cbn [segments full_text].
  rewrite (sorted_by_start_fixed _ Hs). repeat split.
Qed.

Lemma sorted_spans_are_returned_as_stored_witness :
  let m := add_result (single (span 5 7 "bye"))
             (add_result (single (span 0 2 "hello")) (init default_overlap_threshold)) in
  get_segments m = _segments m
  /\ segments (get_merged_result m) = _segments m
  /\ full_text (get_merged_result m) = concat (List.map text_ (_segments m)).
Proof.
  apply (sorted_spans_are_returned_as_stored
           (add_result (single (span 5 7 "bye"))
              (add_result (single (span 0 2 "hello")) (init default_overlap_threshold)))).
  repeat constructor. vm_compute. discriminate.
Defined.

End TranscriptMergerSegments.

(** ** The recording engine: the state machine and what it stores *)

Section RecordingEngineMachine.

Import RecordingEngine.

Variable config : Config.AudioConfig.

Lemma notified_app (l1 l2 : list event) :
  notified (l1 ++ l2) = notified l1 ++ notified l2.
Proof. apply omap_app. Qed.

Lemma ready_chunks_app (l1 l2 : list event) :
  ready_chunks (l1 ++ l2) = ready_chunks l1 ++ ready_chunks l2.
Proof. apply omap_app. Qed.

Lemma follows_app (l1 l2 : list RecordingState) :
  forall a, follows a (l1 ++ l2) = follows a l1 && follows (List.last l1 a) l2.
Proof.
  induction l1 as [| s l1 IH]; intros a; [reflexivity |].
  cbn [app follows]. rewrite IH, andb_assoc. f_equal. f_equal.
  destruct l1 as [| x l]; [reflexivity |].
  change (List.last (s :: x :: l) a) with (List.last (x :: l) a).
  apply last_default_irrelevant.
Qed.

Lemma last_app_default {A} (l1 l2 : list A) (a : A) :
  List.last (l1 ++ l2) a = List.last l2 (List.last l1 a).
Proof.
  induction l1 as [| x l1 IH]; [reflexivity |].
  destruct l1 as [| y l]; [| exact IH].
  simpl. destruct l2; [reflexivity | apply last_default_irrelevant].
Qed.

Lemma moved_refl (e : t) (w : world) : moved e w e w.
Proof. exists []. rewrite app_nil_r. repeat split. Qed.

Lemma moved_trans (e1 e2 e3 : t) (w1 w2 w3 : world) :
  moved e1 w1 e2 w2 -> moved e2 w2 e3 w3 -> moved e1 w1 e3 w3.
Proof.
  intros (n1 & H1 & F1 & L1) (n2 & H2 & F2 & L2).
  exists (n1 ++ n2). rewrite H2, H1, <- app_assoc, notified_app, follows_app.
  split; [reflexivity |]. rewrite F1, L1, F2, last_app_default, L1, L2. tauto.
Qed.

Lemma deliver_events (r : outcome (option ChunkWriter.emission)) (e : t) (w : world) :
  exists new, events (deliver r e w) = events w ++ new /\ notified new = [].
Proof.
  unfold deliver, _handle_chunk_ready.
  destruct r as [[em |] | x]; try (exists []; rewrite app_nil_r; tauto).
  destruct (truthy_id (_meeting_id e)) as [mid |];
    [destruct (Db.create_chunk _ _ _ _ _ _) as [d | x] |]; cbn [fst];
    try (exists [ChunkReady (ChunkWriter.info em)]; split; reflexivity).
  exists []. rewrite app_nil_r. tauto.
Qed.

Lemma start_moved (ok : bool) (now_writer now : Q) (mid : Z) (e : t) (w : world) :
  moved e w (fst (fst (start config ok now_writer now mid e w)))
            (snd (fst (start config ok now_writer now mid e w))).
Proof.
  unfold start. destruct (_state e) eqn:Es; cbn [state_eqb negb fst snd];
    try apply moved_refl.
  destruct ok; cbn [fst snd _set_state]; unfold moved; rewrite Es; eexists;
    cbn [events emit on_db];
    (split; [rewrite <- ?app_assoc; reflexivity | split; reflexivity]).
Qed.

Lemma audio_moved (data : bytes) (e : t) (w : world) :
  moved e w (fst (fst (_handle_audio_data data e w)))
            (snd (fst (_handle_audio_data data e w))).
Proof.
  unfold _handle_audio_data.
  destruct (_chunk_writer e) as [cw |]; [| apply moved_refl].
  destruct (state_eqb (_state e) RECORDING); [| apply moved_refl].
  destruct (ChunkWriter.write data cw) as [cw' r]. cbn [fst snd].
  destruct (deliver_events r (with_chunk_writer e (Some cw')) w) as (new & Hev & Hn).
  exists new. rewrite Hev, Hn. repeat split.
Qed.

Lemma stop_body_events (e : t) (w : world) :
  exists new,
    events (snd (fst (fst (stop_body e w)))) = events w ++ new
    /\ notified new = []
    /\ _state (fst (fst (fst (stop_body e w)))) = _state e.
Proof.
  unfold stop_body.
  set (e1 := match _capture e with Some _ => _ | None => _ end).
  assert (Hs : _state e1 = _state e) by (subst e1; destruct (_capture e); reflexivity).
  clearbody e1. rewrite <- Hs. clear Hs.
  destruct (_chunk_writer e1) as [cw |].
  - destruct (ChunkWriter.stop cw) as [cw' r].
    destruct (deliver_events r (with_chunk_writer e1 (Some cw')) w) as (new & Hev & Hn).
    exists new. destruct r as [o | x]; cbn [fst snd]; [| tauto].
    destruct (ChunkWriter.get_total_duration cw'); cbn [fst snd]; [| tauto].
    destruct (truthy_id _); cbn [fst snd events on_db]; tauto.
  - exists []. rewrite app_nil_r.
    destruct (truthy_id _); cbn [fst snd events on_db]; tauto.
Qed.

Lemma stop_moved (e : t) (w : world) :
  moved e w (fst (fst (stop e w))) (snd (fst (stop e w))).
Proof.
  unfold stop. destruct (_state e) eqn:Es; cbn [state_eqb negb fst snd];
    try apply moved_refl.
  cbn [_set_state].
  match goal with |- context [stop_body ?a ?b] =>
    destruct (stop_body_events a b) as (new & Hev & Hn & _);
    destruct (stop_body a b) as [[[e1 w1] d] raised] end.
  cbn [fst snd events emit] in *.
  exists ([StateChanged STOPPING] ++ new
          ++ match raised with Some x => [Error x] | None => [] end
          ++ [StateChanged STOPPED]).
  rewrite Es, !notified_app, Hn.
  destruct raised; cbn [events emit]; rewrite Hev, <- ?app_assoc; repeat split.
Qed.

Lemma reset_moved (e : t) (w : world) :
  settled e -> moved e w (fst (reset e w)) (snd (reset e w)).
Proof.
  unfold reset, settled. destruct (_state e) eqn:Es; cbn [state_eqb fst snd];
    try tauto; intros _; try apply moved_refl;
    exists [StateChanged IDLE]; rewrite Es; repeat split.
Qed.

Lemma exec_moved (c : call) (e : t) (w : world) :
  settled e -> moved e w (fst (exec config c e w)) (snd (exec config c e w)).
Proof.
  intros Hs. destruct c; cbn [exec].
  - apply start_moved.
  - apply audio_moved.
  - apply stop_moved.
  - apply reset_moved, Hs.
Qed.

Lemma run_moved (cs : list call) :
  forall e w, settled e ->
    moved e w (fst (run config cs e w)) (snd (run config cs e w)).
Proof.
  induction cs as [| c cs IH]; intros e w Hs; cbn [run]; [apply moved_refl |].
  pose proof (exec_moved c e w Hs) as H1.
  pose proof (exec_settled config c e w Hs) as Hs1.
  destruct (exec config c e w) as [e1 w1]. cbn [fst snd] in *.
  apply (moved_trans _ _ _ _ _ _ H1), IH, Hs1.
Qed.

(** X22. Whatever calls are made on a new engine ([start], audio blocks,
    [stop], [reset], in any order and with any outcome of the capture
    source), the states it announces through the state callback form a
    path of the state machine that begins at Idle (Idle to Starting,
    Starting to Recording or back to Idle, Recording to Stopping, Stopping
    to Stopped, Stopped to Idle, Idle to Idle), and the last state
    announced is the state the engine is in. *)
Theorem announced_states_follow_the_machine (cs : list call) (w0 : world) :
  exists new,
    events (snd (run config cs init w0)) = events w0 ++ new
    /\ follows IDLE (notified new) = true
    /\ List.last (notified new) IDLE = _state (fst (run config cs init w0)).
Proof.
  apply (run_moved cs init w0). reflexivity.
Qed.

End RecordingEngineMachine.

Section RecordingEngineSessions.

Import RecordingEngine.

Variable config : Config.AudioConfig.

(** X23. Once [stop()] has run on a recording engine the engine is
    Stopped and holds no segmenter: a second [stop()] returns 0 and
    changes nothing, audio blocks are ignored, [start()] is refused, and
    the segment count reads 0. Only after [reset()] can a recording be
    started again. *)
Theorem after_stop_only_reset_restarts (e : t) (w : world) :
  _state e = RECORDING ->
  let e1 := fst (fst (stop e w)) in
  let w1 := snd (fst (stop e w)) in
  _state e1 = STOPPED
  /\ stop e1 w1 = (e1, w1, 0%Q)
  /\ (forall data, _handle_audio_data data e1 w1 = (e1, w1, Returned tt))
  /\ (forall ok now_writer now mid, start config ok now_writer now mid e1 w1 = (e1, w1, false))
  /\ get_chunk_count e1 = 0
  /\ (forall ok now_writer now mid,
        snd (start config ok now_writer now mid (fst (reset e1 w1)) (snd (reset e1 w1))) = ok).
Proof.
  intros Es e1 w1. destruct (stop_releases e w Es) as (Hs & Hcw & _).
  fold e1 in Hs, Hcw. clearbody e1 w1.
  split; [exact Hs |].
  split; [apply stop_elsewhere; congruence |].
  split; [intros data; unfold _handle_audio_data; rewrite Hcw; reflexivity |].
  split; [intros; unfold start; rewrite Hs; reflexivity |].
  split; [unfold get_chunk_count; rewrite Hcw; reflexivity |].
  intros ok now_writer now mid. unfold reset, start. rewrite Hs. cbn.
  destruct ok; reflexivity.
Qed.

Lemma save_chunk_received (cw : ChunkWriter.t) :
  AudioBuffer._total_received_bytes (ChunkWriter._buffer (fst (ChunkWriter._save_chunk cw)))
  = AudioBuffer._total_received_bytes (ChunkWriter._buffer cw).
Proof.
  unfold ChunkWriter._save_chunk. destruct (negb _); [reflexivity |].
  match goal with |- context [AudioBuffer.read ?n ?b] =>
    pose proof (read_keeps_settings n b) as (_ & _ & H);
    destruct (AudioBuffer.read n b) as [buf data] end.
  cbn [fst] in H. destruct data as [| x data]; [exact H |].
  match goal with |- context [Py.len ?d >? ?o] => destruct (Py.len d >? o) end;
    match goal with |- context [ChunkWriter.build_chunk ?a ?b] =>
      destruct (ChunkWriter.build_chunk a b) end; exact H.
Qed.

Lemma segmenter_write_received (data : bytes) (cw cw' : ChunkWriter.t)
    (r : outcome (option ChunkWriter.emission)) :
  ChunkWriter.coherent cw ->
  ChunkWriter.bytes_per_second cw <> 0 ->
  ChunkWriter._is_running cw = true ->
  ChunkWriter.write data cw = (cw', r) ->
  ChunkWriter.coherent cw'
  /\ ChunkWriter._is_running cw' = true
  /\ ChunkWriter.bytes_per_second cw' = ChunkWriter.bytes_per_second cw
  /\ AudioBuffer._total_received_bytes (ChunkWriter._buffer cw')
     = AudioBuffer._total_received_bytes (ChunkWriter._buffer cw) + Py.len data
  /\ exists o, r = Returned o.
Proof.
  intros Hco Hnz Hrun Hw.
  destruct (write_effect data cw cw' r Hco Hw) as ((_ & _ & Hb & _) & Hr & Hco' & _).
  split; [exact Hco' |]. split; [congruence |]. split; [exact Hb |].
  unfold ChunkWriter.write in Hw. rewrite Hrun in Hw. cbn [negb] in Hw.
  set (w1 := ChunkWriter.with_buffer cw (AudioBuffer.write data (ChunkWriter._buffer cw))) in *.
  assert (Hrec : AudioBuffer._total_received_bytes (ChunkWriter._buffer w1)
                 = AudioBuffer._total_received_bytes (ChunkWriter._buffer cw) + Py.len data).
  { subst w1. cbn [ChunkWriter._buffer ChunkWriter.with_buffer]. unfold AudioBuffer.write.
    destruct (AudioBuffer.evict _ _ _). reflexivity. }
  assert (Hco1 : ChunkWriter.coherent w1).
  { destruct Hco as [Hrate Hcons]. split.
    - subst w1. cbn [ChunkWriter._buffer ChunkWriter.with_buffer ChunkWriter.bytes_per_second].
      rewrite buffer_write_rate. exact Hrate.
    - apply write_consistent, Hcons. }
  assert (Hb1 : ChunkWriter.bytes_per_second w1 = ChunkWriter.bytes_per_second cw)
    by reflexivity.
  unfold AudioBuffer.available_seconds, Py.truediv in Hw.
  destruct Hco1 as [Hrate1 Hcons1]. rewrite Hrate1, Hb1 in Hw.
  destruct (Z.eqb_spec (ChunkWriter.bytes_per_second cw) 0) as [Hz | _]; [contradiction |].
  destruct (Qle_bool _ _).
  - pose proof (save_chunk_received w1) as Hsave. rewrite Hw in Hsave. cbn [fst] in Hsave.
    split; [congruence |].
    destruct (save_chunk_effect w1 cw' r (conj Hrate1 Hcons1) Hw)
      as (_ & _ & _ & [(-> & _) | [(em & fresh & -> & _) | (x & _ & Hz)]]).
    + eexists; reflexivity.
    + eexists; reflexivity.
    + congruence.
  - inversion Hw; subst. split; [exact Hrec | eexists; reflexivity].
Qed.

Lemma segmenter_stop_received (cw cw' : ChunkWriter.t)
    (r : outcome (option ChunkWriter.emission)) :
  ChunkWriter.coherent cw ->
  ChunkWriter.bytes_per_second cw <> 0 ->
  ChunkWriter.stop cw = (cw', r) ->
  AudioBuffer.bytes_per_second (ChunkWriter._buffer cw') = ChunkWriter.bytes_per_second cw
  /\ AudioBuffer._total_received_bytes (ChunkWriter._buffer cw')
     = AudioBuffer._total_received_bytes (ChunkWriter._buffer cw)
  /\ exists o, r = Returned o.
Proof.
  intros Hco Hnz Hs.
  destruct (stop_effect cw cw' r Hco Hs) as ((_ & _ & Hb & _) & _ & [Hrate' _] & _ & Hcase).
  split; [congruence |]. split.
  - unfold ChunkWriter.stop in Hs. destruct (negb _); [inversion Hs; reflexivity |].
    match type of Hs with context [AudioBuffer.read ?n ?b] =>
      pose proof (read_keeps_settings n b) as (_ & _ & H);
      destruct (AudioBuffer.read n b) as [buf data] end.
    cbn [fst ChunkWriter._buffer ChunkWriter.with_is_running] in H.
    destruct data as [| x data]; [inversion Hs; subst; exact H |].
    revert Hs.
    match goal with |- context [ChunkWriter.build_chunk ?a ?b] =>
      destruct (ChunkWriter.build_chunk a b) end;
      intros Hs; inversion Hs; subst; exact H.
  - destruct Hcase as [(_ & _ & ->) | [(_ & -> & _) | [(_ & em & -> & _) | (_ & Hz & _)]]];
      try (eexists; reflexivity). contradiction.
Qed.

Lemma deliver_meetings (r : outcome (option ChunkWriter.emission)) (e : t) (w : world) :
  Db.meetings (db (deliver r e w)) = Db.meetings (db w).
Proof.
  unfold deliver, _handle_chunk_ready. destruct r as [[em |] | x]; try reflexivity.
  destruct (truthy_id _) as [mid |]; [| reflexivity].
  unfold Db.create_chunk. destruct (Db.meetings (db w) !! mid); reflexivity.
Qed.

Lemma audio_recording_for (mid B n : Z) (data : bytes) (e : t) (w : world) :
  B <> 0 ->
  recording_for mid B n e ->
  recording_for mid B (n + Py.len data) (fst (fst (_handle_audio_data data e w)))
  /\ Db.meetings (db (snd (fst (_handle_audio_data data e w)))) = Db.meetings (db w).
Proof.
  intros HB (Hs & Hm & cw & Hcw & Hco & Hrun & Hbps & Hn).
  unfold _handle_audio_data. rewrite Hcw, Hs. cbn [state_eqb].
  destruct (ChunkWriter.write data cw) as [cw' r] eqn:Hw. cbn [fst snd].
  destruct (segmenter_write_received data cw cw' r Hco ltac:(congruence) Hrun Hw)
    as (Hco' & Hrun' & Hb' & Hn' & _).
  split; [| apply deliver_meetings].
  split; [exact Hs |]. split; [exact Hm |].
  exists cw'. split; [reflexivity |]. repeat split; try assumption; try apply Hco'; congruence.
Qed.

Lemma run_audio_recording_for (mid B : Z) (blocks : list bytes) :
  B <> 0 ->
  forall n e w,
    recording_for mid B n e ->
    recording_for mid B (n + Py.len (concat blocks))
      (fst (run config (List.map Audio blocks) e w))
    /\ Db.meetings (db (snd (run config (List.map Audio blocks) e w))) = Db.meetings (db w).
Proof.
  intros HB. induction blocks as [| data blocks IH]; intros n e w Hrec.
  - cbn. unfold Py.len. cbn. rewrite Z.add_0_r. tauto.
  - cbn [List.map run exec].
    destruct (audio_recording_for mid B n data e w HB Hrec) as [H1 Hm1].
    destruct (_handle_audio_data data e w) as [[e1 w1] r1]. cbn [fst snd] in *.
    destruct (IH _ e1 w1 H1) as [H2 Hm2].
    cbn [concat]. rewrite len_app, Z.add_assoc. split; [exact H2 | congruence].
Qed.

Lemma stop_recording_for (mid B n : Z) (e : t) (w : world) :
  B <> 0 -> mid <> 0 ->
  recording_for mid B n e ->
  snd (stop e w) = (inject_Z n / inject_Z B)%Q
  /\ _state (fst (fst (stop e w))) = STOPPED
  /\ Db.meetings (db (snd (fst (stop e w))))
     = alter (fun m => Db.set_duration (inject_Z n / inject_Z B)%Q
                         (Db.set_status "processing" m)) mid (Db.meetings (db w)).
Proof.
  intros HB Hmid (Hs & Hm & cw & Hcw & Hco & Hrun & Hbps & Hn).
  unfold stop. rewrite Hs. cbn [state_eqb negb _set_state]. unfold stop_body.
  set (e0 := {| _state := STOPPING; _capture := _capture e;
                _chunk_writer := _chunk_writer e; _meeting_id := _meeting_id e;
                _start_time := _start_time e |}).
  set (e1 := match _capture e0 with Some _ => _ | None => e0 end).
  assert (He1 : _chunk_writer e1 = Some cw /\ _meeting_id e1 = Some mid).
  { subst e1 e0. cbn [_capture]. destruct (_capture e); cbn; tauto. }
  clearbody e1. destruct He1 as [Hcw1 Hm1]. rewrite Hcw1.
  destruct (ChunkWriter.stop cw) as [cw' r] eqn:Hstop.
  destruct (segmenter_stop_received cw cw' r Hco ltac:(congruence) Hstop)
    as (Hrate' & Hn' & o & ->).
  unfold ChunkWriter.get_total_duration, AudioBuffer.total_received_seconds, Py.truediv.
  rewrite Hrate', Hn', Hbps, Hn.
  destruct (Z.eqb_spec B 0) as [Hz | _]; [contradiction |].
  cbn [with_chunk_writer _meeting_id]. rewrite Hm1. unfold truthy_id.
  destruct (Z.eqb_spec mid 0) as [Hz | _]; [contradiction |].
  cbn [fst snd _state _set_state _cleanup db on_db emit Db.meetings Db.stop_recording
       Db.update Db.with_meetings].
  rewrite deliver_meetings. repeat split.
Qed.

(** X24. A recording session reports and stores the duration of the audio
    it received: after a successful [start()] for meeting [mid] and any
    sequence of audio blocks, [stop()] returns the number of bytes
    received divided by the byte rate (whether or not all of them found
    room in the segmenter's buffer), leaves the engine Stopped, and the
    meeting's row has status "processing", that duration, and the segment
    directory as its audio path. *)
Theorem stop_reports_received_audio (now_writer now : Q) (mid : Z)
    (blocks : list bytes) (w0 : world) (row : Db.Meeting) :
  let B := ChunkWriter.bytes_per_second
             (ChunkWriter.init config mid None None None None) in
  let session := run config (Start true now_writer now mid :: List.map Audio blocks)
                   init w0 in
  let stopped := stop (fst session) (snd session) in
  let duration := (inject_Z (Py.len (concat blocks)) / inject_Z B)%Q in
  B <> 0 ->
  mid <> 0 ->
  Db.get_by_id mid (db w0) = Some row ->
  snd stopped = duration
  /\ _state (fst (fst stopped)) = STOPPED
  /\ Db.get_by_id mid (db (snd (fst stopped)))
     = Some (Db.set_duration duration
               (Db.set_status "processing"
                  (Db.set_audio_path (ChunksDir mid) (Db.set_status "recording" row)))).
Proof.
  intros B session stopped duration HB Hmid Hrow.
  subst session. cbn [run exec] in stopped.
  set (started := start config true now_writer now mid init w0) in *.
  assert (Hrec : recording_for mid B 0 (fst (fst started))
                 /\ Db.meetings (db (snd (fst started)))
                    = alter (fun m => Db.set_audio_path (ChunksDir mid)
                                        (Db.set_status "recording" m))
                        mid (Db.meetings (db w0))).
  { subst started. unfold start. cbn. split; [| reflexivity].
    split; [reflexivity |]. split; [reflexivity |]. eexists. split; [reflexivity |].
    split; [apply start_coherent, init_coherent |]. repeat split. }
  destruct started as [[e1 w1] ok]. cbn [fst snd] in *. destruct Hrec as [Hrec Hdb1].
  destruct (run_audio_recording_for mid B blocks HB 0 e1 w1 Hrec) as [Hrec2 Hdb2].
  subst stopped.
  destruct (run config (List.map Audio blocks) e1 w1) as [e2 w2]. cbn [fst snd] in *.
  destruct (stop_recording_for mid B _ e2 w2 HB Hmid Hrec2) as (Hd & Hst & Hdb3).
  rewrite Z.add_0_l in Hd, Hdb3. split; [exact Hd |]. split; [exact Hst |].
  unfold Db.get_by_id in *. rewrite Hdb3, Hdb2, Hdb1, !lookup_alter_eq, Hrow. reflexivity.
Qed.

Lemma stored_refl (mid : Z) (w : world) : stored mid w w.
Proof. intros Hrow. split; [exact Hrow |]. exists []. rewrite !app_nil_r. tauto. Qed.

Lemma stored_trans (mid : Z) (w1 w2 w3 : world) :
  stored mid w1 w2 -> stored mid w2 w3 -> stored mid w1 w3.
Proof.
  intros H12 H23 Hrow. destruct (H12 Hrow) as (Hrow2 & n1 & E1 & D1).
  destruct (H23 Hrow2) as (Hrow3 & n2 & E2 & D2).
  split; [exact Hrow3 |]. exists (n1 ++ n2).
  rewrite E2, E1, D2, D1, ready_chunks_app, List.map_app, <- !app_assoc. tauto.
Qed.

Lemma stored_emit_state (mid : Z) (s : RecordingState) (w : world) :
  stored mid w (emit (StateChanged s) w).
Proof.
  intros Hrow. split; [exact Hrow |].
  exists [StateChanged s]. cbn. rewrite app_nil_r. tauto.
Qed.

Lemma stored_emit_error (mid : Z) (x : Py.exn) (w : world) :
  stored mid w (emit (Error x) w).
Proof.
  intros Hrow. split; [exact Hrow |].
  exists [Error x]. cbn. rewrite app_nil_r. tauto.
Qed.

Lemma stored_update (mid k : Z) (f : Db.Meeting -> Db.Meeting) (w : world) :
  stored mid w (on_db (Db.update k f) w).
Proof.
  intros Hrow. split.
  - revert Hrow. unfold Db.get_by_id, Db.update. cbn [db on_db Db.meetings Db.with_meetings].
    destruct (Z.eq_dec k mid) as [-> | Hne].
    + rewrite lookup_alter_eq. apply fmap_is_Some.
    + rewrite lookup_alter_ne by exact Hne. tauto.
  - exists []. cbn. rewrite !app_nil_r. tauto.
Qed.

Lemma deliver_stored (mid : Z) (r : outcome (option ChunkWriter.emission))
    (e : t) (w : world) :
  mid <> 0 -> _meeting_id e = Some mid -> stored mid w (deliver r e w).
Proof.
  intros Hmid Hm. unfold deliver, _handle_chunk_ready.
  destruct r as [[em |] | x]; try apply stored_refl.
  rewrite Hm. unfold truthy_id. destruct (Z.eqb_spec mid 0) as [Hz | _]; [contradiction |].
  intros Hrow. unfold Db.create_chunk, Db.get_by_id in *.
  destruct (Db.meetings (db w) !! mid) as [row |] eqn:E; [| destruct Hrow; discriminate].
  cbn. rewrite E. split; [eexists; reflexivity |].
  exists [ChunkReady (ChunkWriter.info em)]. split; reflexivity.
Qed.

Lemma start_stored (mid : Z) (ok : bool) (now_writer now : Q) (e : t) (w : world) :
  stored mid w (snd (fst (start config ok now_writer now mid e w)))
  /\ (tagged mid e -> tagged mid (fst (fst (start config ok now_writer now mid e w)))).
Proof.
  unfold start. destruct (state_eqb (_state e) IDLE);
    cbn [negb fst snd]; [| split; [apply stored_refl | tauto]].
  destruct ok; cbn [_set_state fst snd].
  - split; [| intros _ _; reflexivity].
    eapply stored_trans; [apply stored_emit_state |].
    eapply stored_trans; [apply stored_update | apply stored_emit_state].
  - split; [| intros _; unfold tagged; cbn; discriminate].
    eapply stored_trans; [apply stored_emit_state |].
    eapply stored_trans; [apply stored_emit_state | apply stored_emit_error].
Qed.

Lemma audio_stored (mid : Z) (data : bytes) (e : t) (w : world) :
  mid <> 0 -> tagged mid e ->
  stored mid w (snd (fst (_handle_audio_data data e w)))
  /\ tagged mid (fst (fst (_handle_audio_data data e w))).
Proof.
  intros Hmid Ht. unfold _handle_audio_data.
  destruct (_chunk_writer e) as [cw |]; [| split; [apply stored_refl | exact Ht]].
  destruct (_state e) eqn:Es; cbn [state_eqb fst snd];
    try (split; [apply stored_refl | exact Ht]).
  destruct (ChunkWriter.write data cw) as [cw' r]. cbn [fst snd].
  split; [apply deliver_stored; [exact Hmid | apply Ht, Es] |].
  unfold tagged. cbn. intros _. apply Ht, Es.
Qed.

Lemma stop_stored (mid : Z) (e : t) (w : world) :
  mid <> 0 -> tagged mid e ->
  stored mid w (snd (fst (stop e w))) /\ tagged mid (fst (fst (stop e w))).
Proof.
  intros Hmid Ht.
  destruct (_state e) eqn:Es;
    try (rewrite stop_elsewhere by congruence; split; [apply stored_refl | exact Ht]).
  destruct (stop_releases e w Es) as (Hst & _). split; [| unfold tagged; congruence].
  specialize (Ht Es). clear Hst. unfold stop. rewrite Es. cbn [state_eqb negb _set_state].
  unfold stop_body.
  set (e0 := {| _state := STOPPING; _capture := _capture e;
                _chunk_writer := _chunk_writer e; _meeting_id := _meeting_id e;
                _start_time := _start_time e |}).
  set (e1 := match _capture e0 with Some _ => _ | None => e0 end).
  assert (He1 : _meeting_id e1 = Some mid).
  { subst e1 e0. cbn [_capture]. destruct (_capture e); exact Ht. }
  clearbody e1. clear e0.
  eapply stored_trans; [apply (stored_emit_state mid STOPPING) |].
  destruct (_chunk_writer e1) as [cw |].
  - destruct (ChunkWriter.stop cw) as [cw' r].
    pose proof (deliver_stored mid r (with_chunk_writer e1 (Some cw'))
                  (emit (StateChanged STOPPING) w) Hmid He1) as Hd.
    destruct r as [o | x]; cbn [fst snd].
    + destruct (ChunkWriter.get_total_duration cw'); cbn [fst snd].
      * destruct (truthy_id _);
          (eapply stored_trans; [exact Hd |]);
          [eapply stored_trans; [apply stored_update |] |]; apply stored_emit_state.
      * eapply stored_trans; [exact Hd |].
        eapply stored_trans; [apply stored_emit_error | apply stored_emit_state].
    + eapply stored_trans; [exact Hd |].
      eapply stored_trans; [apply stored_emit_error | apply stored_emit_state].
  - destruct (truthy_id _); cbn [fst snd];
      [eapply stored_trans; [apply stored_update |] |]; apply stored_emit_state.
Qed.

Lemma reset_stored (mid : Z) (e : t) (w : world) :
  tagged mid e ->
  stored mid w (snd (reset e w)) /\ tagged mid (fst (reset e w)).
Proof.
  intros Ht. unfold reset.
  destruct (state_eqb (_state e) RECORDING); cbn [fst snd _set_state].
  - split; [apply stored_refl | exact Ht].
  - split; [apply stored_emit_state | unfold tagged; cbn; discriminate].
Qed.

Lemma run_stored (mid : Z) (cs : list call) :
  mid <> 0 ->
  Forall (for_meeting mid) cs ->
  forall e w, tagged mid e -> stored mid w (snd (run config cs e w)).
Proof.
  intros Hmid Hall. induction Hall as [| c cs Hc _ IH]; intros e w Ht; cbn [run].
  - apply stored_refl.
  - assert (H1 : stored mid w (snd (exec config c e w))
                 /\ tagged mid (fst (exec config c e w))).
    { destruct c as [ok nw now mid' | data | |]; cbn [exec].
      - cbn in Hc. subst mid'. destruct (start_stored mid ok nw now e w). tauto.
      - apply audio_stored; assumption.
      - apply stop_stored; assumption.
      - apply reset_stored; assumption. }
    destruct (exec config c e w) as [e1 w1]. cbn [fst snd] in H1.
    apply (stored_trans _ _ _ _ (proj1 H1)), IH, H1.
Qed.

(** X25. The segment table mirrors the chunk callback for a meeting that
    has a row: over any sequence of calls on a new engine whose recordings
    are all for the meeting [mid] (not 0, and with a row in the meeting
    table), the rows added to the segment table are, in order, one row per
    segment passed to the chunk callback, with that segment's index, file
    path and times, the meeting id [mid] and status "pending"; the
    meeting keeps its row. *)
Theorem chunk_rows_mirror_chunk_callbacks (mid : Z) (cs : list call) (w0 : world) :
  mid <> 0 ->
  Forall (for_meeting mid) cs ->
  is_Some (Db.get_by_id mid (db w0)) ->
  is_Some (Db.get_by_id mid (db (snd (run config cs init w0))))
  /\ exists new,
       events (snd (run config cs init w0)) = events w0 ++ new
       /\ Db.audio_chunks (db (snd (run config cs init w0)))
          = Db.audio_chunks (db w0) ++ List.map (row_of_chunk mid) (ready_chunks new).
Proof.
  intros Hmid Hall. apply (run_stored mid cs Hmid Hall init w0).
  unfold tagged. cbn. discriminate.
Qed.

(** Without a row for the meeting the insert fails inside
    [_handle_chunk_ready]: nothing is stored and the chunk callback is not
    called. *)
Lemma chunk_of_missing_meeting (mid : Z) (c : ChunkWriter.ChunkInfo) (e : t) (w : world) :
  mid <> 0 -> _meeting_id e = Some mid -> Db.get_by_id mid (db w) = None ->
  _handle_chunk_ready c e w = (w, Raised Py.IntegrityError).
Proof.
  intros Hmid Hm Hnone. unfold _handle_chunk_ready, truthy_id, Db.create_chunk.
  rewrite Hm. destruct (Z.eqb_spec mid 0) as [Hz | _]; [contradiction |].
  unfold Db.get_by_id in Hnone. rewrite Hnone. reflexivity.
Qed.

End RecordingEngineSessions.

Section RecordingEngineExamples.

Import RecordingEngine.

Lemma after_stop_only_reset_restarts_witness :
  let e := fst (fst (start Config.default true 0 0 7 init empty_world)) in
  let w := snd (fst (start Config.default true 0 0 7 init empty_world)) in
  let e1 := fst (fst (stop e w)) in
  let w1 := snd (fst (stop e w)) in
  _state e1 = STOPPED
  /\ stop e1 w1 = (e1, w1, 0%Q)
  /\ (forall data, _handle_audio_data data e1 w1 = (e1, w1, Returned tt))
  /\ (forall ok now_writer now mid,
        start Config.default ok now_writer now mid e1 w1 = (e1, w1, false))
  /\ get_chunk_count e1 = 0
  /\ (forall ok now_writer now mid,
        snd (start Config.default ok now_writer now mid
               (fst (reset e1 w1)) (snd (reset e1 w1))) = ok).
Proof.
  apply (after_stop_only_reset_restarts Config.default
           (fst (fst (start Config.default true 0 0 7 init empty_world)))
           (snd (fst (start Config.default true 0 0 7 init empty_world)))).
  reflexivity.
Defined.

Lemma stop_reports_received_audio_witness :
  let row := Pipeline.sample_meeting "scheduled" in
  let w0 := {| db := {| Db.meetings := {[ 7 := row ]}; Db.transcripts := [];
                        Db.notes := []; Db.audio_chunks := [] |};
               events := [] |} in
  let blocks := [["a"; "b"; "c"]; ["d"; "e"; "f"]; ["g"; "h"; "i"; "j"]]%byte in
  let B := ChunkWriter.bytes_per_second
             (ChunkWriter.init Config.default 7 None None None None) in
  let session := run Config.default (Start true 0 0 7 :: List.map Audio blocks)
                   init w0 in
  let stopped := stop (fst session) (snd session) in
  let duration := (inject_Z (Py.len (concat blocks)) / inject_Z B)%Q in
  snd stopped = duration
  /\ _state (fst (fst stopped)) = STOPPED
  /\ Db.get_by_id 7 (db (snd (fst stopped)))
     = Some (Db.set_duration duration
               (Db.set_status "processing"
                  (Db.set_audio_path (ChunksDir 7) (Db.set_status "recording" row)))).
Proof.
  apply (stop_reports_received_audio Config.default 0 0 7
           [["a"; "b"; "c"]; ["d"; "e"; "f"]; ["g"; "h"; "i"; "j"]]%byte
           {| db := {| Db.meetings := {[ 7 := Pipeline.sample_meeting "scheduled" ]};
                       Db.transcripts := []; Db.notes := []; Db.audio_chunks := [] |};
              events := [] |}
           (Pipeline.sample_meeting "scheduled")).
  - vm_compute. discriminate.
  - lia.
  - reflexivity.
Defined.

Lemma chunk_rows_mirror_chunk_callbacks_witness :
  let w0 := {| db := {| Db.meetings := {[ 7 := Pipeline.sample_meeting "scheduled" ]};
                        Db.transcripts := []; Db.notes := []; Db.audio_chunks := [] |};
               events := [] |} in
  let cs := [Start true 0 0 7; Audio ["a"; "b"; "c"]%byte; Stop] in
  is_Some (Db.get_by_id 7 (db (snd (run Config.default cs init w0))))
  /\ exists new,
       events (snd (run Config.default cs init w0)) = events w0 ++ new
       /\ Db.audio_chunks (db (snd (run Config.default cs init w0)))
          = Db.audio_chunks (db w0) ++ List.map (row_of_chunk 7) (ready_chunks new).
Proof.
  apply (chunk_rows_mirror_chunk_callbacks Config.default 7
           [Start true 0 0 7; Audio ["a"; "b"; "c"]%byte; Stop]
           {| db := {| Db.meetings := {[ 7 := Pipeline.sample_meeting "scheduled" ]};
                       Db.transcripts := []; Db.notes := []; Db.audio_chunks := [] |};
              events := [] |}).
  - lia.
  - repeat constructor.
  - eexists. vm_compute. reflexivity.
Defined.

End RecordingEngineExamples.

(** ** The processing pipeline: what a run changes and how it ends *)

Section PipelineRuns.

Import Pipeline.
Local Open Scope pipeline_scope.

Variable P : providers.

Lemma elsewhere_same_refl (mid : Z) (d : Db.t) : elsewhere_same mid d d.
Proof. unfold elsewhere_same. tauto. Qed.

Lemma elsewhere_same_trans (mid : Z) (d1 d2 d3 : Db.t) :
  elsewhere_same mid d1 d2 -> elsewhere_same mid d2 d3 -> elsewhere_same mid d1 d3.
Proof.
  intros (A1 & B1 & C1 & D1 & E1) (A2 & B2 & C2 & D2 & E2).
  split; [intros k Hk; rewrite (A2 k Hk); apply (A1 k Hk) |].
  split; [tauto |]. split; [congruence |]. split; congruence.
Qed.

Lemma confined_refl (mid : Z) (s : t * world) : confined mid s s.
Proof. split; [apply elsewhere_same_refl | exists []; symmetry; apply app_nil_r]. Qed.

Lemma confined_trans (mid : Z) (s1 s2 s3 : t * world) :
  confined mid s1 s2 -> confined mid s2 s3 -> confined mid s1 s3.
Proof.
  intros [D1 (n1 & E1)] [D2 (n2 & E2)].
  split; [apply (elsewhere_same_trans mid _ _ _ D1 D2) |].
  exists (n1 ++ n2). rewrite E2, E1, app_assoc. reflexivity.
Qed.

Lemma confines_ret (mid : Z) {A} (a : A) : confines mid (ret a).
Proof. intros s s' r H. inversion H; subst. apply confined_refl. Qed.

Lemma confines_raise (mid : Z) {A} (e : Py.exn) : confines mid (@raise A e).
Proof. intros s s' r H. inversion H; subst. apply confined_refl. Qed.

Lemma confines_bind (mid : Z) {A B} (c : M A) (k : A -> M B) :
  confines mid c -> (forall a, confines mid (k a)) -> confines mid (bind c k).
Proof.
  intros Hc Hk s s' r H. unfold bind in H.
  destruct (c s) as [s1 [a | e]] eqn:Ec.
  - apply (confined_trans mid s s1 s'); [apply (Hc _ _ _ Ec) | apply (Hk a _ _ _ H)].
  - inversion H; subst. apply (Hc _ _ _ Ec).
Qed.

Lemma confines_emit (mid : Z) (ev : event) : confines mid (emit ev).
Proof.
  intros [p w] s' r H. unfold emit in H. inversion H; subst.
  split; [apply elsewhere_same_refl | exists [ev]; reflexivity].
Qed.

Lemma confines_read_db (mid : Z) {A} (f : Db.t -> A) : confines mid (read_db f).
Proof. intros [p w] s' r H. unfold read_db in H. inversion H; subst. apply confined_refl. Qed.

Lemma confines_on_db (mid : Z) (f : Db.t -> Db.t) :
  (forall d, elsewhere_same mid d (f d)) -> confines mid (on_db f).
Proof.
  intros Hf [p w] s' r H. unfold on_db in H. inversion H; subst.
  split; [apply Hf | exists []; symmetry; apply app_nil_r].
Qed.

Lemma confines_try_db (mid : Z) (f : Db.t -> outcome Db.t) :
  (forall d d', f d = Returned d' -> elsewhere_same mid d d') -> confines mid (try_db f).
Proof.
  intros Hf [p w] s' r H. unfold try_db in H.
  destruct (f (db w)) as [d' | e] eqn:E; inversion H; subst.
  - split; [apply (Hf _ _ E) | exists []; symmetry; apply app_nil_r].
  - apply confined_refl.
Qed.

Lemma confines_set_state (mid : Z) (st : PipelineState) (m : message) :
  confines mid (_set_state st m).
Proof.
  intros [p w] s' r H. unfold _set_state in H.
  apply (confines_emit mid (StateChanged st m)) in H. exact H.
Qed.

Lemma confines_call (mid : Z) {A} (ev : event) (r : outcome A) :
  confines mid (call ev r).
Proof.
  unfold call. apply confines_bind; [apply confines_emit | intros _].
  intros s s' r' H. inversion H; subst. apply confined_refl.
Qed.

Lemma update_elsewhere_same (mid : Z) (f : Db.Meeting -> Db.Meeting) (d : Db.t) :
  elsewhere_same mid d (Db.update mid f d).
Proof.
  unfold elsewhere_same, Db.get_by_id, Db.update.
  cbn [Db.meetings Db.with_meetings Db.transcripts Db.notes Db.audio_chunks].
  split; [intros k Hk; apply lookup_alter_ne; congruence |].
  split; [| tauto]. rewrite lookup_alter_eq. apply fmap_is_Some.
Qed.

Lemma filter_filter_same {A} (f : A -> bool) (l : list A) :
  List.filter f (List.filter f l) = List.filter f l.
Proof.
  induction l as [| x l IH]; [reflexivity |]. simpl.
  destruct (f x) eqn:E; simpl; rewrite ?E, IH; reflexivity.
Qed.

Lemma filter_none {A} (f : A -> bool) (l : list A) :
  Forall (fun x => f x = false) l -> List.filter f l = [].
Proof. induction 1 as [| x l Hx _ IH]; [reflexivity |]. simpl. rewrite Hx. exact IH. Qed.

Lemma filter_all {A} (f : A -> bool) (l : list A) :
  Forall (fun x => f x = true) l -> List.filter f l = l.
Proof. induction 1 as [| x l Hx _ IH]; [reflexivity |]. simpl. rewrite Hx, IH. reflexivity. Qed.

Lemma rows_of_meeting (mid : Z) (segs : list Asr.TranscriptSegment) :
  Forall (fun r => of_meeting mid r = true) (List.map (row_of mid) segs)
  /\ Forall (fun r => of_other_meeting mid r = false) (List.map (row_of mid) segs).
Proof.
  split; apply Forall_map, Forall_forall; intros seg _;
    unfold of_meeting, of_other_meeting; cbn; rewrite Z.eqb_refl; reflexivity.
Qed.

Lemma delete_transcripts_elsewhere_same (mid : Z) (d : Db.t) :
  elsewhere_same mid d (Db.delete_transcripts mid d).
Proof.
  unfold elsewhere_same, Db.get_by_id, Db.delete_transcripts.
  cbn [Db.meetings Db.with_transcripts Db.transcripts Db.notes Db.audio_chunks].
  repeat split; try tauto. apply (filter_filter_same (of_other_meeting mid)).
Qed.

Lemma create_batch_elsewhere_same (mid : Z) (segs : list Asr.TranscriptSegment)
    (d d' : Db.t) :
  Db.create_batch (List.map (row_of mid) segs) d = Returned d' ->
  elsewhere_same mid d d'.
Proof.
  unfold Db.create_batch. destruct (forallb _ _); [| discriminate].
  intros H. inversion H; subst. clear H.
  unfold elsewhere_same, Db.get_by_id.
  cbn [Db.meetings Db.with_transcripts Db.transcripts Db.notes Db.audio_chunks].
  repeat split; try tauto.
  rewrite List.filter_app, (filter_none _ _ (proj2 (rows_of_meeting mid segs))).
  apply app_nil_r.
Qed.

(** The insert of the rows of meeting [mid] succeeds exactly when the
    meeting has a row, or there is nothing to insert. *)
Lemma create_batch_of_meeting (mid : Z) (segs : list Asr.TranscriptSegment) (d : Db.t) :
  Db.create_batch (List.map (row_of mid) segs) d
  = match Db.get_by_id mid d, segs with
    | None, _ :: _ => Raised Py.IntegrityError
    | _, _ =>
        Returned (Db.with_transcripts d (Db.transcripts d ++ List.map (row_of mid) segs))
    end.
Proof.
  unfold Db.create_batch, Db.get_by_id.
  assert (H : forallb (Db.refers_to_a_meeting d) (List.map (row_of mid) segs)
              = match Db.meetings d !! mid, segs with None, _ :: _ => false | _, _ => true end).
  { induction segs as [| seg segs IH]; [destruct (Db.meetings d !! mid); reflexivity |].
    cbn [List.map forallb]. rewrite IH. unfold Db.refers_to_a_meeting at 1. cbn [Db.t_meeting_id row_of].
    destruct (Db.meetings d !! mid); [destruct segs |]; reflexivity. }
  rewrite H. destruct (Db.meetings d !! mid); [| destruct segs]; reflexivity.
Qed.

Lemma confines_transcribe_urls (mid total : Z) (urls : list string) :
  forall i merger, confines mid (transcribe_urls P total i urls merger).
Proof.
  induction urls as [| url rest IH]; intros i merger; cbn [transcribe_urls].
  - apply confines_ret.
  - apply confines_bind; [apply confines_emit | intros _].
    apply confines_bind; [apply confines_call | intros result; apply IH].
Qed.

Lemma confines_transcribe (mid : Z) (urls : option (list string)) :
  confines mid (_transcribe P mid urls).
Proof.
  unfold _transcribe. destruct urls as [[| url rest] |].
  - apply confines_bind; [apply confines_read_db | intros [| c cs]; apply confines_ret].
  - apply confines_bind; [apply confines_transcribe_urls | intros m; apply confines_ret].
  - apply confines_bind; [apply confines_read_db | intros [| c cs]; apply confines_ret].
Qed.

Lemma confines_save_transcripts (mid : Z) (tr : Asr.TranscriptResult) :
  confines mid (_save_transcripts mid tr).
Proof.
  unfold _save_transcripts. apply confines_bind.
  - apply confines_on_db, delete_transcripts_elsewhere_same.
  - intros _. destruct (List.map _ _) eqn:E; [apply confines_ret |].
    rewrite <- E. apply confines_try_db. intros d d'.
    apply create_batch_elsewhere_same.
Qed.

Lemma confines_generate_minutes (mid : Z) (tr : Asr.TranscriptResult) :
  confines mid (_generate_minutes P mid tr).
Proof.
  unfold _generate_minutes. apply confines_bind; [apply confines_emit | intros _].
  apply confines_bind; [apply confines_read_db | intros meeting].
  apply confines_bind; [apply confines_read_db | intros notes].
  destruct (Asr.segments tr).
  - apply confines_on_db. intros d. apply update_elsewhere_same.
  - apply confines_bind.
    + destruct meeting; [apply confines_call | apply confines_raise].
    + intros result. apply confines_bind; [apply confines_emit | intros _].
      apply confines_bind; [| intros _; apply confines_emit].
      apply confines_on_db. intros d. apply update_elsewhere_same.
Qed.

Lemma confines_process_body (mid : Z) (urls : option (list string)) :
  confines mid (process_body P mid urls).
Proof.
  unfold process_body. apply confines_bind; [apply confines_read_db |].
  intros [m |]; [| apply confines_raise].
  apply confines_bind; [apply confines_raise | intros _].
  apply confines_bind; [apply confines_on_db; intros d; apply update_elsewhere_same | intros _].
  apply confines_bind; [apply confines_set_state | intros _].
  apply confines_bind; [apply confines_transcribe | intros tr].
  apply confines_bind; [apply confines_set_state | intros _].
  apply confines_bind; [apply confines_save_transcripts | intros _].
  apply confines_bind; [apply confines_set_state | intros _].
  apply confines_bind; [apply confines_generate_minutes | intros _].
  apply confines_bind; [apply confines_set_state | intros _].
  apply confines_on_db. intros d. apply update_elsewhere_same.
Qed.

(** What [process] does once the run is accepted and the [try] block has
    ended in [s1] with outcome [r]. *)
Lemma process_accepted (mid : Z) (urls : option (list string)) (p : t) (w : world)
    (p1 : t) (w1 : world) (r : outcome unit) :
  accepts_run (_state p) = true ->
  process_body P mid urls (set_current (Some mid) p, w) = ((p1, w1), r) ->
  process P mid urls p w
  = match r with
    | Returned _ => (set_current None p1, w1, true)
    | Raised e =>
        ({| _state := FAILED; _current_meeting_id := None |},
         {| db := Db.update_status mid "failed" (db w1);
            events := events w1 ++ [StateChanged FAILED (ErrorText e); Error (ErrorText e)] |},
         false)
    end.
Proof.
  intros Hacc Hb. unfold process. rewrite Hacc, Hb. cbn [negb].
  destruct r as [u | e]; [reflexivity |].
  cbn. rewrite <- app_assoc. reflexivity.
Qed.

Lemma process_confined (mid : Z) (urls : option (list string)) (p : t) (w : world) :
  confined mid (p, w) (fst (process P mid urls p w)).
Proof.
  destruct (accepts_run (_state p)) eqn:Hacc.
  - destruct (process_body P mid urls (set_current (Some mid) p, w)) as [[p1 w1] r] eqn:Hb.
    rewrite (process_accepted mid urls p w p1 w1 r Hacc Hb).
    pose proof (confines_process_body mid urls _ _ _ Hb) as [Hd (new & He)].
    cbn [snd] in Hd, He. destruct r as [u | e]; cbn [fst].
    + split; [exact Hd | exists new; exact He].
    + split.
      * cbn [snd db]. apply (elsewhere_same_trans mid _ _ _ Hd), update_elsewhere_same.
      * eexists. cbn [snd events]. rewrite He, <- app_assoc. reflexivity.
  - unfold process. rewrite Hacc. apply confined_refl.
Qed.

(** X26. A run of [process] for a meeting, and each stage of the pipeline
    called for it ([_transcribe], [_save_transcripts],
    [_generate_minutes]), whether it returns or raises, changes nothing
    that belongs to another meeting: the rows and the transcripts of the
    other meetings, the notes and the segment table are as before; the
    meeting's own row is neither created nor deleted; the callbacks and
    provider calls made so far stay and new ones are appended. *)
Theorem process_touches_only_its_meeting (mid : Z) (urls : option (list string))
    (transcript : Asr.TranscriptResult) (p : t) (w : world) :
  confined mid (p, w) (fst (process P mid urls p w))
  /\ confined mid (p, w) (fst (_transcribe P mid urls (p, w)))
  /\ confined mid (p, w) (fst (_save_transcripts mid transcript (p, w)))
  /\ confined mid (p, w) (fst (_generate_minutes P mid transcript (p, w))).
Proof.
  split; [apply process_confined |].
  split; [| split].
  - destruct (_transcribe P mid urls (p, w)) as [s' r] eqn:E.
    apply (confines_transcribe mid urls _ _ _ E).
  - destruct (_save_transcripts mid transcript (p, w)) as [s' r] eqn:E.
    apply (confines_save_transcripts mid transcript _ _ _ E).
  - destruct (_generate_minutes P mid transcript (p, w)) as [s' r] eqn:E.
    apply (confines_generate_minutes mid transcript _ _ _ E).
Qed.

Lemma update_missing (mid : Z) (f : Db.Meeting -> Db.Meeting) (d : Db.t) :
  Db.get_by_id mid d = None -> Db.update mid f d = d.
Proof.
  unfold Db.get_by_id, Db.update, Db.with_meetings. intros H.
  rewrite alter_id by (intros x Hx; congruence). destruct d; reflexivity.
Qed.

(** X27. [process] for a meeting that has no row fails at once: it returns
    [False], the pipeline is Failed with no current meeting, the state
    callback and the error callback are called once each with the text of
    a [ValueError], no provider is called and the database is unchanged. *)
Theorem process_of_missing_meeting (mid : Z) (urls : option (list string))
    (p : t) (w : world) :
  accepts_run (_state p) = true ->
  Db.get_by_id mid (db w) = None ->
  exists msg,
    process P mid urls p w
    = ({| _state := FAILED; _current_meeting_id := None |},
       {| db := db w;
          events := events w ++ [StateChanged FAILED (ErrorText (Py.ValueError msg));
                                 Error (ErrorText (Py.ValueError msg))] |},
       false).
Proof.
  intros Hacc Hnone.
  assert (Hb : exists msg,
             process_body P mid urls (set_current (Some mid) p, w)
             = ((set_current (Some mid) p, w), Raised (Py.ValueError msg))).
  { eexists. unfold process_body, bind, read_db. rewrite Hnone. reflexivity. }
  destruct Hb as [msg Hb]. exists msg.
  rewrite (process_accepted mid urls p w _ _ _ Hacc Hb).
  unfold Db.update_status. rewrite (update_missing _ _ _ Hnone). reflexivity.
Qed.


End PipelineRuns.

Section PipelineStages.

Import Pipeline.
Local Open Scope pipeline_scope.

Variable P : providers.

Lemma bind_emit {B} (ev : event) (k : unit -> M B) (p : t) (w : world) :
  bind (emit ev) k (p, w) = k tt (p, {| db := db w; events := events w ++ [ev] |}).
Proof. reflexivity. Qed.

Lemma bind_on_db {B} (f : Db.t -> Db.t) (k : unit -> M B) (p : t) (w : world) :
  bind (on_db f) k (p, w) = k tt (p, {| db := f (db w); events := events w |}).
Proof. reflexivity. Qed.

Lemma bind_raised {A B} (c : M A) (k : A -> M B) (s s' : t * world) (e : Py.exn) :
  c s = (s', Raised e) -> bind c k s = (s', Raised e).
Proof. intros H. unfold bind. rewrite H. reflexivity. Qed.

Lemma bind_call {A B} (ev : event) (r : A) (k : A -> M B) (p : t) (w : world) :
  bind (call ev (Returned r)) k (p, w)
  = k r (p, {| db := db w; events := events w ++ [ev] |}).
Proof. reflexivity. Qed.

Lemma call_raised {A} (ev : event) (e : Py.exn) (p : t) (w : world) :
  @call A ev (Raised e) (p, w)
  = ((p, {| db := db w; events := events w ++ [ev] |}), Raised e).
Proof. reflexivity. Qed.

(** The recognition loop over URLs of which the first that fails is
    [bad]: the loop stops there. *)
Lemma transcribe_urls_failure (bad : string) (rest : list string) (e : Py.exn)
    (urls_ok : list string) :
  Forall (fun u => exists r, transcribe_url P u = Returned r) urls_ok ->
  transcribe_url P bad = Raised e ->
  forall total i merger p w,
    exists new,
      transcribe_urls P total i (urls_ok ++ bad :: rest) merger (p, w)
      = ((p, {| db := db w; events := events w ++ new |}), Raised e)
      /\ omap (fun ev => match ev with RecognitionCall url => Some url | _ => None end) new
         = urls_ok ++ [bad]
      /\ List.filter is_generation_call new = [].
Proof.
  intros Hok Hbad. induction Hok as [| u urls_ok [r Hu] _ IH]; intros total i merger p w.
  - cbn [app transcribe_urls]. unfold _report_progress.
    rewrite bind_emit. rewrite Hbad. erewrite bind_raised by apply call_raised.
    eexists. cbn [db events]. rewrite <- app_assoc. split; [reflexivity |].
    split; reflexivity.
  - cbn [app transcribe_urls]. unfold _report_progress.
    rewrite bind_emit, Hu, bind_call.
    match goal with |- context [transcribe_urls P total ?j _ ?mg (p, ?w1)] =>
      destruct (IH total j mg p w1) as (new & Hrun & Hrec & Hgen) end.
    rewrite Hrun. cbn [db events].
    exists ([Progress (inject_Z (i + 1) / inject_Z total * (6 # 10))%Q
               (TranscribingAudio (i + 1) total);
             RecognitionCall u] ++ new).
    rewrite <- !app_assoc. split; [reflexivity |].
    rewrite omap_app, List.filter_app, Hrec, Hgen. split; reflexivity.
Qed.

Lemma transcribe_nonempty (mid : Z) (urls : list string) :
  urls <> [] ->
  _transcribe P mid (Some urls)
  = (merger <- transcribe_urls P (Py.len urls) 0 urls
                 (TranscriptMerger.init TranscriptMerger.default_overlap_threshold) ;;
     ret (TranscriptMerger.get_merged_result merger)).
Proof. destruct urls; [congruence | reflexivity]. Qed.

(** X29. When recognition fails for one of the URLs, [_transcribe] stops
    there and raises that failure: the recognition provider has been
    called for the URLs up to and including the failing one, in order, and
    for no later one; the generator is not called; the pipeline object and
    the database are as before. *)
Theorem recognition_failure_stops_transcription (mid : Z) (urls_ok : list string)
    (bad : string) (rest : list string) (e : Py.exn) (p : t) (w : world) :
  Forall (fun u => exists r, transcribe_url P u = Returned r) urls_ok ->
  transcribe_url P bad = Raised e ->
  let after := _transcribe P mid (Some (urls_ok ++ bad :: rest)) (p, w) in
  snd after = Raised e
  /\ fst (fst after) = p
  /\ db (snd (fst after)) = db w
  /\ recognition_calls (snd (fst after)) = recognition_calls w ++ urls_ok ++ [bad]
  /\ generation_calls (snd (fst after)) = generation_calls w.
Proof.
  intros Hok Hbad after. subst after.
  destruct (transcribe_urls_failure bad rest e urls_ok Hok Hbad
              (Py.len (urls_ok ++ bad :: rest)) 0
              (TranscriptMerger.init TranscriptMerger.default_overlap_threshold) p w)
    as (new & Hrun & Hrec & Hgen).
  rewrite transcribe_nonempty by (destruct urls_ok; discriminate).
  rewrite (bind_raised _ _ _ _ _ Hrun). cbn [fst snd db events].
  unfold recognition_calls, generation_calls. cbn [events].
  rewrite omap_app, List.filter_app, Hrec, Hgen, app_nil_r. repeat split.
Qed.

Lemma filter_complement {A} (f : A -> bool) (l : list A) :
  List.filter f (List.filter (fun x => negb (f x)) l) = [].
Proof.
  induction l as [| x l IH]; [reflexivity |]. simpl.
  destruct (f x) eqn:E; simpl; rewrite ?E; exact IH.
Qed.

(** What [_save_transcripts] does, by whether the insert is accepted. *)
Lemma save_transcripts_outcome (mid : Z) (transcript : Asr.TranscriptResult)
    (p : t) (w : world) :
  let d := Db.delete_transcripts mid (db w) in
  _save_transcripts mid transcript (p, w)
  = match Db.get_by_id mid (db w), Asr.segments transcript with
    | None, _ :: _ => ((p, {| db := d; events := events w |}), Raised Py.IntegrityError)
    | _, [] => ((p, {| db := d; events := events w |}), Returned tt)
    | _, segs =>
        ((p, {| db := Db.with_transcripts d
                        (Db.transcripts d ++ List.map (row_of mid) segs);
                events := events w |}), Returned tt)
    end.
Proof.
  intros d. unfold _save_transcripts. rewrite bind_on_db. fold d.
  pose proof (create_batch_of_meeting mid (Asr.segments transcript) d) as Hb.
  change (Db.get_by_id mid d) with (Db.get_by_id mid (db w)) in Hb.
  destruct (Asr.segments transcript) as [| seg segs].
  - destruct (Db.get_by_id mid (db w)); reflexivity.
  - cbn [List.map] in *. unfold try_db. cbn [db events]. rewrite Hb.
    destruct (Db.get_by_id mid (db w)); reflexivity.
Qed.

(** X30. For a meeting that has a row, [_save_transcripts] replaces the
    transcript of the meeting and does not raise: afterwards the meeting's
    rows are the spans of the given transcript, one row per span in the
    same order, with the span's times, speaker, text and confidence,
    whatever rows the meeting had before; the rows of the other meetings
    are kept in their order. *)
Theorem saved_transcript_replaces_the_old_one (mid : Z)
    (transcript : Asr.TranscriptResult) (p : t) (w : world) :
  is_Some (Db.get_by_id mid (db w)) ->
  let after := _save_transcripts mid transcript (p, w) in
  snd after = Returned tt
  /\ fst (fst after) = p
  /\ List.filter (of_meeting mid) (Db.transcripts (db (snd (fst after))))
     = List.map (row_of mid) (Asr.segments transcript)
  /\ List.filter (of_other_meeting mid) (Db.transcripts (db (snd (fst after))))
     = List.filter (of_other_meeting mid) (Db.transcripts (db w)).
Proof.
  intros [m Hrow] after. subst after. rewrite save_transcripts_outcome, Hrow.
  destruct (rows_of_meeting mid (Asr.segments transcript)) as [Hin Hout].
  pose proof (filter_complement (of_meeting mid) (Db.transcripts (db w))) as Hdel.
  pose proof (filter_filter_same (of_other_meeting mid) (Db.transcripts (db w))) as Hkeep.
  destruct (Asr.segments transcript) as [| seg segs] eqn:E.
  - cbn. tauto.
  - cbn [fst snd db Db.delete_transcripts Db.with_transcripts Db.transcripts].
    rewrite !List.filter_app, (filter_all _ _ Hin), (filter_none _ _ Hout), !app_nil_r.
    split; [reflexivity |]. split; [reflexivity |]. split; [| exact Hkeep].
    change (List.filter (of_meeting mid)
              (List.filter (fun x => negb (of_meeting mid x)) (Db.transcripts (db w)))
            ++ List.map (row_of mid) (seg :: segs)
            = List.map (row_of mid) (seg :: segs)).
    rewrite Hdel. reflexivity.
Qed.

End PipelineStages.

Section PipelineRunExamples.

Import Pipeline.

Lemma process_of_missing_meeting_witness :
  exists msg,
    process sample_providers 8 None init (sample_world "scheduled")
    = ({| _state := FAILED; _current_meeting_id := None |},
       {| db := db (sample_world "scheduled");
          events := events (sample_world "scheduled")
                    ++ [StateChanged FAILED (ErrorText (Py.ValueError msg));
                        Error (ErrorText (Py.ValueError msg))] |},
       false).
Proof.
  apply (process_of_missing_meeting sample_providers 8 None init (sample_world "scheduled")).
  - reflexivity.
  - vm_compute. reflexivity.
Defined.


Lemma recognition_failure_stops_transcription_witness :
  let providers_ :=
    {| transcribe_url := fun u => if String.eqb u "u2" then Raised (Py.ProviderError "timeout")
                                  else Returned empty_result;
       generate := fun _ _ _ => Raised (Py.ProviderError "unavailable");
       json_dumps := fun _ => "[]"%string |} in
  let w := sample_world "processing" in
  let after := _transcribe providers_ 7
                 (Some (["u1"%string] ++ "u2"%string :: ["u3"%string])) (init, w) in
  snd after = Raised (Py.ProviderError "timeout")
  /\ fst (fst after) = init
  /\ db (snd (fst after)) = db w
  /\ recognition_calls (snd (fst after)) = recognition_calls w ++ ["u1"%string] ++ ["u2"%string]
  /\ generation_calls (snd (fst after)) = generation_calls w.
Proof.
  apply (recognition_failure_stops_transcription
           {| transcribe_url := fun u => if String.eqb u "u2"
                                         then Raised (Py.ProviderError "timeout")
                                         else Returned empty_result;
              generate := fun _ _ _ => Raised (Py.ProviderError "unavailable");
              json_dumps := fun _ => "[]"%string |}
           7 ["u1"%string] "u2"%string ["u3"%string] (Py.ProviderError "timeout")
           init (sample_world "processing")).
  - repeat constructor. eexists. reflexivity.
  - reflexivity.
Defined.

Lemma saved_transcript_replaces_the_old_one_witness :
  let transcript := TranscriptMerger.single (Asr.span 0 2 "hello") in
  let w := sample_world "processing" in
  let after := _save_transcripts 7 transcript (init, w) in
  snd after = Returned tt
  /\ fst (fst after) = init
  /\ List.filter (of_meeting 7) (Db.transcripts (db (snd (fst after))))
     = List.map (row_of 7) (Asr.segments transcript)
  /\ List.filter (of_other_meeting 7) (Db.transcripts (db (snd (fst after))))
     = List.filter (of_other_meeting 7) (Db.transcripts (db w)).
Proof.
  apply (saved_transcript_replaces_the_old_one 7
           (TranscriptMerger.single (Asr.span 0 2 "hello")) init (sample_world "processing")).
  eexists. vm_compute. reflexivity.
Defined.

End PipelineRunExamples.
